(** * rascaline-torch: the autograd bridge ([src/autograd.cpp])

    A shallow embedding of [RascalineAutograd::forward] and
    [RascalineAutograd::backward] together with their static helpers, and the
    properties of the forward/backward pair that the specification states.

    Conventions of the embedding.

    - A [torch::Tensor] of doubles is its sizes, its strides and its storage
      (the elements in the order [data_ptr] walks them), with the attributes
      [requires_grad] and [is_cpu]; [is_contiguous] is computed from the sizes
      and the strides the way torch computes it.  The tensors are dense: the
      storage holds every element once.  The scalar type and its [0.0], [+]
      and [*] are parameters of the development: no algebraic law is assumed
      about them, so every statement holds for IEEE doubles as well as for
      the integers used in the examples.
    - Integers ([int32_t] sample values, [int64_t] and [size_t] indices) are
      [Z].  The running sum of the structure sizes adds an unsigned
      [system->size()] to an [int64_t]: it is computed modulo 2^64
      ([to_int64]).  Signed index arithmetic is not wrapped: signed overflow
      is undefined in C++, and an index that reaches a buffer is checked
      against the length of that buffer.
    - The plain [assert] of line 217 is there in a debug build only: the
      build ([NDEBUG] defined or not) is a parameter of [backward].
    - A raw read or write through [data_ptr] or [std::vector::operator[]]
      outside the buffer is undefined behaviour in C++; the embedding makes it
      the outcome [Err UndefinedBehavior].
    - Exceptions are the [Err] outcomes of the [result] monad. *)

From stdpp Require Import gmap strings list.
From Stdlib Require Import ZArith Lia.

Local Open Scope Z_scope.


(** ** Outcomes *)

(** The conditions guarded by [always_assert] in [backward], one constructor
    per site, and the condition of the plain [assert] of line 217
    ([positions_grad_layout]), which only a debug build checks. *)
Inductive assertion : Type :=
  | positions_gradients_size      (* positions_gradients.size() == n_blocks *)
  | positions_grad_layout         (* positions_grad.is_contiguous() && positions_grad.is_cpu() *)
  | positions_names_size          (* samples->names().size() == 3 *)
  | positions_names_0             (* samples->names()[0] == "sample" *)
  | positions_names_1             (* samples->names()[1] == "structure" *)
  | positions_names_2             (* samples->names()[2] == "atom" *)
  | positions_forward_layout      (* forward_values.is_contiguous() && forward_values.is_cpu() *)
  | positions_output_layout       (* grad_output.is_contiguous() && grad_output.is_cpu() *)
  | cell_gradients_size           (* cell_gradients.size() == n_blocks *)
  | all_samples_size              (* all_samples.size() == n_blocks *)
  | cell_grad_layout              (* cell_grad.is_contiguous() && cell_grad.is_cpu() *)
  | cell_same_names               (* first_sample_names == block_samples->names() *)
  | cell_names_size               (* samples->names().size() == 1 *)
  | cell_names_0                  (* samples->names()[0] == "sample" *)
  | cell_forward_layout           (* forward_values.is_contiguous() && forward_values.is_cpu() *)
  | cell_output_layout.           (* grad_output.is_contiguous() && grad_output.is_cpu() *)

Inductive error : Type :=
  | ValueError (msg : string)      (* C10_THROW_ERROR(ValueError, msg) *)
  | AssertFailed (a : assertion)   (* std::runtime_error("assert failed: ..."); for
                                      positions_grad_layout, the abort of assert *)
  | IndexError                     (* torch indexing out of range *)
  | TypeError                      (* an IValue holding another type than the one asked *)
  | LibraryError                   (* thrown by the tensor-map library or the calculator *)
  | UndefinedBehavior.             (* raw access outside a buffer *)

Inductive result (A : Type) : Type :=
  | Ok (a : A)
  | Err (e : error).
Arguments Ok {A} a.
Arguments Err {A} e.

#[global] Instance result_ret : MRet result := fun _ x => Ok x.
#[global] Instance result_bind : MBind result := fun _ _ f m =>
  match m with
  | Ok x => f x
  | Err e => Err e
  end.
#[global] Instance result_fmap : FMap result := fun _ _ f m =>
  match m with
  | Ok x => Ok (f x)
  | Err e => Err e
  end.

Definition is_ok {A} (m : result A) : Prop := exists a, m = Ok a.

(** [always_assert(condition)] *)
Definition always_assert (condition : bool) (a : assertion) : result unit :=
  if condition then Ok tt else Err (AssertFailed a).

(** [assert(condition)]: nothing at all when [NDEBUG] is defined; in a debug
    build a condition that fails stops the program. *)
Definition plain_assert (ndebug : bool) (condition : bool) (a : assertion)
  : result unit :=
  if ndebug then Ok tt else always_assert condition a.

(** The [int64_t] that the 64-bit pattern of [z] stands for: [z] modulo
    2^64, taken in [-2^63, 2^63). *)
Definition to_int64 (z : Z) : Z := (z + 2 ^ 63) mod 2 ^ 64 - 2 ^ 63.

(** [for (i = 0; i < n; i++) body] over a state [S], stopping at the first
    exception. *)
Fixpoint for_each {I S : Type} (range : list I) (body : I -> S -> result S) (s : S)
  : result S :=
  match range with
  | [] => Ok s
  | i :: range' =>
      match body i s with
      | Ok s' => for_each range' body s'
      | Err e => Err e
      end
  end.

(** [ptr[i]], [v[i]]: a raw read. *)
Definition read {A : Type} (buffer : list A) (i : Z) : result A :=
  if decide (0 <= i) then
    match buffer !! Z.to_nat i with
    | Some x => Ok x
    | None => Err UndefinedBehavior
    end
  else Err UndefinedBehavior.

(** ** Systems and calculation options *)

(** A system, as far as this code looks at it. *)
Record TorchSystem : Type := mkSystem {
  use_native_system : bool;      (* system->use_native_system() *)
  system_size : Z;               (* system->size(), the number of atoms: a uintptr_t *)
}.

(** [rascaline::CalculationOptions]; the selections of samples and
    properties are left unset by this code. *)
Record CalculationOptions : Type := mkOptions {
  gradients : list string;
  options_use_native_system : bool;
}.

(** [all_systems_use_native] *)
Definition all_systems_use_native (systems : list TorchSystem) : result bool :=
  first ← read systems 0;
  let native := use_native_system first in
  _ ← for_each systems (fun system (_ : unit) =>
        if negb (eqb (use_native_system system) native) then
          Err (ValueError
            "either all or none of the systems should have pre-defined neighbor lists")
        else Ok tt) tt;
  Ok native.

(** [std::find(begin, end, needle) - begin]: the position of the first
    occurrence, the length of the haystack ([end]) when there is none. *)
Fixpoint find (haystack : list string) (needle : string) : nat :=
  match haystack with
  | [] => 0
  | x :: haystack' => if decide (x = needle) then 0 else S (find haystack' needle)
  end.

(** [contains] *)
Definition contains (haystack : list string) (needle : string) : bool :=
  negb (find haystack needle =? length haystack)%nat.

(** ** Tensors, labels, blocks and tensor maps *)

(** A dense tensor: [data] is its storage, the [numel sizes] elements in the
    order [data_ptr] walks them; the element at an index is found through
    the strides.  For a contiguous tensor this order is the row-major
    order. *)
Record Tensor (R : Type) : Type := mkTensor {
  sizes : list Z;
  strides : list Z;
  data : list R;
  requires_grad : bool;
  is_cpu : bool;
}.
Arguments mkTensor {R}.
Arguments sizes {R}.
Arguments strides {R}.
Arguments data {R}.
Arguments requires_grad {R}.
Arguments is_cpu {R}.

(** The number of elements of a tensor of the given sizes. *)
Definition numel (sizes : list Z) : Z := foldr Z.mul 1 sizes.

(** The strides of a row-major tensor: the stride of a dimension is the
    number of elements of the dimensions after it.  (For a tensor that has
    elements; torch counts a dimension of size 0 as 1 here.) *)
Fixpoint contiguous_strides (sizes : list Z) : list Z :=
  match sizes with
  | [] => []
  | _ :: sizes' => numel sizes' :: contiguous_strides sizes'
  end.

(** [t.is_contiguous()], as torch computes it: a tensor without elements is
    contiguous; otherwise, from the last dimension to the first, a dimension
    of a size other than 1 has to have for stride the number of elements of
    the dimensions after it. *)
Fixpoint contiguous_from (dimensions : list (Z * Z)) (z : Z) : bool :=
  match dimensions with
  | [] => true
  | (size_d, stride_d) :: dimensions' =>
      if decide (size_d = 1) then contiguous_from dimensions' z
      else bool_decide (stride_d = z) && contiguous_from dimensions' (z * size_d)
  end.

Definition is_contiguous {R} (t : Tensor R) : bool :=
  bool_decide (numel (sizes t) = 0)
  || contiguous_from (reverse (zip (sizes t) (strides t))) 1.
Arguments is_contiguous {R} t : simpl never.

(** The place in the storage of the element at [index], and the element
    [t[index]] itself. *)
Definition storage_offset (strides index : list Z) : Z :=
  foldr Z.add 0 (zip_with Z.mul index strides).

Definition element {R} (t : Tensor R) (index : list Z) : option R :=
  let offset := storage_offset (strides t) index in
  if decide (0 <= offset) then data t !! Z.to_nat offset else None.

(** The indices of a tensor of the given sizes, in row-major order, and the
    elements of a tensor in that order. *)
Fixpoint indices (sizes : list Z) : list (list Z) :=
  match sizes with
  | [] => [[]]
  | n :: sizes' => i ← seqZ 0 n; (fun index => i :: index) <$> indices sizes'
  end.

Definition elements {R} (t : Tensor R) : list R :=
  omap (element t) (indices (sizes t)).

(** Labels: named integer columns; [label_values] is the [count x |names|]
    tensor of values, row-major. *)
Record Labels : Type := mkLabels {
  names : list string;
  count : Z;
  label_values : list Z;
}.

#[local] Set Warnings "-register-all".

(** A block; its gradients are blocks themselves, found by name. *)
Inductive TensorBlock (R : Type) : Type := mkBlock {
  values : Tensor R;
  samples : Labels;
  components : list Labels;
  properties : Labels;
  block_gradients : list (string * TensorBlock R);
}.
Arguments mkBlock {R}.
Arguments values {R}.
Arguments samples {R}.
Arguments components {R}.
Arguments properties {R}.
Arguments block_gradients {R}.

Record TensorMap (R : Type) : Type := mkTensorMap {
  keys : Labels;
  blocks : list (TensorBlock R);
}.
Arguments mkTensorMap {R}.
Arguments keys {R}.
Arguments blocks {R}.

(** ** The autograd context *)

(** What [ctx->saved_data] can hold, as far as this code is concerned. *)
Inductive IValue (R : Type) : Type :=
  | INone
  | IIntList (l : list Z)
  | IList (l : list (IValue R))
  | IBlock (b : TensorBlock R)
  | ILabels (l : Labels)
  | ITensorMap (t : TensorMap R).
Arguments INone {R}.
Arguments IIntList {R}.
Arguments IList {R}.
Arguments IBlock {R}.
Arguments ILabels {R}.
Arguments ITensorMap {R}.

Record AutogradContext (R : Type) : Type := mkContext {
  saved_variables : list (Tensor R);
  saved_data : gmap string (IValue R);
}.
Arguments mkContext {R}.
Arguments saved_variables {R}.
Arguments saved_data {R}.

(** Does a saved value hold (a reference to) a whole tensor map? *)
Fixpoint holds_tensor_map {R} (v : IValue R) : bool :=
  match v with
  | ITensorMap _ => true
  | IList l => existsb holds_tensor_map l
  | _ => false
  end.

(** ** The tensor-map interface used by the bridge *)

Section Interface.
Context {R : Type}.

(** Modelled from the spec: [TensorBlockHolder::gradient] belongs to the
    tensor-map library, outside this repository's sources; the spec's block
    interface gives per-block access to a named gradient sub-block or its
    absence.  [block->gradient(parameter)] is the named gradient, and an
    exception of the library when the block has none. *)
Fixpoint find_gradient (gradients : list (string * TensorBlock R)) (parameter : string)
  : result (TensorBlock R) :=
  match gradients with
  | [] => Err LibraryError
  | (name, g) :: gradients' =>
      if decide (name = parameter) then Ok g else find_gradient gradients' parameter
  end.

Definition gradient (block : TensorBlock R) (parameter : string) : result (TensorBlock R) :=
  find_gradient (block_gradients block) parameter.

(** Modelled from the spec: [TensorBlockHolder::add_gradient] is declared in
    the tensor-map library, outside this repository's sources; the spec's
    construction API says that it attaches a named gradient sub-block. *)
Definition add_gradient (block : TensorBlock R) (parameter : string)
    (g : TensorBlock R) : TensorBlock R :=
  mkBlock (values block) (samples block) (components block) (properties block)
          (block_gradients block ++ [(parameter, g)]).

(** Modelled from the spec: [TensorMapHolder::block_by_id] belongs to the
    same library; the spec's interface is a block lookup by index over the
    key count.  An index with no block is an exception of the library. *)
Definition block_by_id (tensor : TensorMap R) (i : Z) : result (TensorBlock R) :=
  if decide (0 <= i) then
    match blocks tensor !! Z.to_nat i with
    | Some b => Ok b
    | None => Err LibraryError
    end
  else Err LibraryError.

(** [ctx->save_for_backward(...)], [ctx->saved_data.emplace(key, value)] (a
    key already present keeps its value) and [ctx->saved_data[key]]. *)
Definition save_for_backward (ctx : AutogradContext R) (to_save : list (Tensor R))
  : AutogradContext R :=
  mkContext to_save (saved_data ctx).

Definition emplace (ctx : AutogradContext R) (key : string) (v : IValue R)
  : AutogradContext R :=
  match saved_data ctx !! key with
  | Some _ => ctx
  | None => mkContext (saved_variables ctx) (<[key := v]> (saved_data ctx))
  end.

Definition saved (ctx : AutogradContext R) (key : string) : IValue R :=
  default INone (saved_data ctx !! key).

(** The context of a new autograd node. *)
Definition new_context : AutogradContext R := mkContext [] ∅.

Definition toIntVector (v : IValue R) : result (list Z) :=
  match v with IIntList l => Ok l | _ => Err TypeError end.

Definition toListRef (v : IValue R) : result (list (IValue R)) :=
  match v with IList l => Ok l | _ => Err TypeError end.

Definition toTensorBlock (v : IValue R) : result (TensorBlock R) :=
  match v with IBlock b => Ok b | _ => Err TypeError end.

Definition toLabels (v : IValue R) : result Labels :=
  match v with ILabels l => Ok l | _ => Err TypeError end.
End Interface.

(** ** Forward *)

Section Forward.
Context {R : Type}.

(** The external calculator, [CalculatorHolder::compute_impl]: a parameter
    of [forward], which may throw. *)
Definition Calculator : Type :=
  list TorchSystem -> CalculationOptions -> result (TensorMap R).

(** [extract_gradient_blocks] *)
Definition extract_gradient_blocks (tensor : TensorMap R) (parameter : string)
  : result (list (TensorBlock R)) :=
  for_each (seqZ 0 (count (keys tensor))) (fun i gradients =>
    block ← block_by_id tensor i;
    gradient ← gradient block parameter;
    Ok (gradients ++ [mkBlock (values gradient) (samples gradient)
                              (components gradient) (properties gradient) []])) [].

(** Lines 69-73: every requested name is "positions" or "cell". *)
Definition check_forward_gradients (forward_gradients : list string) : result unit :=
  for_each forward_gradients (fun parameter (_ : unit) =>
    if bool_decide (parameter ≠ "positions") && bool_decide (parameter ≠ "cell") then
      Err (ValueError ("invalid parameter in forward gradients: " +:+ parameter))
    else Ok tt) tt.

(** Lines 75-81: [calculation_options.gradients]. *)
Definition computed_gradients (all_positions all_cells : Tensor R)
    (forward_gradients : list string) : list string :=
  (if contains forward_gradients "positions" || requires_grad all_positions
   then ["positions"] else [])
  ++ (if contains forward_gradients "cell" || requires_grad all_cells
      then ["cell"] else []).

(** Lines 84-89 *)
Definition all_forward_gradients (forward_gradients computed : list string) : bool :=
  fold_left (fun all parameter =>
    if negb (contains forward_gradients parameter) then false else all) computed true.

(** Lines 96-101.  [current_start += system->size()] adds a [uintptr_t] to
    an [int64_t]: the sum is taken modulo 2^64 and stored as an [int64_t]. *)
Definition structures_start_of (systems : list TorchSystem) : list Z :=
  fst (fold_left (fun '(structures_start, current_start) system =>
         (structures_start ++ [current_start],
          to_int64 (current_start + system_size system)))
       systems ([], 0)).

(** Lines 106-111 *)
Definition values_by_block_of (descriptor : TensorMap R) : result (list (Tensor R)) :=
  for_each (seqZ 0 (count (keys descriptor))) (fun i values_by_block =>
    block ← block_by_id descriptor i;
    Ok (values_by_block ++ [values block])) [].

(** Lines 141-145 *)
Definition all_samples_of (descriptor : TensorMap R) : result (list Labels) :=
  for_each (seqZ 0 (count (keys descriptor))) (fun i all_samples =>
    block ← block_by_id descriptor i;
    Ok (all_samples ++ [samples block])) [].

(** Lines 113-147: what is kept for the backward pass. *)
Definition save_context (ctx : AutogradContext R) (all_positions all_cells : Tensor R)
    (structures_start : list Z) (descriptor : TensorMap R)
  : result (AutogradContext R) :=
  let ctx := save_for_backward ctx [all_positions; all_cells] in
  let ctx := emplace ctx "structures_start" (IIntList structures_start) in
  ctx ← (if requires_grad all_positions then
           gradients ← extract_gradient_blocks descriptor "positions";
           Ok (emplace ctx "positions_gradients" (IList (IBlock <$> gradients)))
         else Ok ctx);
  if requires_grad all_cells then
    gradients ← extract_gradient_blocks descriptor "cell";
    let ctx := emplace ctx "cell_gradients" (IList (IBlock <$> gradients)) in
    all_samples ← all_samples_of descriptor;
    Ok (emplace ctx "samples" (IList (ILabels <$> all_samples)))
  else Ok ctx.

(** Lines 153-169: the blocks of the filtered tensor map. *)
Definition new_block_of (block : TensorBlock R) (forward_gradients : list string)
  : result (TensorBlock R) :=
  let new_block :=
    mkBlock (values block) (samples block) (components block) (properties block) [] in
  for_each forward_gradients (fun parameter new_block =>
    gradient ← gradient block parameter;
    Ok (add_gradient new_block parameter gradient)) new_block.

(** Lines 150-175 *)
Definition returned_tensor_map (descriptor : TensorMap R)
    (forward_gradients : list string) (all_forward_gradients : bool)
  : result (TensorMap R) :=
  if all_forward_gradients then Ok descriptor
  else
    new_blocks ← for_each (seqZ 0 (count (keys descriptor))) (fun i new_blocks =>
      block ← block_by_id descriptor i;
      new_block ← new_block_of block forward_gradients;
      Ok (new_blocks ++ [new_block])) [];
    Ok (mkTensorMap (keys descriptor) new_blocks).

(** What [forward] hands back: the returned [values_by_block], the context
    as it leaves it, and the tensor map written through [tensor_map]. *)
Record ForwardOutput : Type := mkForwardOutput {
  values_by_block : list (Tensor R);
  context : AutogradContext R;
  tensor_map : TensorMap R;
}.

(** Lines 105-177, once the calculator has returned [descriptor]. *)
Definition after_compute (ctx : AutogradContext R) (all_positions all_cells : Tensor R)
    (forward_gradients : list string) (all_forward_gradients : bool)
    (structures_start : list Z) (descriptor : TensorMap R) : result ForwardOutput :=
  values_by_block ← values_by_block_of descriptor;
  ctx ← save_context ctx all_positions all_cells structures_start descriptor;
  tensor_map ← returned_tensor_map descriptor forward_gradients all_forward_gradients;
  Ok (mkForwardOutput values_by_block ctx tensor_map).

(** [RascalineAutograd::forward].  The first component of the result is the
    list of invocations of the calculator, in order, each with the systems
    and the options it received. *)
Definition forward (ctx : AutogradContext R) (all_positions all_cells : Tensor R)
    (calculator : Calculator) (systems : list TorchSystem)
    (forward_gradients : list string)
  : list (list TorchSystem * CalculationOptions) * result ForwardOutput :=
  match check_forward_gradients forward_gradients with
  | Err e => ([], Err e)
  | Ok _ =>
      let computed := computed_gradients all_positions all_cells forward_gradients in
      let all_forward_gradients := all_forward_gradients forward_gradients computed in
      match all_systems_use_native systems with
      | Err e => ([], Err e)
      | Ok native =>
          let calculation_options := mkOptions computed native in
          let structures_start := structures_start_of systems in
          ([(systems, calculation_options)],
           descriptor ← calculator systems calculation_options;
           after_compute ctx all_positions all_cells forward_gradients
                         all_forward_gradients structures_start descriptor)
      end
  end.
End Forward.
Arguments Calculator R : clear implicits.
Arguments ForwardOutput R : clear implicits.

(** ** Backward *)

Section Backward.
Context (ndebug : bool) {R : Type} (zero : R) (add mul : R -> R -> R).

(** [t.contiguous()]: [t] itself when it is contiguous, and otherwise a
    tensor with the same elements laid out row-major. *)
Definition contiguous (t : Tensor R) : Tensor R :=
  if is_contiguous t then t
  else mkTensor (sizes t) (contiguous_strides (sizes t)) (elements t)
                (requires_grad t) (is_cpu t).

(** [torch::zeros_like(t)]: zeros with the shape and the device of [t], and
    with its strides (torch keeps the strides of a dense tensor). *)
Definition zeros_like (t : Tensor R) : Tensor R :=
  mkTensor (sizes t) (strides t) (replicate (length (data t)) zero) false (is_cpu t).

Definition with_data (t : Tensor R) (buffer : list R) : Tensor R :=
  mkTensor (sizes t) (strides t) buffer (requires_grad t) (is_cpu t).

(** What the host reaches through [t.data_ptr()]: the storage of a tensor on
    the CPU.  The pointer of a tensor on another device is not one the host
    can follow: every access through it is outside the host's buffers. *)
Definition host_data (t : Tensor R) : list R :=
  if is_cpu t then data t else [].

(** The tensor [t] once its storage has become [buffer] through the writes
    of the host. *)
Definition written (t : Tensor R) (buffer : list R) : Tensor R :=
  if is_cpu t then with_data t buffer else t.

(** [ptr[i] += v] *)
Definition add_at (buffer : list R) (i : Z) (v : R) : result (list R) :=
  x ← read buffer i;
  Ok (<[Z.to_nat i := add x v]> buffer).

(** Lines 244-247 and 323-326: the product of all sizes but the first. *)
Definition dot_dimensions_of (grad_output_sizes : list Z) : Z :=
  fold_left (fun dot_dimensions s => dot_dimensions * s) (drop 1 grad_output_sizes) 1.

(** Lines 259-264 and 337-343: the dot product of the forward values from
    [forward_start] on with the adjoint values from [grad_start] on. *)
Definition dot_loop (forward_grad grad_values : list R)
    (forward_start grad_start dot_dimensions : Z) : result R :=
  for_each (seqZ 0 dot_dimensions) (fun i dA =>
    dX ← read forward_grad (forward_start + i);
    dA_dX ← read grad_values (grad_start + i);
    Ok (add dA (mul dX dA_dX))) zero.

(** Lines 251-267: one gradient sample of the positions path. *)
Definition positions_row (structures_start samples_values : list Z)
    (forward_grad grad_values : list R) (dot_dimensions : Z)
    (grad_sample_i : Z) (positions_grad : list R) : result (list R) :=
  sample_i ← read samples_values (grad_sample_i * 3 + 0);
  structure_i ← read samples_values (grad_sample_i * 3 + 1);
  atom_i ← read samples_values (grad_sample_i * 3 + 2);
  start ← read structures_start structure_i;
  let global_atom_i := start + atom_i in
  for_each (seqZ 0 3) (fun direction positions_grad =>
    dA_dr ← dot_loop forward_grad grad_values
               ((grad_sample_i * 3 + direction) * dot_dimensions)
               (sample_i * dot_dimensions) dot_dimensions;
    add_at positions_grad (global_atom_i * 3 + direction) dA_dr) positions_grad.

(** Lines 221-267: one block of the positions path. *)
Definition positions_block (structures_start : list Z) (gradient : TensorBlock R)
    (grad_outputs : list (Tensor R)) (block_i : Z) (positions_grad : list R)
  : result (list R) :=
  let samples := samples gradient in
  _ ← always_assert (bool_decide (length (names samples) = 3%nat)) positions_names_size;
  _ ← always_assert (bool_decide (names samples !! 0%nat = Some "sample")) positions_names_0;
  _ ← always_assert (bool_decide (names samples !! 1%nat = Some "structure")) positions_names_1;
  _ ← always_assert (bool_decide (names samples !! 2%nat = Some "atom")) positions_names_2;
  let forward_values := values gradient in
  _ ← always_assert (is_contiguous forward_values && is_cpu forward_values)
        positions_forward_layout;
  grad_output ← read grad_outputs block_i;
  _ ← always_assert (is_contiguous grad_output && is_cpu grad_output)
        positions_output_layout;
  let dot_dimensions := dot_dimensions_of (sizes grad_output) in
  for_each (seqZ 0 (count samples))
    (positions_row structures_start (label_values samples) (data forward_values)
                   (data grad_output) dot_dimensions)
    positions_grad.

(** Lines 220-268: the loop over the blocks, up to block [n]. *)
Definition positions_blocks (structures_start : list Z)
    (positions_gradients : list (IValue R)) (grad_outputs : list (Tensor R))
    (n : Z) (positions_grad : list R) : result (list R) :=
  for_each (seqZ 0 n) (fun block_i positions_grad =>
    gradient ← read positions_gradients block_i ≫= toTensorBlock;
    positions_block structures_start gradient grad_outputs block_i positions_grad)
    positions_grad.

(** Lines 211-269: the gradient with respect to the positions.  The check
    of line 217 is a plain [assert]: a debug build stops there; a release
    build goes on and writes through [data_ptr], in row-major order, into
    the storage of [positions_grad], whatever its strides are. *)
Definition positions_path (ctx : AutogradContext R) (all_positions : Tensor R)
    (structures_start : list Z) (grad_outputs : list (Tensor R)) (n_blocks : Z)
  : result (option (Tensor R)) :=
  if requires_grad all_positions then
    positions_gradients ← toListRef (saved ctx "positions_gradients");
    _ ← always_assert (bool_decide (Z.of_nat (length positions_gradients) = n_blocks))
          positions_gradients_size;
    let positions_grad := zeros_like all_positions in
    _ ← plain_assert ndebug (is_contiguous positions_grad && is_cpu positions_grad)
          positions_grad_layout;
    buffer ← positions_blocks structures_start positions_gradients grad_outputs
               n_blocks (host_data positions_grad);
    Ok (Some (written positions_grad buffer))
  else Ok None.

(** [labels->values().index({Slice(), dimension})]: one column of the
    values, for a dimension that is not negative. *)
Definition index_column (labels : Labels) (dimension : Z) : result (list Z) :=
  let width := Z.of_nat (length (names labels)) in
  if decide (0 <= dimension < width) then
    for_each (seqZ 0 (count labels)) (fun row column =>
      x ← read (label_values labels) (row * width + dimension);
      Ok (column ++ [x])) []
  else Err IndexError.

(** [t[index].item<int32_t>()] on a one-dimensional tensor: torch counts a
    negative index from the end. *)
Definition select (t : list Z) (index : Z) : result Z :=
  let n := Z.of_nat (length t) in
  if decide (- n <= index < n) then
    read t (if decide (index < 0) then index + n else index)
  else Err IndexError.

(** Lines 330-347: one gradient sample of the cell path. *)
Definition cell_row (structures samples_values : list Z)
    (forward_grad grad_values : list R) (dot_dimensions : Z)
    (grad_sample_i : Z) (cell_grad : list R) : result (list R) :=
  sample_i ← read samples_values grad_sample_i;
  structure_i ← select structures sample_i;
  for_each (seqZ 0 3) (fun direction_1 cell_grad =>
    for_each (seqZ 0 3) (fun direction_2 cell_grad =>
      let id := (grad_sample_i * 3 + direction_2) * 3 + direction_1 in
      dA_dH ← dot_loop forward_grad grad_values (id * dot_dimensions)
                 (sample_i * dot_dimensions) dot_dimensions;
      add_at cell_grad ((structure_i * 3 + direction_1) * 3 + direction_2) dA_dH)
      cell_grad) cell_grad.

(** Lines 298-347: one block of the cell path. *)
Definition cell_block (first_sample_names : list string) (structure_dimension : Z)
    (gradient : TensorBlock R) (block_samples : Labels)
    (grad_outputs : list (Tensor R)) (block_i : Z) (cell_grad : list R)
  : result (list R) :=
  _ ← always_assert (bool_decide (first_sample_names = names block_samples))
        cell_same_names;
  structures ← index_column block_samples structure_dimension;
  let samples := samples gradient in
  _ ← always_assert (bool_decide (length (names samples) = 1%nat)) cell_names_size;
  _ ← always_assert (bool_decide (names samples !! 0%nat = Some "sample")) cell_names_0;
  let forward_values := values gradient in
  _ ← always_assert (is_contiguous forward_values && is_cpu forward_values)
        cell_forward_layout;
  grad_output ← read grad_outputs block_i;
  _ ← always_assert (is_contiguous grad_output && is_cpu grad_output)
        cell_output_layout;
  let dot_dimensions := dot_dimensions_of (sizes grad_output) in
  for_each (seqZ 0 (count samples))
    (cell_row structures (label_values samples) (data forward_values)
              (data grad_output) dot_dimensions)
    cell_grad.

(** Lines 297-348: the loop over the blocks, up to block [n]. *)
Definition cell_blocks (first_sample_names : list string) (structure_dimension : Z)
    (cell_gradients all_samples : list (IValue R)) (grad_outputs : list (Tensor R))
    (n : Z) (cell_grad : list R) : result (list R) :=
  for_each (seqZ 0 n) (fun block_i cell_grad =>
    gradient ← read cell_gradients block_i ≫= toTensorBlock;
    block_samples ← read all_samples block_i ≫= toLabels;
    cell_block first_sample_names structure_dimension gradient block_samples
               grad_outputs block_i cell_grad) cell_grad.

(** Lines 271-349: the gradient with respect to the cell. *)
Definition cell_path (ctx : AutogradContext R) (all_cells : Tensor R)
    (grad_outputs : list (Tensor R)) (n_blocks : Z) : result (option (Tensor R)) :=
  if requires_grad all_cells then
    cell_gradients ← toListRef (saved ctx "cell_gradients");
    _ ← always_assert (bool_decide (Z.of_nat (length cell_gradients) = n_blocks))
          cell_gradients_size;
    all_samples ← toListRef (saved ctx "samples");
    _ ← always_assert (bool_decide (Z.of_nat (length all_samples) = n_blocks))
          all_samples_size;
    let cell_grad := zeros_like all_cells in
    _ ← always_assert (is_contiguous cell_grad && is_cpu cell_grad) cell_grad_layout;
    first_samples ← read all_samples 0 ≫= toLabels;
    let first_sample_names := names first_samples in
    let structure_dimension_it := find first_sample_names "structure" in
    if (structure_dimension_it =? length first_sample_names)%nat then
      Err (ValueError
        "could not find 'structure' in the samples, this calculator is missing it")
    else
      let structure_dimension := Z.of_nat structure_dimension_it in
      buffer ← cell_blocks first_sample_names structure_dimension cell_gradients
                 all_samples grad_outputs n_blocks (data cell_grad);
      Ok (Some (with_data cell_grad buffer))
  else Ok None.

(** [RascalineAutograd::backward]; an undefined [torch::Tensor()] is [None]. *)
Definition backward (ctx : AutogradContext R) (grad_outputs : list (Tensor R))
  : result (list (option (Tensor R))) :=
  let saved_variables := saved_variables ctx in
  all_positions ← read saved_variables 0;
  all_cells ← read saved_variables 1;
  structures_start ← toIntVector (saved ctx "structures_start");
  let n_blocks := Z.of_nat (length grad_outputs) in
  let grad_outputs := contiguous <$> grad_outputs in
  if decide (n_blocks = 0) then Ok [None; None; None; None; None; None]
  else
    positions_grad ← positions_path ctx all_positions structures_start grad_outputs
                       n_blocks;
    cell_grad ← cell_path ctx all_cells grad_outputs n_blocks;
    Ok [positions_grad; cell_grad; None; None; None; None].
End Backward.
Arguments contiguous {R} t : simpl never.

(** The exception of [all_systems_use_native]. *)
Definition native_mismatch : error :=
  ValueError "either all or none of the systems should have pre-defined neighbor lists".

(** The two names [forward] accepts among the forward gradients. *)
Definition recognized (parameter : string) : Prop :=
  parameter = "positions" \/ parameter = "cell".

(** ** The backward pass as the specification words it *)

Section Specification.
Context {R : Type} (zero : R) (add mul : R -> R -> R).

(** Structure offsets: the prefix sums of the atom counts, starting at 0. *)
Definition structure_offsets (systems : list TorchSystem) : list Z :=
  (fun i => foldr Z.add 0 (system_size <$> take i systems)) <$> seq 0 (length systems).

(** The same offsets as the [int64_t] values the code holds them in: they
    are the prefix sums themselves as long as these stay below 2^63. *)
Definition int64_offsets (systems : list TorchSystem) : list Z :=
  to_int64 <$> structure_offsets systems.

(** The length of the flattened component-times-property axis of a tensor
    whose first axis counts the samples: the number of elements of one
    sample. *)
Definition flattened_width (t : Tensor R) : Z := numel (drop 1 (sizes t)).

(** Entry [i] of a table of integers. *)
Definition entry (table : list Z) (i : Z) : Z := table !!! Z.to_nat i.

(** Row [row] of a buffer read as a matrix with [width] columns: the
    flattened component-times-property axis of one sample. *)
Definition row_of (buffer : list R) (width row : Z) : list R :=
  take (Z.to_nat width) (drop (Z.to_nat (row * width)) buffer).

Definition dot_product (xs ys : list R) : R :=
  fold_left (fun dot xy => add dot (mul xy.1 xy.2)) (zip xs ys) zero.

(** The sum, in order and starting from zero, of the contributions that
    carry the index [key]. *)
Definition accumulate {K : Type} `{EqDecision K} (key : K)
    (contributions : list (K * R)) : R :=
  fold_left (fun sum c => if decide (c.1 = key) then add sum c.2 else sum)
            contributions zero.

(** Positions: gradient sample [r] of a block, with its triple (sample,
    structure, atom), contributes in each direction the dot product of row
    [r, direction] of the Jacobian with row [sample] of the adjoint, at
    [structure_offsets[structure] + atom][direction]. *)
Definition positions_row_contributions (offsets : list Z)
    (jacobian : TensorBlock R) (adjoint : Tensor R) (r : Z) : list (Z * Z * R) :=
  let width := flattened_width adjoint in
  let table := label_values (samples jacobian) in
  let sample := entry table (r * 3) in
  let structure := entry table (r * 3 + 1) in
  let atom := entry table (r * 3 + 2) in
  direction ← seqZ 0 3;
  [(entry offsets structure + atom, direction,
    dot_product (row_of (data (values jacobian)) width (r * 3 + direction))
                (row_of (data adjoint) width sample))].

Definition positions_contributions (offsets : list Z)
    (jacobian : TensorBlock R) (adjoint : Tensor R) : list (Z * Z * R) :=
  r ← seqZ 0 (count (samples jacobian));
  positions_row_contributions offsets jacobian adjoint r.

Definition positions_gradient_at (offsets : list Z) (jacobians : list (TensorBlock R))
    (adjoints : list (Tensor R)) (atom direction : Z) : R :=
  accumulate (atom, direction)
    (mjoin (zip_with (positions_contributions offsets) jacobians adjoints)).

(** Cell: the lookup table from a sample of the block to its structure is
    the located column of the block's samples, indexed the way torch
    indexes a tensor. *)
Definition structure_table (block_samples : Labels) (structure_dimension : Z) : list Z :=
  (fun row => entry (label_values block_samples)
                (row * Z.of_nat (length (names block_samples)) + structure_dimension))
    <$> seqZ 0 (count block_samples).

Definition resolve (table : list Z) (sample : Z) : Z :=
  entry table (if decide (sample < 0) then sample + Z.of_nat (length table) else sample).

(** Gradient sample [r] of a block contributes, for each pair (i, j), the
    dot product of the Jacobian entry at offset [(r*3 + j)*3 + i] with row
    [sample] of the adjoint, at [structure][i][j]. *)
Definition cell_row_contributions (table : list Z)
    (jacobian : TensorBlock R) (adjoint : Tensor R) (r : Z) : list (Z * Z * Z * R) :=
  let width := flattened_width adjoint in
  let sample := entry (label_values (samples jacobian)) r in
  i ← seqZ 0 3;
  j ← seqZ 0 3;
  [(resolve table sample, i, j,
    dot_product (row_of (data (values jacobian)) width ((r * 3 + j) * 3 + i))
                (row_of (data adjoint) width sample))].

Definition cell_contributions (structure_dimension : Z) (block_samples : Labels)
    (jacobian : TensorBlock R) (adjoint : Tensor R) : list (Z * Z * Z * R) :=
  r ← seqZ 0 (count (samples jacobian));
  cell_row_contributions (structure_table block_samples structure_dimension)
                         jacobian adjoint r.

Definition cell_gradient_at (structure_dimension : Z) (all_samples : list Labels)
    (jacobians : list (TensorBlock R)) (adjoints : list (Tensor R))
    (structure i j : Z) : R :=
  accumulate (structure, i, j)
    (mjoin (zip_with (fun sj adjoint =>
                        cell_contributions structure_dimension sj.1 sj.2 adjoint)
                     (zip all_samples jacobians) adjoints)).

(** The position in a row-major buffer of [atom][direction] and of
    [structure][i][j]. *)
Definition flat2 (c : Z * Z * R) : Z * R := (c.1.1 * 3 + c.1.2, c.2).
Definition flat3 (c : Z * Z * Z * R) : Z * R :=
  ((c.1.1.1 * 3 + c.1.1.2) * 3 + c.1.2, c.2).

(** A buffer [after] holds [before] plus, entry by entry and in order, the
    updates addressed to that entry. *)
Definition accumulated (before : list R) (updates : list (Z * R)) (after : list R)
  : Prop :=
  length after = length before /\
  forall k x, before !! k = Some x ->
    after !! k = Some (fold_left (fun sum u =>
                         if decide (u.1 = Z.of_nat k) then add sum u.2 else sum)
                       updates x).

(** The standalone copy of a gradient block kept for the backward pass. *)
Definition standalone (g : TensorBlock R) : TensorBlock R :=
  mkBlock (values g) (samples g) (components g) (properties g) [].
End Specification.

(** ** Saved data that fits the buffers

    What the calculator's output and the adjoints have to satisfy for every
    raw access of [backward] to stay inside its buffer. *)

Section Fits.
Context {R : Type}.

(** Gradient sample [r] of a positions gradient: its three columns exist,
    its structure has an offset, its atom is a row of the positions, and the
    rows of the dot product are inside the Jacobian and the adjoint. *)
Definition positions_row_fits (offsets : list Z) (n : Z) (jacobian : TensorBlock R)
    (adjoint : Tensor R) (r : Z) : Prop :=
  let width := flattened_width adjoint in
  let table := label_values (samples jacobian) in
  let sample := entry table (r * 3) in
  let structure := entry table (r * 3 + 1) in
  let global_atom := entry offsets structure + entry table (r * 3 + 2) in
  r * 3 + 2 < Z.of_nat (length table)
  /\ 0 <= structure < Z.of_nat (length offsets)
  /\ 0 <= global_atom /\ global_atom * 3 + 2 < n
  /\ (0 < width ->
      0 <= sample
      /\ (sample + 1) * width <= Z.of_nat (length (data adjoint))
      /\ (r * 3 + 3) * width <= Z.of_nat (length (data (values jacobian)))).

Definition positions_block_fits (offsets : list Z) (n : Z) (jacobian : TensorBlock R)
    (adjoint : Tensor R) : Prop :=
  names (samples jacobian) = ["sample"; "structure"; "atom"]
  /\ is_contiguous (values jacobian) = true /\ is_cpu (values jacobian) = true
  /\ is_contiguous adjoint = true /\ is_cpu adjoint = true
  /\ forall r, 0 <= r < count (samples jacobian) ->
               positions_row_fits offsets n jacobian adjoint r.

Definition positions_fit (offsets : list Z) (all_positions : Tensor R)
    (jacobians : list (TensorBlock R)) (adjoints : list (Tensor R)) : Prop :=
  is_contiguous all_positions = true /\ is_cpu all_positions = true
  /\ Forall2 (positions_block_fits offsets (Z.of_nat (length (data all_positions))))
             jacobians adjoints.

(** Gradient sample [r] of a cell gradient: its sample is a row of the
    block's samples, the structure of that sample is a 3x3 block of the
    cells, and the rows of the dot product are inside their buffers. *)
Definition cell_row_fits (n : Z) (table : list Z) (jacobian : TensorBlock R)
    (adjoint : Tensor R) (r : Z) : Prop :=
  let width := flattened_width adjoint in
  let sample := entry (label_values (samples jacobian)) r in
  r < Z.of_nat (length (label_values (samples jacobian)))
  /\ 0 <= sample < Z.of_nat (length table)
  /\ 0 <= entry table sample /\ entry table sample * 9 + 8 < n
  /\ (0 < width ->
      (sample + 1) * width <= Z.of_nat (length (data adjoint))
      /\ (r * 9 + 9) * width <= Z.of_nat (length (data (values jacobian)))).

Definition cell_block_fits (first_sample_names : list string) (structure_dimension n : Z)
    (block_samples : Labels) (jacobian : TensorBlock R) (adjoint : Tensor R) : Prop :=
  names block_samples = first_sample_names
  /\ count block_samples * Z.of_nat (length (names block_samples))
     <= Z.of_nat (length (label_values block_samples))
  /\ names (samples jacobian) = ["sample"]
  /\ is_contiguous (values jacobian) = true /\ is_cpu (values jacobian) = true
  /\ is_contiguous adjoint = true /\ is_cpu adjoint = true
  /\ forall r, 0 <= r < count (samples jacobian) ->
               cell_row_fits n (structure_table block_samples structure_dimension)
                             jacobian adjoint r.

Definition cell_fit (all_cells : Tensor R) (all_samples : list Labels)
    (jacobians : list (TensorBlock R)) (adjoints : list (Tensor R)) : Prop :=
  is_contiguous all_cells = true /\ is_cpu all_cells = true
  /\ length all_samples = length jacobians
  /\ exists first,
       all_samples !! 0%nat = Some first
       /\ "structure" ∈ names first
       /\ Forall2 (fun sj adjoint =>
                     cell_block_fits (names first)
                       (Z.of_nat (find (names first) "structure"))
                       (Z.of_nat (length (data all_cells))) sj.1 sj.2 adjoint)
                  (zip all_samples jacobians) adjoints.
End Fits.

(** The blocks that the keys of a tensor map give access to. *)
Definition keyed_blocks {R} (tensor : TensorMap R) : list (TensorBlock R) :=
  take (Z.to_nat (count (keys tensor))) (blocks tensor).

(** ** A small calculator, on integers

    One structure of two atoms and one block of two samples with two
    properties; the calculator attaches the gradients it is asked for. *)

Module Example.
Definition dense (sizes : list Z) (data : list Z) (requires_grad : bool) : Tensor Z :=
  mkTensor sizes (contiguous_strides sizes) data requires_grad true.

Definition systems : list TorchSystem := [mkSystem false 2].

Definition all_positions (requires_grad : bool) : Tensor Z :=
  dense [2; 3] [0; 0; 0; 1; 1; 1] requires_grad.
Definition all_cells (requires_grad : bool) : Tensor Z :=
  dense [3; 3] [5; 0; 0; 0; 5; 0; 0; 0; 5] requires_grad.

Definition block_samples : Labels := mkLabels ["structure"; "center"] 2 [0; 0; 0; 1].
Definition block_properties : Labels := mkLabels ["n"] 2 [0; 1].
Definition directions : Labels := mkLabels ["direction"] 3 [0; 1; 2].

Definition positions_gradient : TensorBlock Z :=
  mkBlock (dense [3; 3; 2] [1; 2; 3; 4; 5; 6; 7; 8; 9; 10; 11; 12; 13; 14; 15; 16; 17; 18]
                 false)
          (mkLabels ["sample"; "structure"; "atom"] 3 [0; 0; 0; 0; 0; 1; 1; 0; 1])
          [directions] block_properties [].

Definition cell_gradient : TensorBlock Z :=
  mkBlock (dense [2; 3; 3; 2] (seqZ 1 36) false)
          (mkLabels ["sample"] 2 [0; 1])
          [directions; directions] block_properties [].

Definition gradient_named (parameter : string) : TensorBlock Z :=
  if decide (parameter = "positions") then positions_gradient else cell_gradient.

Definition block (options : CalculationOptions) : TensorBlock Z :=
  mkBlock (dense [2; 2] [1; 2; 3; 4] false) block_samples [] block_properties
          ((fun parameter => (parameter, gradient_named parameter))
             <$> gradients options).

Definition calculator : Calculator Z :=
  fun _ options => Ok (mkTensorMap (mkLabels ["key"] 1 [0]) [block options]).

(** A calculator whose samples do not say which structure they belong to. *)
Definition anonymous (b : TensorBlock Z) : TensorBlock Z :=
  mkBlock (values b) (mkLabels ["center"] 2 [0; 1]) (components b) (properties b)
          (block_gradients b).

Definition anonymous_calculator : Calculator Z :=
  fun _ options => Ok (mkTensorMap (mkLabels ["key"] 1 [0]) [anonymous (block options)]).

Definition adjoint : Tensor Z := dense [2; 2] [1; 10; 100; 1000] false.

Definition run (calculator : Calculator Z) (positions_grad cells_grad : bool)
    (forward_gradients : list string) :=
  forward new_context (all_positions positions_grad) (all_cells cells_grad)
          calculator systems forward_gradients.

(** [forward] followed by [backward] on the given adjoints, in a release
    build. *)
Definition round_trip (calculator : Calculator Z) (positions_grad cells_grad : bool)
    (forward_gradients : list string) (adjoints : list (Tensor Z))
  : result (list (option (Tensor Z))) :=
  out ← (run calculator positions_grad cells_grad forward_gradients).2;
  backward true 0 Z.add Z.mul (context out) adjoints.
(** A calculator whose positions gradients list their sample columns in
    another order. *)
Definition misnamed (b : TensorBlock Z) : TensorBlock Z :=
  mkBlock (values b) (samples b) (components b) (properties b)
    ((fun '(name, g) =>
        (name, mkBlock (values g)
                 (mkLabels ["sample"; "atom"; "structure"] (count (samples g))
                           (label_values (samples g)))
                 (components g) (properties g) (block_gradients g)))
       <$> block_gradients b).

Definition misnamed_calculator : Calculator Z :=
  fun _ options => Ok (mkTensorMap (mkLabels ["key"] 1 [0]) [misnamed (block options)]).

(** A calculator with two blocks whose samples have different columns. *)
Definition other_samples : Labels := mkLabels ["structure"; "atom"] 2 [0; 0; 0; 1].

Definition renamed (b : TensorBlock Z) : TensorBlock Z :=
  mkBlock (values b) other_samples (components b) (properties b) (block_gradients b).

Definition two_block_calculator : Calculator Z :=
  fun _ options =>
    Ok (mkTensorMap (mkLabels ["key"] 2 [0; 1]) [block options; renamed (block options)]).

(** The output of a forward call that succeeded, and its context. *)
Definition output_of (r : result (ForwardOutput Z)) : ForwardOutput Z :=
  match r with
  | Ok out => out
  | Err _ => mkForwardOutput [] new_context (mkTensorMap (mkLabels [] 0 []) [])
  end.

Definition context_after (calculator : Calculator Z) (positions_grad cells_grad : bool)
    (forward_gradients : list string) : AutogradContext Z :=
  context (output_of (run calculator positions_grad cells_grad forward_gradients).2).

Definition returned (r : result (list (option (Tensor Z)))) : list (option (Tensor Z)) :=
  match r with
  | Ok l => l
  | Err _ => []
  end.
End Example.

(** ** What the context of a successful forward call is expected to hold *)

Definition saved_after_forward {R} (all_positions all_cells : Tensor R)
    (structures_start : list Z) (positions_gradients cell_gradients : list (TensorBlock R))
    (all_samples : list Labels) : gmap string (IValue R) :=
  let m := <["structures_start" := IIntList structures_start]> ∅ in
  let m := if requires_grad all_positions
           then <["positions_gradients" := IList (IBlock <$> positions_gradients)]> m
           else m in
  if requires_grad all_cells
  then <["samples" := IList (ILabels <$> all_samples)]>
         (<["cell_gradients" := IList (IBlock <$> cell_gradients)]> m)
  else m.

(** The standalone copies of the gradients named [parameter] of some blocks. *)
Definition copies_of {R} (parameter : string) (blocks : list (TensorBlock R))
    (copies : list (TensorBlock R)) : Prop :=
  Forall2 (fun b g => exists gb, gradient b parameter = Ok gb /\ g = standalone gb)
          blocks copies.

(** The reading of "whatever was computed is saved": every channel passed to
    the calculator has its gradient blocks in the context. *)
Definition saves_every_computed_gradient {R}
    (calls : list (list TorchSystem * CalculationOptions)) (out : ForwardOutput R) : Prop :=
  forall call parameter,
    call ∈ calls -> parameter ∈ gradients call.2 ->
    is_Some (saved_data (context out) !! (parameter +:+ "_gradients")).

(** A block of the filtered tensor map: the data of [block], and of its
    gradients those whose name is in [forward_gradients]. *)
Definition filtered_block {R} (forward_gradients : list string)
    (block new_block : TensorBlock R) : Prop :=
  values new_block = values block
  /\ samples new_block = samples block
  /\ components new_block = components block
  /\ properties new_block = properties block
  /\ fst <$> block_gradients new_block = forward_gradients
  /\ (forall p, p ∈ forward_gradients -> gradient new_block p = gradient block p)
  /\ (forall p, p ∉ forward_gradients -> gradient new_block p = Err LibraryError).

(** The exception of the cell path when no sample column is named
    "structure". *)
Definition structure_missing : error :=
  ValueError "could not find 'structure' in the samples, this calculator is missing it".

(** The four checks on the sample names of a positions gradient. *)
Definition positions_names_checks : list assertion :=
  [positions_names_size; positions_names_0; positions_names_1; positions_names_2].

(** What [backward] returns when it has no gradient to give. *)
Definition no_gradients {R} : list (option (Tensor R)) :=
  [None; None; None; None; None; None].

(** ** Names used by the further properties *)

(** The keys [forward] may add to [ctx->saved_data]. *)
Definition saved_keys : list string :=
  ["structures_start"; "positions_gradients"; "cell_gradients"; "samples"].

(** A context [after] that holds everything [before] held, unchanged, and
    beyond that only keys of [forward]. *)
Definition only_adds {R} (before after : AutogradContext R) : Prop :=
  (forall key v, saved_data before !! key = Some v -> saved_data after !! key = Some v)
  /\ (forall key, is_Some (saved_data after !! key) ->
                  is_Some (saved_data before !! key) \/ key ∈ saved_keys).

(** The checks made on each block in the two paths of [backward], and the
    checks on the number of saved blocks. *)
Definition positions_block_checks : list assertion :=
  positions_names_checks ++ [positions_forward_layout; positions_output_layout].

Definition cell_block_checks : list assertion :=
  [cell_same_names; cell_names_size; cell_names_0; cell_forward_layout;
   cell_output_layout].

Definition size_checks : list assertion :=
  [positions_gradients_size; cell_gradients_size; all_samples_size].

(** What [backward] can raise at all: no exception of the tensor-map
    library, and of the invalid-argument errors only the one about the
    missing "structure" column. *)
Definition raised_by_backward (e : error) : Prop :=
  match e with
  | LibraryError => False
  | ValueError msg =>
      msg = "could not find 'structure' in the samples, this calculator is missing it"
  | _ => True
  end.

(** The atom that gradient sample [r] of a positions gradient writes to
    (lines 252-256), and the structure that gradient sample [r] of a cell
    gradient writes to (lines 331-333). *)
Definition positions_target {R} (offsets : list Z) (jacobian : TensorBlock R) (r : Z)
  : Z :=
  let table := label_values (samples jacobian) in
  entry offsets (entry table (r * 3 + 1)) + entry table (r * 3 + 2).

Definition cell_target {R} (structure_dimension : Z) (block_samples : Labels)
    (jacobian : TensorBlock R) (r : Z) : Z :=
  resolve (structure_table block_samples structure_dimension)
          (entry (label_values (samples jacobian)) r).

(** ** The small calculator on two structures

    Two structures, of two atoms and of one atom, with a cell each; the
    calculator of [Example] describes the first structure only, so nothing
    refers to the third atom or to the second cell. *)

Module TwoStructures.
Definition systems : list TorchSystem := [mkSystem false 2; mkSystem false 1].

Definition all_positions : Tensor Z :=
  Example.dense [3; 3] [0; 0; 0; 1; 1; 1; 2; 2; 2] true.

Definition all_cells : Tensor Z :=
  Example.dense [2; 3; 3] [5; 0; 0; 0; 5; 0; 0; 0; 5; 7; 0; 0; 0; 7; 0; 0; 0; 7] true.

Definition context : AutogradContext Z :=
  context (Example.output_of
             (forward new_context all_positions all_cells Example.calculator systems
                      []).2).

(** An adjoint that is not on the CPU, and a context that already holds an
    entry under "samples". *)
Definition elsewhere : Tensor Z := mkTensor [2; 2] [2; 1] [1; 10; 100; 1000] false false.

Definition used_context : AutogradContext Z :=
  mkContext [] (<["samples" := IIntList [7]]> ∅).
End TwoStructures.

(** ** Golden values

    One structure of two atoms and one block of two samples, each with two
    components and two properties: four values for a sample.  The entries
    of the Jacobians count up from 1 and the adjoint holds powers of ten,
    so that a dot product shows the entries it is made of. *)

Module Golden.
Definition systems : list TorchSystem := [mkSystem false 2].

Definition all_positions (requires_grad : bool) : Tensor Z :=
  Example.dense [2; 3] [0; 0; 0; 1; 1; 1] requires_grad.

(** The same positions as the transpose of a 3 x 2 tensor: the element
    [atom][direction] is at [atom + 2 * direction] in the storage. *)
Definition transposed_positions : Tensor Z :=
  mkTensor [2; 3] [1; 2] [0; 1; 0; 1; 0; 1] true true.

Definition all_cells (requires_grad : bool) : Tensor Z :=
  Example.dense [1; 3; 3] [5; 0; 0; 0; 5; 0; 0; 0; 5] requires_grad.

Definition block_samples : Labels := mkLabels ["structure"; "center"] 2 [0; 0; 0; 1].
Definition block_components : Labels := mkLabels ["m"] 2 [0; 1].
Definition block_properties : Labels := mkLabels ["n"] 2 [0; 1].

Definition positions_gradient : TensorBlock Z :=
  mkBlock (Example.dense [3; 3; 2; 2] (seqZ 1 36) false)
          (mkLabels ["sample"; "structure"; "atom"] 3 [0; 0; 0; 0; 0; 1; 1; 0; 1])
          [Example.directions; block_components] block_properties [].

Definition cell_gradient : TensorBlock Z :=
  mkBlock (Example.dense [2; 3; 3; 2; 2] (seqZ 1 72) false)
          (mkLabels ["sample"] 2 [0; 1])
          [Example.directions; Example.directions; block_components]
          block_properties [].

Definition gradient_named (parameter : string) : TensorBlock Z :=
  if decide (parameter = "positions") then positions_gradient else cell_gradient.

Definition block (options : CalculationOptions) : TensorBlock Z :=
  mkBlock (Example.dense [2; 2; 2] [1; 2; 3; 4; 5; 6; 7; 8] false) block_samples
          [block_components] block_properties
          ((fun parameter => (parameter, gradient_named parameter))
             <$> gradients options).

Definition calculator : Calculator Z :=
  fun _ options => Ok (mkTensorMap (mkLabels ["key"] 1 [0]) [block options]).

Definition adjoint : Tensor Z :=
  Example.dense [2; 2; 2] [1; 10; 100; 1000; 10000; 100000; 1000000; 10000000] false.

Definition run (positions cells : Tensor Z) :=
  forward new_context positions cells calculator systems [].

Definition context_of (positions cells : Tensor Z) : AutogradContext Z :=
  context (Example.output_of (run positions cells).2).

(** What the positions gradient and the cell gradient have to be, entry by
    entry in row-major order. *)
Definition positions_golden : list Z :=
  [4321; 8765; 13209; 309867653; 354312097; 398756541].

Definition cell_golden : list Z :=
  [443174321; 576507653; 709840985;
   487618765; 620952097; 754285429;
   532063209; 665396541; 798729873].
End Golden.

(** * Properties *)

(** ** Basic facts about the helpers *)

Lemma bind_ok {A B} (m : result A) (f : A -> result B) (b : B) :
  m ≫= f = Ok b <-> exists a, m = Ok a /\ f a = Ok b.
Proof.
  destruct m as [a|e]; simpl.
  - split; [intros H; by exists a | intros (a' & [= <-] & H); done].
  - split; [discriminate | intros (a' & [=] & _)].
Qed.

Lemma always_assert_ok c a : always_assert c a = Ok tt <-> c = true.
Proof. destruct c; simpl; split; congruence. Qed.

Lemma for_each_app {I S} (r1 r2 : list I) (body : I -> S -> result S) (s : S) :
  for_each (r1 ++ r2) body s = for_each r1 body s ≫= for_each r2 body.
Proof.
  revert s. induction r1 as [|i r1 IH]; intros s; simpl; [done|].
  destruct (body i s) as [s'|e]; simpl; [apply IH | done].
Qed.

Lemma read_ok {A} (buffer : list A) (i : Z) (x : A) :
  read buffer i = Ok x <-> 0 <= i /\ buffer !! Z.to_nat i = Some x.
Proof.
  unfold read. destruct (decide (0 <= i)) as [Hi|Hi].
  - destruct (buffer !! Z.to_nat i) as [y|]; split;
      [intros [= ->]; done | intros [_ [= ->]]; done
      | discriminate | intros [_ [=]]].
  - split; [discriminate | intros [? _]; lia].
Qed.

Lemma read_nat {A} (buffer : list A) (i : nat) :
  read buffer (Z.of_nat i) =
  match buffer !! i with Some x => Ok x | None => Err UndefinedBehavior end.
Proof.
  unfold read. rewrite decide_True by lia. by rewrite Nat2Z.id.
Qed.

Lemma find_le haystack needle : (find haystack needle <= length haystack)%nat.
Proof.
  induction haystack as [|x l IH]; simpl; [lia|].
  destruct (decide (x = needle)); lia.
Qed.

Lemma find_end haystack needle :
  find haystack needle = length haystack <-> needle ∉ haystack.
Proof.
  induction haystack as [|x l IH]; simpl.
  - split; [intros _ H; inversion H | done].
  - destruct (decide (x = needle)) as [->|Hne].
    + split; [discriminate | intros H; exfalso; apply H; left].
    + split.
      * intros [= H]. apply IH in H. intros Hin. inversion Hin; subst; done.
      * intros H. f_equal. apply IH. intros Hin. apply H. by right.
Qed.

Lemma find_lookup haystack needle :
  needle ∈ haystack -> haystack !! find haystack needle = Some needle.
Proof.
  induction haystack as [|x l IH]; simpl; intros Hin; [inversion Hin|].
  destruct (decide (x = needle)) as [->|Hne]; simpl; [done|].
  apply IH. inversion Hin; subst; done.
Qed.

Lemma contains_spec haystack needle :
  contains haystack needle = true <-> needle ∈ haystack.
Proof.
  unfold contains. rewrite negb_true_iff, Nat.eqb_neq, find_end.
  destruct (decide (needle ∈ haystack)); tauto.
Qed.

Lemma contains_false haystack needle :
  contains haystack needle = false <-> needle ∉ haystack.
Proof.
  rewrite <- contains_spec.
  destruct (contains haystack needle); split; congruence.
Qed.

(** ** The native-system flag (lines 18-28) *)

Lemma native_loop_spec (native : bool) (systems : list TorchSystem) :
  (for_each systems (fun system (_ : unit) =>
     if negb (eqb (use_native_system system) native) then Err native_mismatch
     else Ok tt) tt = Ok tt
   /\ forall s, s ∈ systems -> use_native_system s = native)
  \/ (for_each systems (fun system (_ : unit) =>
        if negb (eqb (use_native_system system) native) then Err native_mismatch
        else Ok tt) tt = Err native_mismatch
      /\ exists s, s ∈ systems /\ use_native_system s <> native).
Proof.
  induction systems as [|s l IH]; simpl.
  - left. split; [done | intros s H; inversion H].
  - destruct (eqb (use_native_system s) native) eqn:E; simpl.
    + apply eqb_prop in E. destruct IH as [[H1 H2]|[H1 (s' & H2 & H3)]].
      * left. split; [done|]. intros s' Hs'. inversion Hs'; subst; auto.
      * right. split; [done|]. exists s'. split; [by right | done].
    + right. split; [done|]. exists s. split; [left|].
      intros H. rewrite H in E. by destruct native.
Qed.

(** C10. [all_systems_use_native] reads [systems[0]] before it iterates.  On
    a non-empty sequence it either returns the flag that every system shares
    or throws the invalid-argument error about pre-defined neighbor lists
    (some system then differs from the first); on the empty sequence the
    read of element 0 is outside the vector, and [forward], which calls it
    once the requested names are checked, inherits that outcome without
    having reached the calculator. *)
Theorem all_systems_use_native_first_read :
  (forall first systems,
     (all_systems_use_native (first :: systems) = Ok (use_native_system first)
      /\ forall s, s ∈ first :: systems -> use_native_system s = use_native_system first)
     \/ (all_systems_use_native (first :: systems) = Err native_mismatch
         /\ exists s, s ∈ first :: systems
                      /\ use_native_system s <> use_native_system first))
  /\ all_systems_use_native [] = Err UndefinedBehavior
  /\ (forall R (ctx : AutogradContext R) all_positions all_cells calculator forward_gradients,
        check_forward_gradients forward_gradients = Ok tt ->
        forward ctx all_positions all_cells calculator [] forward_gradients
        = ([], Err UndefinedBehavior)).
Proof.
  split; [|split].
  - intros first systems. unfold all_systems_use_native.
    change (read (first :: systems) 0) with (Ok first).
    cbn [mbind result_bind].
    pose proof (native_loop_spec (use_native_system first) (first :: systems)) as H.
    unfold native_mismatch in *.
    destruct H as [[H1 H2]|[H1 H2]]; rewrite H1.
    + by left.
    + by right.
  - reflexivity.
  - intros R ctx all_positions all_cells calculator forward_gradients H.
    unfold forward. by rewrite H.
Qed.

(** ** Forward: the requested names (lines 69-73) *)

Lemma check_forward_gradients_ok forward_gradients :
  check_forward_gradients forward_gradients = Ok tt <->
  forall p, p ∈ forward_gradients -> recognized p.
Proof.
  unfold check_forward_gradients, recognized.
  induction forward_gradients as [|x l IH]; simpl.
  - split; [intros _ p H; inversion H | done].
  - destruct (decide (x = "positions")) as [->|H1]; simpl.
    { rewrite IH. split.
      - intros H p Hp. inversion Hp; subst; auto.
      - intros H p Hp. apply H. by right. }
    destruct (decide (x = "cell")) as [->|H2]; simpl.
    { rewrite IH. split.
      - intros H p Hp. inversion Hp; subst; auto.
      - intros H p Hp. apply H. by right. }
    rewrite !bool_decide_eq_true_2 by done. simpl.
    split; [discriminate|]. intros H.
    destruct (H x) as [?|?]; [left | done | done].
Qed.

Lemma check_forward_gradients_err forward_gradients :
  (exists p, p ∈ forward_gradients /\ ~ recognized p) ->
  exists p, p ∈ forward_gradients /\ ~ recognized p /\
    check_forward_gradients forward_gradients
    = Err (ValueError ("invalid parameter in forward gradients: " +:+ p)).
Proof.
  unfold check_forward_gradients, recognized.
  induction forward_gradients as [|x l IH]; intros (p & Hp & Hbad).
  - inversion Hp.
  - simpl. destruct (decide (x = "positions" \/ x = "cell")) as [Hx|Hx].
    + destruct IH as (q & Hq & Hqbad & Herr).
      { exists p. split; [|done]. inversion Hp; subst; [done | done]. }
      exists q. split; [by right|]. split; [done|].
      destruct Hx as [->| ->]; simpl; exact Herr.
    + exists x. split; [left|]. split; [done|].
      rewrite !bool_decide_eq_true_2 by (intros ->; apply Hx; auto). done.
Qed.

(** C3. A requested forward gradient other than "positions" and "cell" makes
    [forward] throw the invalid-argument error that names the (first)
    offending value, and no invocation of the calculator has taken place. *)
Theorem forward_rejects_unrecognized_gradient {R} (ctx : AutogradContext R)
    all_positions all_cells calculator systems forward_gradients :
  (exists p, p ∈ forward_gradients /\ p <> "positions" /\ p <> "cell") ->
  exists p, p ∈ forward_gradients /\ p <> "positions" /\ p <> "cell" /\
    forward ctx all_positions all_cells calculator systems forward_gradients
    = ([], Err (ValueError ("invalid parameter in forward gradients: " +:+ p))).
Proof.
  intros (p & Hp & H1 & H2).
  destruct (check_forward_gradients_err forward_gradients) as (q & Hq & Hbad & Herr).
  { exists p. split; [done|]. unfold recognized. tauto. }
  exists q. unfold recognized in Hbad.
  split; [done|]. split; [tauto|]. split; [tauto|].
  unfold forward. by rewrite Herr.
Qed.

(** ** Forward: the gradients to compute (lines 75-81) *)

Lemma elem_of_computed_gradients {R} (all_positions all_cells : Tensor R)
    forward_gradients p :
  p ∈ computed_gradients all_positions all_cells forward_gradients <->
  (p = "positions" /\ ("positions" ∈ forward_gradients \/ requires_grad all_positions = true))
  \/ (p = "cell" /\ ("cell" ∈ forward_gradients \/ requires_grad all_cells = true)).
Proof.
  unfold computed_gradients. rewrite elem_of_app.
  rewrite <- (contains_spec forward_gradients "positions").
  rewrite <- (contains_spec forward_gradients "cell").
  destruct (contains forward_gradients "positions"), (requires_grad all_positions),
    (contains forward_gradients "cell"), (requires_grad all_cells); simpl;
    rewrite ?list_elem_of_singleton, ?elem_of_nil;
    intuition (auto; try congruence).
Qed.

Lemma forward_calls {R} (ctx : AutogradContext R) all_positions all_cells calculator
    systems forward_gradients :
  (forward ctx all_positions all_cells calculator systems forward_gradients).1 = []
  \/ exists native,
       check_forward_gradients forward_gradients = Ok tt
       /\ all_systems_use_native systems = Ok native
       /\ (forward ctx all_positions all_cells calculator systems forward_gradients).1
          = [(systems,
              mkOptions (computed_gradients all_positions all_cells forward_gradients)
                        native)].
Proof.
  unfold forward.
  destruct (check_forward_gradients forward_gradients) as [[]|e]; [|by left].
  destruct (all_systems_use_native systems) as [native|e]; [|by left].
  right. by exists native.
Qed.

(** C4. Whenever [forward] invokes the calculator, it does so once, on the
    systems it was given, and the derivative channels in the options are
    exactly the union of the requested forward gradients and the channels
    whose input tensor requires gradients: "positions" is computed iff it is
    requested or the positions require gradients, and likewise for "cell". *)
Theorem computed_gradients_are_requested_or_required {R} (ctx : AutogradContext R)
    all_positions all_cells calculator systems forward_gradients call :
  call ∈ (forward ctx all_positions all_cells calculator systems forward_gradients).1 ->
  (forward ctx all_positions all_cells calculator systems forward_gradients).1 = [call]
  /\ call.1 = systems
  /\ (forall p, p ∈ gradients call.2 <->
        p ∈ forward_gradients
        \/ (p = "positions" /\ requires_grad all_positions = true)
        \/ (p = "cell" /\ requires_grad all_cells = true))
  /\ ("positions" ∈ gradients call.2 <->
        "positions" ∈ forward_gradients \/ requires_grad all_positions = true)
  /\ ("cell" ∈ gradients call.2 <->
        "cell" ∈ forward_gradients \/ requires_grad all_cells = true).
Proof.
  intros Hcall.
  destruct (forward_calls ctx all_positions all_cells calculator systems forward_gradients)
    as [Hnil|(native & Hcheck & Hnative & Hcalls)].
  { rewrite Hnil in Hcall. inversion Hcall. }
  rewrite Hcalls in Hcall |- *. apply list_elem_of_singleton in Hcall. subst call.
  simpl. split; [done|]. split; [done|].
  rewrite check_forward_gradients_ok in Hcheck. unfold recognized in Hcheck.
  split; [|split].
  - intros p. rewrite elem_of_computed_gradients. split.
    + intros [[-> [H|H]]|[-> [H|H]]]; auto.
    + intros [H|[[-> H]|[-> H]]]; [|by auto..].
      destruct (Hcheck p H) as [-> | ->]; auto.
  - rewrite elem_of_computed_gradients.
    split; [intros [[_ H]|[[=] _]]; exact H | intros H; left; by split].
  - rewrite elem_of_computed_gradients.
    split; [intros [[[=] _]|[_ H]]; exact H | intros H; right; by split].
Qed.

(** ** Forward: loops over the blocks of the descriptor *)

Lemma block_by_id_ok {R} (tensor : TensorMap R) (i : Z) (b : TensorBlock R) :
  block_by_id tensor i = Ok b <-> 0 <= i /\ blocks tensor !! Z.to_nat i = Some b.
Proof.
  unfold block_by_id. destruct (decide (0 <= i)) as [Hi|Hi].
  - destruct (blocks tensor !! Z.to_nat i) as [y|].
    + split; [intros [= ->]; done | intros [_ [= ->]]; done].
    + split; [discriminate | intros [_ [=]]].
  - split; [discriminate | intros [? _]; lia].
Qed.

Lemma collect_blocks_nat {R B} (tensor : TensorMap R) (f : TensorBlock R -> result B)
    (body : Z -> list B -> result (list B)) :
  (forall i acc, body i acc = b ← block_by_id tensor i; y ← f b; Ok (acc ++ [y])) ->
  forall (m : nat) acc res,
    for_each (seqZ 0 (Z.of_nat m)) body acc = Ok res ->
    exists ys, res = acc ++ ys
               /\ Forall2 (fun b y => f b = Ok y) (take m (blocks tensor)) ys
               /\ (m <= length (blocks tensor))%nat.
Proof.
  intros Hbody. induction m as [|m IH]; intros acc res Hrun.
  - simpl in Hrun. injection Hrun as <-. exists []. rewrite app_nil_r, take_0.
    split; [done|]. split; [constructor | lia].
  - rewrite seqZ_S, for_each_app in Hrun. apply bind_ok in Hrun as (mid & Hmid & Hlast).
    destruct (IH _ _ Hmid) as (ys & -> & Hys & Hlen).
    simpl in Hlast. rewrite Hbody in Hlast.
    destruct (block_by_id tensor (0 + Z.of_nat m)) as [b|e] eqn:Hb; [|discriminate].
    apply block_by_id_ok in Hb as [_ Hb]. rewrite Z.add_0_l, Nat2Z.id in Hb.
    simpl in Hlast. destruct (f b) as [y|e] eqn:Hy; [|discriminate].
    simpl in Hlast. injection Hlast as <-.
    exists (ys ++ [y]). rewrite app_assoc. split; [done|].
    split.
    + rewrite (take_S_r _ _ b) by done. apply Forall2_app; [done|]. by constructor.
    + apply lookup_lt_Some in Hb. lia.
Qed.

Lemma collect_blocks {R B} (tensor : TensorMap R) (f : TensorBlock R -> result B)
    (body : Z -> list B -> result (list B)) (res : list B) :
  (forall i acc, body i acc = b ← block_by_id tensor i; y ← f b; Ok (acc ++ [y])) ->
  for_each (seqZ 0 (count (keys tensor))) body [] = Ok res ->
  Forall2 (fun b y => f b = Ok y) (keyed_blocks tensor) res.
Proof.
  intros Hbody Hrun. unfold keyed_blocks.
  destruct (decide (0 <= count (keys tensor))) as [Hn|Hn].
  - rewrite <- (Z2Nat.id (count (keys tensor))) in Hrun by done.
    destruct (collect_blocks_nat tensor f body Hbody _ _ _ Hrun) as (ys & -> & H & _).
    done.
  - rewrite seqZ_nil in Hrun by lia. injection Hrun as <-.
    replace (Z.to_nat (count (keys tensor))) with 0%nat by lia.
    rewrite take_0. constructor.
Qed.

Lemma extract_gradient_blocks_ok {R} (tensor : TensorMap R) parameter gradients :
  extract_gradient_blocks tensor parameter = Ok gradients ->
  Forall2 (fun b g => exists gb, gradient b parameter = Ok gb /\ g = standalone gb)
          (keyed_blocks tensor) gradients.
Proof.
  intros H. unfold extract_gradient_blocks in H.
  eapply (collect_blocks tensor (fun b => gb ← gradient b parameter; Ok (standalone gb)))
    in H.
  - eapply Forall2_impl; [exact H|]. intros b g Hg; simpl in Hg.
    destruct (gradient b parameter) as [gb|e]; [|discriminate].
    injection Hg as <-. by exists gb.
  - intros i acc. destruct (block_by_id tensor i) as [b|e]; simpl; [|done].
    destruct (gradient b parameter) as [gb|e]; done.
Qed.

Lemma all_samples_of_ok {R} (descriptor : TensorMap R) all_samples :
  all_samples_of descriptor = Ok all_samples ->
  all_samples = samples <$> keyed_blocks descriptor.
Proof.
  intros H. unfold all_samples_of in H.
  eapply (collect_blocks descriptor (fun b => Ok (samples b))) in H.
  - induction H as [|b y l l' [= <-] _ IH]; [done|]. simpl. by f_equal.
  - intros i acc. destruct (block_by_id descriptor i) as [b|e]; done.
Qed.

Lemma values_by_block_of_ok {R} (descriptor : TensorMap R) values_by_block :
  values_by_block_of descriptor = Ok values_by_block ->
  values_by_block = values <$> keyed_blocks descriptor.
Proof.
  intros H. unfold values_by_block_of in H.
  eapply (collect_blocks descriptor (fun b => Ok (values b))) in H.
  - induction H as [|b y l l' [= <-] _ IH]; [done|]. simpl. by f_equal.
  - intros i acc. destruct (block_by_id descriptor i) as [b|e]; done.
Qed.

(** ** Forward: what a successful call has done *)

Lemma forward_ok {R} (ctx : AutogradContext R) all_positions all_cells calculator
    systems forward_gradients calls out :
  forward ctx all_positions all_cells calculator systems forward_gradients
  = (calls, Ok out) ->
  exists native descriptor,
    let computed := computed_gradients all_positions all_cells forward_gradients in
    check_forward_gradients forward_gradients = Ok tt
    /\ all_systems_use_native systems = Ok native
    /\ calls = [(systems, mkOptions computed native)]
    /\ calculator systems (mkOptions computed native) = Ok descriptor
    /\ values_by_block_of descriptor = Ok (values_by_block out)
    /\ save_context ctx all_positions all_cells (structures_start_of systems) descriptor
       = Ok (context out)
    /\ returned_tensor_map descriptor forward_gradients
         (all_forward_gradients forward_gradients computed) = Ok (tensor_map out).
Proof.
  unfold forward. intros H.
  destruct (check_forward_gradients forward_gradients) as [[]|e]; [|discriminate].
  destruct (all_systems_use_native systems) as [native|e]; [|discriminate].
  injection H as <- H.
  destruct (calculator systems _) as [descriptor|e] eqn:Hcalc; [|discriminate].
  simpl in H. unfold after_compute in H.
  destruct (values_by_block_of descriptor) as [vs|e] eqn:Hvs; [|discriminate].
  simpl in H.
  destruct (save_context _ _ _ _ _) as [ctx'|e] eqn:Hctx; [|discriminate].
  simpl in H.
  destruct (returned_tensor_map _ _ _) as [tm|e] eqn:Htm; [|discriminate].
  simpl in H. injection H as <-. exists native, descriptor. simpl. done.
Qed.

(** ** Forward: the saved context (lines 113-147) *)

Lemma to_int64_add_l (a b : Z) : to_int64 (to_int64 a + b) = to_int64 (a + b).
Proof.
  unfold to_int64. f_equal.
  replace ((a + 2 ^ 63) mod 2 ^ 64 - 2 ^ 63 + b + 2 ^ 63)
    with ((a + 2 ^ 63) mod 2 ^ 64 + b) by lia.
  rewrite Zplus_mod_idemp_l. f_equal. lia.
Qed.

Lemma to_int64_small (z : Z) : - 2 ^ 63 <= z < 2 ^ 63 -> to_int64 z = z.
Proof. intros Hz. unfold to_int64. rewrite Z.mod_small; lia. Qed.

Lemma structures_start_loop (systems : list TorchSystem) (starts : list Z) (current : Z) :
  fst (fold_left (fun '(structures_start, current_start) system =>
         (structures_start ++ [current_start],
          to_int64 (current_start + system_size system)))
       systems (starts, to_int64 current))
  = starts ++ ((fun i => to_int64 (current
                                   + foldr Z.add 0 (system_size <$> take i systems)))
                 <$> seq 0 (length systems)).
Proof.
  revert starts current. induction systems as [|s l IH]; intros starts current; simpl.
  - by rewrite app_nil_r.
  - rewrite to_int64_add_l, IH. rewrite <- app_assoc. simpl. f_equal.
    f_equal; [f_equal; lia|].
    rewrite <- fmap_S_seq, <- list_fmap_compose. apply list_fmap_ext.
    intros i x _. unfold compose. cbn [take fmap list_fmap foldr]. f_equal. lia.
Qed.

Lemma structures_start_of_offsets (systems : list TorchSystem) :
  structures_start_of systems = int64_offsets systems.
Proof.
  unfold structures_start_of, int64_offsets, structure_offsets.
  change 0 with (to_int64 0) at 1.
  rewrite structures_start_loop, <- list_fmap_compose. simpl. done.
Qed.

Lemma holds_tensor_map_blocks {R} (l : list (TensorBlock R)) :
  holds_tensor_map (IList (IBlock <$> l)) = false.
Proof. simpl. induction l as [|b l IH]; simpl; done. Qed.

Lemma holds_tensor_map_labels {R} (l : list Labels) :
  holds_tensor_map (IList (@ILabels R <$> l)) = false.
Proof. simpl. induction l as [|b l IH]; simpl; done. Qed.

Lemma save_context_ok {R} (all_positions all_cells : Tensor R) structures_start
    descriptor ctx :
  save_context new_context all_positions all_cells structures_start descriptor = Ok ctx ->
  exists positions_gradients cell_gradients,
    saved_variables ctx = [all_positions; all_cells]
    /\ saved_data ctx
       = saved_after_forward all_positions all_cells structures_start
           positions_gradients cell_gradients (samples <$> keyed_blocks descriptor)
    /\ (requires_grad all_positions = true ->
        copies_of "positions" (keyed_blocks descriptor) positions_gradients)
    /\ (requires_grad all_cells = true ->
        copies_of "cell" (keyed_blocks descriptor) cell_gradients).
Proof.
  unfold save_context, saved_after_forward, copies_of. intros H.
  destruct (requires_grad all_positions) eqn:Hp.
  - destruct (extract_gradient_blocks descriptor "positions") as [pgs|e] eqn:Hpgs;
      [|discriminate].
    apply extract_gradient_blocks_ok in Hpgs. simpl in H.
    destruct (requires_grad all_cells) eqn:Hc.
    + destruct (extract_gradient_blocks descriptor "cell") as [cgs|e] eqn:Hcgs;
        [|discriminate].
      apply extract_gradient_blocks_ok in Hcgs. simpl in H.
      destruct (all_samples_of descriptor) as [ss|e] eqn:Hss; [|discriminate].
      apply all_samples_of_ok in Hss. subst ss. simpl in H. injection H as <-.
      exists pgs, cgs. done.
    + injection H as <-. exists pgs, []. done.
  - simpl in H. destruct (requires_grad all_cells) eqn:Hc.
    + destruct (extract_gradient_blocks descriptor "cell") as [cgs|e] eqn:Hcgs;
        [|discriminate].
      apply extract_gradient_blocks_ok in Hcgs. simpl in H.
      destruct (all_samples_of descriptor) as [ss|e] eqn:Hss; [|discriminate].
      apply all_samples_of_ok in Hss. subst ss. simpl in H. injection H as <-.
      exists [], cgs. done.
    + injection H as <-. exists [], []. done.
Qed.

Lemma saved_after_forward_lookup {R} (all_positions all_cells : Tensor R) starts
    positions_gradients cell_gradients all_samples :
  let m := saved_after_forward all_positions all_cells starts positions_gradients
             cell_gradients all_samples in
  m !! "structures_start" = Some (IIntList starts)
  /\ m !! "positions_gradients"
     = (if requires_grad all_positions
        then Some (IList (IBlock <$> positions_gradients)) else None)
  /\ m !! "cell_gradients"
     = (if requires_grad all_cells then Some (IList (IBlock <$> cell_gradients)) else None)
  /\ m !! "samples"
     = (if requires_grad all_cells then Some (IList (ILabels <$> all_samples)) else None)
  /\ forall key v, m !! key = Some v -> holds_tensor_map v = false.
Proof.
  unfold saved_after_forward.
  destruct (requires_grad all_positions), (requires_grad all_cells); simpl;
    (split; [done|]); (split; [done|]); (split; [done|]); (split; [done|]);
    intros key v Hv;
    repeat (apply lookup_insert_Some in Hv as [[_ <-]|[_ Hv]];
            [first [apply holds_tensor_map_blocks | apply holds_tensor_map_labels | done]|]);
    by rewrite lookup_empty in Hv.
Qed.

(** C6, as the code has it.  After a successful [forward] on the context of a
    new node, the context holds the two input tensors and the structure
    offsets; it holds the standalone copies of every block's "positions"
    gradient exactly when the positions tensor requires gradients, and the
    standalone copies of the "cell" gradients together with every block's
    samples exactly when the cell tensor requires gradients; and nothing it
    holds is, or contains, a tensor map. *)
Theorem forward_saves_for_required_inputs {R} (all_positions all_cells : Tensor R)
    calculator systems forward_gradients calls out :
  forward new_context all_positions all_cells calculator systems forward_gradients
  = (calls, Ok out) ->
  exists options descriptor,
    calls = [(systems, options)]
    /\ calculator systems options = Ok descriptor
    /\ saved_variables (context out) = [all_positions; all_cells]
    /\ saved_data (context out) !! "structures_start"
       = Some (IIntList (int64_offsets systems))
    /\ (if requires_grad all_positions
        then exists copies,
               copies_of "positions" (keyed_blocks descriptor) copies
               /\ saved_data (context out) !! "positions_gradients"
                  = Some (IList (IBlock <$> copies))
        else saved_data (context out) !! "positions_gradients" = None)
    /\ (if requires_grad all_cells
        then exists copies,
               copies_of "cell" (keyed_blocks descriptor) copies
               /\ saved_data (context out) !! "cell_gradients"
                  = Some (IList (IBlock <$> copies))
               /\ saved_data (context out) !! "samples"
                  = Some (IList (ILabels <$> (samples <$> keyed_blocks descriptor)))
        else saved_data (context out) !! "cell_gradients" = None
             /\ saved_data (context out) !! "samples" = None)
    /\ (forall key v, saved_data (context out) !! key = Some v ->
                      holds_tensor_map v = false).
Proof.
  intros H. apply forward_ok in H as (native & descriptor & H); simpl in H.
  destruct H as (_ & _ & -> & Hcalc & _ & Hctx & _).
  apply save_context_ok in Hctx as (pgs & cgs & Hvars & Hdata & Hpgs & Hcgs).
  eexists _, descriptor. split; [done|]. split; [done|]. split; [done|].
  rewrite Hdata, <- structures_start_of_offsets.
  destruct (saved_after_forward_lookup all_positions all_cells
              (structures_start_of systems) pgs cgs (samples <$> keyed_blocks descriptor))
    as (H1 & H2 & H3 & H4 & H5).
  split; [done|]. split; [|split; [|done]].
  - rewrite H2. destruct (requires_grad all_positions); [|done].
    exists pgs. split; [by apply Hpgs | done].
  - rewrite H3, H4. destruct (requires_grad all_cells); [|done].
    exists cgs. split; [by apply Hcgs | done].
Qed.

(** ** Forward: the returned tensor map (lines 84-89 and 150-175) *)

Lemma all_forward_gradients_spec forward_gradients computed :
  all_forward_gradients forward_gradients computed = true <->
  forall p, p ∈ computed -> p ∈ forward_gradients.
Proof.
  unfold all_forward_gradients.
  assert (forall all,
    fold_left (fun all parameter =>
      if negb (contains forward_gradients parameter) then false else all) computed all
    = true <-> all = true /\ forall p, p ∈ computed -> p ∈ forward_gradients) as H.
  { induction computed as [|x l IH]; intros all; simpl.
    - split; [intros ->; split; [done|]; intros p Hp; inversion Hp | tauto].
    - rewrite IH. destruct (contains forward_gradients x) eqn:Hx; simpl.
      + apply contains_spec in Hx. split.
        * intros [-> H]. split; [done|]. intros p Hp. inversion Hp; subst; auto.
        * intros [-> H]. split; [done|]. intros p Hp. apply H. by right.
      + apply contains_false in Hx. split; [intros [[=] _]|].
        intros [_ H]. exfalso. apply Hx, H. left. }
  rewrite H. tauto.
Qed.

Lemma find_gradient_app {R} (l1 l2 : list (string * TensorBlock R)) p :
  find_gradient (l1 ++ l2) p =
  match find_gradient l1 p with Ok g => Ok g | Err _ => find_gradient l2 p end.
Proof.
  induction l1 as [|[name g] l1 IH]; simpl; [done|].
  destruct (decide (name = p)); done.
Qed.

Lemma add_gradients_ok {R} (block : TensorBlock R) forward_gradients :
  forall new_block res,
    for_each forward_gradients (fun parameter new_block =>
      gradient ← gradient block parameter;
      Ok (add_gradient new_block parameter gradient)) new_block = Ok res ->
    values res = values new_block
    /\ samples res = samples new_block
    /\ components res = components new_block
    /\ properties res = properties new_block
    /\ exists added,
         block_gradients res = block_gradients new_block ++ added
         /\ fst <$> added = forward_gradients
         /\ (forall p, p ∈ forward_gradients -> find_gradient added p = gradient block p)
         /\ (forall p, p ∉ forward_gradients -> find_gradient added p = Err LibraryError).
Proof.
  induction forward_gradients as [|x l IH]; intros new_block res Hrun; simpl in Hrun.
  - injection Hrun as <-. repeat (split; [done|]). exists [].
    rewrite app_nil_r. repeat (split; [done|]). split; [|done].
    intros p Hp. inversion Hp.
  - destruct (gradient block x) as [g|e] eqn:Hg; [|discriminate]. simpl in Hrun.
    apply IH in Hrun as (H1 & H2 & H3 & H4 & added & H5 & H6 & H7 & H8).
    simpl in *. repeat (split; [done|]).
    exists ((x, g) :: added). rewrite H5, <- app_assoc. split; [done|].
    split; [by rewrite fmap_cons, H6|]. split.
    + intros p Hp. simpl. destruct (decide (x = p)) as [->|Hne]; [done|].
      apply H7. inversion Hp; subst; done.
    + intros p Hp. simpl. destruct (decide (x = p)) as [->|Hne].
      * exfalso. apply Hp. left.
      * apply H8. intros Hin. apply Hp. by right.
Qed.

Lemma new_block_of_ok {R} (block new_block : TensorBlock R) forward_gradients :
  new_block_of block forward_gradients = Ok new_block ->
  filtered_block forward_gradients block new_block.
Proof.
  unfold new_block_of, filtered_block. intros H.
  apply add_gradients_ok in H as (H1 & H2 & H3 & H4 & added & H5 & H6 & H7 & H8).
  simpl in *. repeat (split; [done|]). unfold gradient at 1 3. rewrite H5. done.
Qed.

Lemma returned_tensor_map_ok {R} (descriptor tensor_map : TensorMap R)
    forward_gradients all :
  returned_tensor_map descriptor forward_gradients all = Ok tensor_map ->
  if all then tensor_map = descriptor
  else keys tensor_map = keys descriptor
       /\ Forall2 (filtered_block forward_gradients)
                  (keyed_blocks descriptor) (blocks tensor_map).
Proof.
  unfold returned_tensor_map. destruct all; [by intros [= <-]|]. intros H.
  apply bind_ok in H as (new_blocks & Hloop & [= <-]). simpl. split; [done|].
  eapply (collect_blocks descriptor (fun b => new_block_of b forward_gradients))
    in Hloop.
  - eapply Forall2_impl; [exact Hloop|]. intros b nb. apply new_block_of_ok.
  - intros i acc. destruct (block_by_id descriptor i) as [b|e]; done.
Qed.

(** C5. The tensor map that a successful [forward] writes through
    [tensor_map] is the calculator's output itself when every computed
    channel was requested in [forward_gradients]; otherwise it has the keys
    of the calculator's output and, block by block, a new block with the
    values, samples, components and properties of the original and exactly
    the gradients named in [forward_gradients]: a gradient that was computed
    without being requested cannot be found in it. *)
Theorem forward_returns_requested_gradients {R} (ctx : AutogradContext R)
    all_positions all_cells calculator systems forward_gradients calls out :
  forward ctx all_positions all_cells calculator systems forward_gradients
  = (calls, Ok out) ->
  exists options descriptor,
    calls = [(systems, options)]
    /\ calculator systems options = Ok descriptor
    /\ ((forall p, p ∈ gradients options -> p ∈ forward_gradients) ->
        tensor_map out = descriptor)
    /\ (~ (forall p, p ∈ gradients options -> p ∈ forward_gradients) ->
        keys (tensor_map out) = keys descriptor
        /\ Forall2 (filtered_block forward_gradients)
                   (keyed_blocks descriptor) (blocks (tensor_map out))
        /\ forall p new_block,
             p ∈ gradients options -> p ∉ forward_gradients ->
             new_block ∈ blocks (tensor_map out) ->
             gradient new_block p = Err LibraryError).
Proof.
  intros H. apply forward_ok in H as (native & descriptor & H); simpl in H.
  destruct H as (_ & _ & -> & Hcalc & _ & _ & Htm).
  eexists _, descriptor. split; [done|]. split; [done|]. simpl.
  apply returned_tensor_map_ok in Htm.
  destruct (all_forward_gradients _ _) eqn:Hall.
  - split; [done|]. intros Hnot. exfalso. apply Hnot.
    by apply all_forward_gradients_spec.
  - split.
    + intros Hyes. apply all_forward_gradients_spec in Hyes. congruence.
    + intros _. destruct Htm as [Hkeys Hblocks]. split; [done|]. split; [done|].
      intros p nb _ Hp Hnb.
      apply list_elem_of_lookup in Hnb as [i Hi].
      destruct (Forall2_lookup_r _ _ _ _ _ Hblocks Hi) as (b & _ & Hb).
      destruct Hb as (_ & _ & _ & _ & _ & _ & Hb). by apply Hb.
Qed.

(** ** Backward: the frame around the two paths *)

(** ** The layout of tensors *)

Lemma contiguous_from_app (l l' : list (Z * Z)) (z : Z) :
  contiguous_from (l ++ l') z
  = contiguous_from l z && contiguous_from l' (z * numel (fst <$> l)).
Proof.
  revert z. induction l as [|[size_d stride_d] l IH]; intros z.
  - cbn [app contiguous_from fmap list_fmap numel foldr andb]. f_equal. lia.
  - cbn [app contiguous_from fmap list_fmap fst]. 
    change (numel (size_d :: (fst <$> l))) with (size_d * numel (fst <$> l)).
    destruct (decide (size_d = 1)) as [->|_].
    + rewrite IH. do 2 f_equal. lia.
    + rewrite IH, <- andb_assoc. do 3 f_equal. ring.
Qed.

Lemma numel_app (l k : list Z) : numel (l ++ k) = numel l * numel k.
Proof.
  unfold numel. induction l as [|x l IH]; cbn [app foldr]; [lia|]. rewrite IH. ring.
Qed.

Lemma numel_reverse (l : list Z) : numel (reverse l) = numel l.
Proof.
  induction l as [|x l IH]; [done|].
  rewrite reverse_cons, numel_app, IH. unfold numel. cbn [foldr]. ring.
Qed.

Lemma length_contiguous_strides (sizes : list Z) :
  length (contiguous_strides sizes) = length sizes.
Proof. induction sizes as [|s l IH]; simpl; by f_equal. Qed.

Lemma contiguous_strides_are_contiguous (sizes : list Z) :
  contiguous_from (reverse (zip sizes (contiguous_strides sizes))) 1 = true.
Proof.
  induction sizes as [|s l IH]; [done|]. cbn [contiguous_strides zip zip_with].
  rewrite reverse_cons, contiguous_from_app, IH. cbn [contiguous_from andb].
  destruct (decide (s = 1)); [done|].
  rewrite andb_true_r. apply bool_decide_eq_true.
  rewrite fmap_reverse, numel_reverse, fst_zip; [lia|].
  by rewrite length_contiguous_strides.
Qed.

Lemma is_contiguous_contiguous {R} (t : Tensor R) : is_contiguous (contiguous t) = true.
Proof.
  unfold contiguous. destruct (is_contiguous t) eqn:H; [done|].
  unfold is_contiguous. cbn [sizes strides]. rewrite contiguous_strides_are_contiguous.
  apply orb_true_r.
Qed.

Lemma is_cpu_contiguous {R} (t : Tensor R) : is_cpu (contiguous t) = is_cpu t.
Proof. unfold contiguous. by destruct (is_contiguous t). Qed.

Lemma is_contiguous_zeros_like {R} (zero : R) (t : Tensor R) :
  is_contiguous (zeros_like zero t) = is_contiguous t.
Proof. reflexivity. Qed.

Lemma is_contiguous_with_data {R} (t : Tensor R) (buffer : list R) :
  is_contiguous (with_data t buffer) = is_contiguous t.
Proof. reflexivity. Qed.

(** The code computes the width of the dot products by a loop over the
    sizes of the adjoint; it is the number of elements of one sample. *)
Lemma dot_dimensions_of_numel (sizes : list Z) :
  dot_dimensions_of sizes = numel (drop 1 sizes).
Proof.
  unfold dot_dimensions_of, numel.
  assert (forall l a, fold_left (fun d s => d * s) l a = a * foldr Z.mul 1 l) as H.
  { induction l as [|x l IH]; intros a; cbn [fold_left foldr]; [lia|]. rewrite IH. ring. }
  rewrite H. lia.
Qed.

Lemma dot_dimensions_of_flattened {R} (t : Tensor R) :
  dot_dimensions_of (sizes t) = flattened_width t.
Proof. apply dot_dimensions_of_numel. Qed.

Section BackwardFrame.
Context (ndebug : bool) {R : Type} (zero : R) (add mul : R -> R -> R).

Lemma for_each_seqZ_split {S} (n k : Z) (body : Z -> S -> result S) (s : S) :
  0 <= k < n ->
  for_each (seqZ 0 n) body s =
  s1 ← for_each (seqZ 0 k) body s;
  s2 ← body k s1;
  for_each (seqZ (k + 1) (n - k - 1)) body s2.
Proof.
  intros Hk. replace n with (k + (n - k)) at 1 by lia.
  rewrite seqZ_app by lia. rewrite (seqZ_cons (0 + k)) by lia.
  rewrite for_each_app. simpl.
  replace (Z.succ (0 + k)) with (k + 1) by lia.
  replace (Z.pred (n - k)) with (n - k - 1) by lia.
  destruct (for_each (seqZ 0 k) body s) as [s1|e]; simpl; [|done].
  rewrite Z.add_0_l. destruct (body k s1); done.
Qed.

Lemma for_each_seqZ_fails {S} (n k : Z) (body : Z -> S -> result S) (s : S) :
  0 <= k < n -> (forall s1, ~ is_ok (body k s1)) ->
  ~ is_ok (for_each (seqZ 0 n) body s).
Proof.
  intros Hk Hbody [s' Hs']. rewrite (for_each_seqZ_split n k) in Hs' by done.
  apply bind_ok in Hs' as (s1 & _ & Hs'). apply bind_ok in Hs' as (s2 & Hs2 & _).
  apply (Hbody s1). by exists s2.
Qed.

Lemma backward_unfold (ctx : AutogradContext R) grad_outputs all_positions all_cells
    structures_start :
  saved_variables ctx !! 0%nat = Some all_positions ->
  saved_variables ctx !! 1%nat = Some all_cells ->
  saved ctx "structures_start" = IIntList structures_start ->
  backward ndebug zero add mul ctx grad_outputs =
  if decide (Z.of_nat (length grad_outputs) = 0) then Ok no_gradients
  else
    positions_grad ← positions_path ndebug zero add mul ctx all_positions structures_start
                       (contiguous <$> grad_outputs) (Z.of_nat (length grad_outputs));
    cell_grad ← cell_path zero add mul ctx all_cells (contiguous <$> grad_outputs)
                  (Z.of_nat (length grad_outputs));
    Ok [positions_grad; cell_grad; None; None; None; None].
Proof.
  intros H0 H1 Hs. unfold backward. cbv zeta.
  rewrite (proj2 (read_ok (saved_variables ctx) 0 all_positions))
    by (split; [lia | exact H0]).
  rewrite (proj2 (read_ok (saved_variables ctx) 1 all_cells))
    by (split; [lia | exact H1]).
  simpl. rewrite Hs. done.
Qed.

Lemma backward_ok_inv (ctx : AutogradContext R) grad_outputs res :
  backward ndebug zero add mul ctx grad_outputs = Ok res ->
  exists all_positions all_cells structures_start,
    saved_variables ctx !! 0%nat = Some all_positions
    /\ saved_variables ctx !! 1%nat = Some all_cells
    /\ saved ctx "structures_start" = IIntList structures_start.
Proof.
  unfold backward. cbv zeta. intros H.
  apply bind_ok in H as (all_positions & H0 & H).
  apply bind_ok in H as (all_cells & H1 & H).
  apply bind_ok in H as (structures_start & Hs & _).
  apply read_ok in H0 as [_ H0]. apply read_ok in H1 as [_ H1].
  exists all_positions, all_cells, structures_start.
  split; [done|]. split; [done|].
  destruct (saved ctx "structures_start"); try discriminate. by injection Hs as <-.
Qed.

(** C9. With no adjoint at all, [backward] returns no gradient for the
    positions and none for the cell, for every context that holds what
    [forward] saves, and so for the context of every successful [forward];
    and whatever [backward] returns is the positions gradient and the cell
    gradient, in that order, followed by four undefined tensors for the
    inputs that are not differentiable. *)
Theorem backward_no_adjoints_no_gradients :
  (forall (ctx : AutogradContext R) all_positions all_cells structures_start,
     saved_variables ctx !! 0%nat = Some all_positions ->
     saved_variables ctx !! 1%nat = Some all_cells ->
     saved ctx "structures_start" = IIntList structures_start ->
     backward ndebug zero add mul ctx [] = Ok [None; None; None; None; None; None])
  /\ (forall all_positions all_cells calculator systems forward_gradients calls out,
        forward new_context all_positions all_cells calculator systems forward_gradients
        = (calls, Ok out) ->
        backward ndebug zero add mul (context out) []
        = Ok [None; None; None; None; None; None])
  /\ (forall (ctx : AutogradContext R) grad_outputs res,
        backward ndebug zero add mul ctx grad_outputs = Ok res ->
        exists positions_grad cell_grad,
          res = [positions_grad; cell_grad; None; None; None; None]).
Proof.
  split; [|split].
  - intros ctx all_positions all_cells structures_start H0 H1 Hs.
    by rewrite (backward_unfold _ _ _ _ _ H0 H1 Hs).
  - intros all_positions all_cells calculator systems forward_gradients calls out H.
    apply forward_ok in H as (native & descriptor & H); simpl in H.
    destruct H as (_ & _ & _ & _ & _ & Hctx & _).
    apply save_context_ok in Hctx as (pgs & cgs & Hvars & Hdata & _).
    destruct (saved_after_forward_lookup all_positions all_cells
                (structures_start_of systems) pgs cgs
                (samples <$> keyed_blocks descriptor)) as (Hs & _).
    rewrite <- Hdata in Hs.
    rewrite (backward_unfold (context out) [] all_positions all_cells
               (structures_start_of systems)); [done | | |].
    + by rewrite Hvars.
    + by rewrite Hvars.
    + unfold saved. by rewrite Hs.
  - intros ctx grad_outputs res H.
    destruct (backward_ok_inv _ _ _ H) as (p & c & s & H0 & H1 & Hs).
    rewrite (backward_unfold _ _ _ _ _ H0 H1 Hs) in H.
    destruct (decide (Z.of_nat (length grad_outputs) = 0)).
    + injection H as <-. by exists None, None.
    + apply bind_ok in H as (pg & _ & H). apply bind_ok in H as (cg & _ & H).
      injection H as <-. by exists pg, cg.
Qed.
End BackwardFrame.

(** ** Backward: the checks on the saved sample names *)

Section BackwardChecks.
Context (ndebug : bool) {R : Type} (zero : R) (add mul : R -> R -> R).

Lemma read_fmap_lookup {A B} (f : A -> B) (l : list A) (k : nat) (x : A) :
  l !! k = Some x -> read (f <$> l) (Z.of_nat k) = Ok (f x).
Proof. intros H. by rewrite read_nat, list_lookup_fmap, H. Qed.

Lemma positions_block_bad_names structures_start (jacobian : TensorBlock R) :
  names (samples jacobian) <> ["sample"; "structure"; "atom"] ->
  exists a, a ∈ positions_names_checks /\
    forall grad_outputs block_i positions_grad,
      positions_block zero add mul structures_start jacobian grad_outputs block_i
                      positions_grad = Err (AssertFailed a).
Proof.
  intros Hbad. unfold positions_block, positions_names_checks. cbv zeta.
  destruct (decide (length (names (samples jacobian)) = 3%nat)) as [Hlen|Hlen].
  2: { exists positions_names_size. split; [by left|]. intros.
       by rewrite (bool_decide_eq_false_2 _ Hlen). }
  rewrite (bool_decide_eq_true_2 _ Hlen).
  destruct (decide (names (samples jacobian) !! 0%nat = Some "sample")) as [H0|H0].
  2: { exists positions_names_0. split; [right; left|]. intros.
       by rewrite (bool_decide_eq_false_2 _ H0). }
  rewrite (bool_decide_eq_true_2 _ H0).
  destruct (decide (names (samples jacobian) !! 1%nat = Some "structure")) as [H1|H1].
  2: { exists positions_names_1. split; [right; right; left|]. intros.
       by rewrite (bool_decide_eq_false_2 _ H1). }
  rewrite (bool_decide_eq_true_2 _ H1).
  destruct (decide (names (samples jacobian) !! 2%nat = Some "atom")) as [H2|H2].
  2: { exists positions_names_2. split; [right; right; right; left|]. intros.
       by rewrite (bool_decide_eq_false_2 _ H2). }
  exfalso. apply Hbad.
  destruct (names (samples jacobian)) as [|n0 [|n1 [|n2 [|n3 l]]]]; try discriminate.
  simpl in *. congruence.
Qed.

Lemma positions_path_unfold (ctx : AutogradContext R) all_positions structures_start
    grad_outputs positions_gradients n :
  requires_grad all_positions = true ->
  saved ctx "positions_gradients" = IList positions_gradients ->
  positions_path ndebug zero add mul ctx all_positions structures_start grad_outputs n =
  _ ← always_assert (bool_decide (Z.of_nat (length positions_gradients) = n))
        positions_gradients_size;
  _ ← plain_assert ndebug (is_contiguous all_positions && is_cpu all_positions)
        positions_grad_layout;
  buffer ← positions_blocks zero add mul structures_start positions_gradients
             grad_outputs n (host_data (zeros_like zero all_positions));
  Ok (Some (written (zeros_like zero all_positions) buffer)).
Proof. intros Hrg Hsaved. unfold positions_path. rewrite Hrg, Hsaved. done. Qed.

Lemma plain_assert_true (a : assertion) : plain_assert ndebug true a = Ok tt.
Proof. unfold plain_assert. by destruct ndebug. Qed.

Lemma host_data_zeros_like (t : Tensor R) :
  is_cpu t = true -> host_data (zeros_like zero t) = replicate (length (data t)) zero.
Proof. intros Hcpu. unfold host_data. simpl. by rewrite Hcpu. Qed.

Lemma written_zeros_like (t : Tensor R) (buffer : list R) :
  is_cpu t = true ->
  written (zeros_like zero t) buffer = with_data (zeros_like zero t) buffer.
Proof. intros Hcpu. unfold written. simpl. by rewrite Hcpu. Qed.

(** C8. When the saved positions gradient of some block does not have
    exactly the sample columns "sample", "structure", "atom", in that
    order, [backward] returns no gradients; and when the blocks before it
    went through, the call stops on one of the four checks of these names. *)
Theorem positions_sample_names_are_checked (ctx : AutogradContext R) grad_outputs
    all_positions all_cells structures_start jacobians (k : nat) jacobian :
  saved_variables ctx !! 0%nat = Some all_positions ->
  saved_variables ctx !! 1%nat = Some all_cells ->
  saved ctx "structures_start" = IIntList structures_start ->
  saved ctx "positions_gradients" = IList (IBlock <$> jacobians) ->
  requires_grad all_positions = true ->
  grad_outputs <> [] ->
  jacobians !! k = Some jacobian ->
  names (samples jacobian) <> ["sample"; "structure"; "atom"] ->
  (forall res, backward ndebug zero add mul ctx grad_outputs <> Ok res)
  /\ (length jacobians = length grad_outputs ->
      is_contiguous all_positions = true -> is_cpu all_positions = true ->
      forall partial,
        positions_blocks zero add mul structures_start (IBlock <$> jacobians)
          (contiguous <$> grad_outputs) (Z.of_nat k)
          (data (zeros_like zero all_positions)) = Ok partial ->
        exists a, a ∈ positions_names_checks
                  /\ backward ndebug zero add mul ctx grad_outputs = Err (AssertFailed a)).
Proof.
  intros H0 H1 Hs Hsaved Hrg Hne Hk Hbad.
  rewrite (backward_unfold ndebug zero add mul _ _ _ _ _ H0 H1 Hs).
  rewrite decide_False by (destruct grad_outputs; [done | simpl; lia]).
  rewrite (positions_path_unfold _ _ _ _ _ _ Hrg Hsaved).
  destruct (positions_block_bad_names structures_start jacobian Hbad) as (a & Ha & Hblock).
  rewrite length_fmap.
  assert (forall s1,
    (read (IBlock <$> jacobians) (Z.of_nat k) ≫= toTensorBlock) ≫=
      (fun gradient => positions_block zero add mul structures_start gradient
                         (contiguous <$> grad_outputs) (Z.of_nat k) s1)
    = Err (AssertFailed a)) as Hbody.
  { intros s1. rewrite (read_fmap_lookup _ _ _ _ Hk). simpl. apply Hblock. }
  split.
  - intros res Hres.
    apply bind_ok in Hres as (pg & Hpg & _).
    apply bind_ok in Hpg as ([] & Hsize & Hpg).
    apply always_assert_ok, bool_decide_eq_true in Hsize.
    apply bind_ok in Hpg as ([] & _ & Hpg).
    apply bind_ok in Hpg as (buffer & Hloop & _).
    unfold positions_blocks in Hloop.
    refine (for_each_seqZ_fails (Z.of_nat (length grad_outputs)) (Z.of_nat k)
              _ _ _ _ (ex_intro _ _ Hloop)).
    + apply lookup_lt_Some in Hk. lia.
    + intros s1 [s2 Hs2]. cbv beta in Hs2. rewrite Hbody in Hs2. discriminate.
  - intros Hlen Hc1 Hc2 partial Hpartial.
    exists a. split; [done|].
    rewrite Hlen, bool_decide_eq_true_2 by done.
    rewrite Hc1, Hc2, (host_data_zeros_like _ Hc2). simpl.
    rewrite plain_assert_true. cbn [mbind result_bind].
    unfold positions_blocks in *.
    rewrite (for_each_seqZ_split (Z.of_nat (length grad_outputs)) (Z.of_nat k)).
    2: { apply lookup_lt_Some in Hk. lia. }
    simpl in Hpartial. rewrite Hpartial. simpl. rewrite Hbody. done.
Qed.

Lemma cell_path_unfold (ctx : AutogradContext R) all_cells grad_outputs
    jacobians all_samples first n :
  requires_grad all_cells = true ->
  saved ctx "cell_gradients" = IList (IBlock <$> jacobians) ->
  saved ctx "samples" = IList (ILabels <$> all_samples) ->
  Z.of_nat (length jacobians) = n ->
  Z.of_nat (length all_samples) = n ->
  is_contiguous all_cells = true -> is_cpu all_cells = true ->
  all_samples !! 0%nat = Some first ->
  cell_path zero add mul ctx all_cells grad_outputs n =
  if (find (names first) "structure" =? length (names first))%nat then
    Err structure_missing
  else
    buffer ← cell_blocks zero add mul (names first)
               (Z.of_nat (find (names first) "structure"))
               (IBlock <$> jacobians) (ILabels <$> all_samples) grad_outputs n
               (replicate (length (data all_cells)) zero);
    Ok (Some (with_data (zeros_like zero all_cells) buffer)).
Proof.
  intros Hrg Hj Hs Hlj Hls Hc1 Hc2 Hfirst. unfold cell_path.
  rewrite Hrg, Hj, Hs. simpl. rewrite !length_fmap.
  rewrite (bool_decide_eq_true_2 _ Hlj), (bool_decide_eq_true_2 _ Hls).
  simpl. rewrite is_contiguous_zeros_like, Hc1, Hc2. simpl.
  rewrite (read_fmap_lookup _ _ 0 _ Hfirst). done.
Qed.

(** C7. In the cell path, reached with the positions path done and the
    saved gradients and samples in place: when the samples of the first
    block have no column named "structure", [backward] throws the
    invalid-argument error that says so; and when the sample names of some
    block differ from those of the first, [backward] returns no gradients
    and, the blocks before it having gone through, stops on the check
    [first_sample_names == block_samples->names()]. *)
Theorem cell_samples_are_checked (ctx : AutogradContext R) grad_outputs
    all_positions all_cells structures_start positions_grad jacobians all_samples first :
  saved_variables ctx !! 0%nat = Some all_positions ->
  saved_variables ctx !! 1%nat = Some all_cells ->
  saved ctx "structures_start" = IIntList structures_start ->
  saved ctx "cell_gradients" = IList (IBlock <$> jacobians) ->
  saved ctx "samples" = IList (ILabels <$> all_samples) ->
  requires_grad all_cells = true ->
  grad_outputs <> [] ->
  length jacobians = length grad_outputs ->
  length all_samples = length grad_outputs ->
  is_contiguous all_cells = true -> is_cpu all_cells = true ->
  positions_path ndebug zero add mul ctx all_positions structures_start
    (contiguous <$> grad_outputs) (Z.of_nat (length grad_outputs)) = Ok positions_grad ->
  all_samples !! 0%nat = Some first ->
  ("structure" ∉ names first ->
   backward ndebug zero add mul ctx grad_outputs = Err structure_missing)
  /\ (forall (k : nat) block_samples,
        all_samples !! k = Some block_samples ->
        names block_samples <> names first ->
        (forall res, backward ndebug zero add mul ctx grad_outputs <> Ok res)
        /\ ("structure" ∈ names first ->
            forall partial,
              cell_blocks zero add mul (names first)
                (Z.of_nat (find (names first) "structure"))
                (IBlock <$> jacobians) (ILabels <$> all_samples)
                (contiguous <$> grad_outputs) (Z.of_nat k)
                (data (zeros_like zero all_cells)) = Ok partial ->
              backward ndebug zero add mul ctx grad_outputs
              = Err (AssertFailed cell_same_names))).
Proof.
  intros H0 H1 Hs Hj Hsamples Hrg Hne Hlj Hls Hc1 Hc2 Hpos Hfirst.
  rewrite (backward_unfold ndebug zero add mul _ _ _ _ _ H0 H1 Hs).
  rewrite decide_False by (destruct grad_outputs; [done | simpl; lia]).
  rewrite Hpos. simpl.
  rewrite (cell_path_unfold ctx all_cells _ jacobians all_samples first);
    [|done|done|done|lia|lia|done|done|done].
  split.
  - intros Hmissing. apply find_end in Hmissing.
    apply Nat.eqb_eq in Hmissing. by rewrite Hmissing.
  - intros k block_samples Hk Hdiff.
    assert (exists jacobian, jacobians !! k = Some jacobian) as [jacobian Hjk].
    { apply lookup_lt_is_Some. apply lookup_lt_Some in Hk. lia. }
    assert (forall s1,
      (read (IBlock <$> jacobians) (Z.of_nat k) ≫= toTensorBlock) ≫=
        (fun gradient =>
           (read (@ILabels R <$> all_samples) (Z.of_nat k) ≫= toLabels) ≫=
             (fun block_samples =>
                cell_block zero add mul (names first)
                  (Z.of_nat (find (names first) "structure")) gradient block_samples
                  (contiguous <$> grad_outputs) (Z.of_nat k) s1))
      = Err (AssertFailed cell_same_names)) as Hbody.
    { intros s1. rewrite (read_fmap_lookup _ _ _ _ Hjk). simpl.
      rewrite (read_fmap_lookup _ _ _ _ Hk). simpl. unfold cell_block.
      rewrite (bool_decide_eq_false_2 (names first = names block_samples))
        by congruence.
      done. }
    assert (0 <= Z.of_nat k < Z.of_nat (length grad_outputs)) as Hrange.
    { apply lookup_lt_Some in Hk. lia. }
    split.
    + intros res Hres.
      destruct (find (names first) "structure" =? length (names first))%nat;
        [discriminate|].
      apply bind_ok in Hres as (cg & Hcg & _).
      apply bind_ok in Hcg as (buffer & Hloop & _).
      unfold cell_blocks in Hloop.
      refine (for_each_seqZ_fails (Z.of_nat (length grad_outputs)) (Z.of_nat k)
                _ _ Hrange _ (ex_intro _ _ Hloop)).
      intros s1 [s2 Hs2]. cbv beta in Hs2. rewrite Hbody in Hs2. discriminate.
    + intros Hin partial Hpartial.
      assert (find (names first) "structure" <> length (names first)) as Hfound.
      { intros Hend. by apply find_end in Hend. }
      apply Nat.eqb_neq in Hfound. rewrite Hfound.
      unfold cell_blocks in *.
      rewrite (for_each_seqZ_split (Z.of_nat (length grad_outputs)) (Z.of_nat k))
        by done.
      simpl in Hpartial. rewrite Hpartial. simpl. rewrite Hbody. done.
Qed.
End BackwardChecks.

(** ** Backward: the accumulation *)

Section Accumulation.
Context (ndebug : bool) {R : Type} (zero : R) (add mul : R -> R -> R).

Lemma accumulated_nil (g : list R) : accumulated add g [] g.
Proof. split; [done|]. intros k x H. done. Qed.

Lemma accumulated_app (g0 g1 g2 : list R) u1 u2 :
  accumulated add g0 u1 g1 -> accumulated add g1 u2 g2 ->
  accumulated add g0 (u1 ++ u2) g2.
Proof.
  intros [L1 H1] [L2 H2]. split; [congruence|].
  intros k x Hk. rewrite fold_left_app. apply H2, H1, Hk.
Qed.

Lemma add_at_accumulated (g g' : list R) (i : Z) (v : R) :
  add_at add g i v = Ok g' -> accumulated add g [(i, v)] g'.
Proof.
  unfold add_at. intros H. apply bind_ok in H as (x & Hx & [= <-]).
  apply read_ok in Hx as [Hi Hx]. split; [by rewrite length_insert|].
  intros k x0 Hk. simpl.
  destruct (decide (i = Z.of_nat k)) as [->|Hne].
  - rewrite Nat2Z.id in *. rewrite list_lookup_insert_eq by (by eapply lookup_lt_Some).
    congruence.
  - rewrite list_lookup_insert_ne by lia. done.
Qed.

Lemma for_each_accumulated {I} (range : list I) (body : I -> list R -> result (list R))
    (updates : I -> list (Z * R)) :
  (forall i s s', i ∈ range -> body i s = Ok s' -> accumulated add s (updates i) s') ->
  forall s s', for_each range body s = Ok s' ->
               accumulated add s (range ≫= updates) s'.
Proof.
  induction range as [|i range IH]; intros Hbody s s' Hrun; simpl in Hrun.
  - injection Hrun as <-. apply accumulated_nil.
  - destruct (body i s) as [s1|e] eqn:Hs1; [|discriminate].
    change ((i :: range) ≫= updates) with (updates i ++ (range ≫= updates)).
    eapply accumulated_app.
    + apply Hbody; [left | done].
    + apply IH; [|done]. intros j t t' Hj. apply Hbody. by right.
Qed.

(** The dot-product loop computes the dot product of the two rows. *)
Lemma dot_loop_prefix (forward_grad grad_values : list R) (fs gs : Z) (m : nat) v :
  for_each (seqZ 0 (Z.of_nat m)) (fun i dA =>
    dX ← read forward_grad (fs + i);
    dA_dX ← read grad_values (gs + i);
    Ok (add dA (mul dX dA_dX))) zero = Ok v ->
  ((0 < m)%nat -> 0 <= fs /\ 0 <= gs)
  /\ length (take m (drop (Z.to_nat fs) forward_grad)) = m
  /\ length (take m (drop (Z.to_nat gs) grad_values)) = m
  /\ v = dot_product zero add mul (take m (drop (Z.to_nat fs) forward_grad))
                     (take m (drop (Z.to_nat gs) grad_values)).
Proof.
  revert v. induction m as [|m IH]; intros v Hrun.
  - simpl in Hrun. injection Hrun as <-. rewrite !take_0. split; [lia|]. done.
  - rewrite seqZ_S, for_each_app in Hrun.
    apply bind_ok in Hrun as (mid & Hmid & Hlast).
    destruct (IH _ Hmid) as (Hpos & L1 & L2 & ->). clear IH Hmid.
    simpl in Hlast. rewrite Z.add_0_l in Hlast.
    destruct (read forward_grad (fs + Z.of_nat m)) as [x|e] eqn:Hx; [|discriminate].
    destruct (read grad_values (gs + Z.of_nat m)) as [y|e] eqn:Hy; [|discriminate].
    simpl in Hlast. injection Hlast as <-.
    apply read_ok in Hx as [Hx0 Hx]. apply read_ok in Hy as [Hy0 Hy].
    assert (0 <= fs /\ 0 <= gs) as [Hfs Hgs].
    { destruct m; [lia | apply Hpos; lia]. }
    assert (drop (Z.to_nat fs) forward_grad !! m = Some x) as Hdx.
    { rewrite lookup_drop. rewrite <- Hx. f_equal. lia. }
    assert (drop (Z.to_nat gs) grad_values !! m = Some y) as Hdy.
    { rewrite lookup_drop. rewrite <- Hy. f_equal. lia. }
    rewrite (take_S_r _ _ _ Hdx), (take_S_r _ _ _ Hdy).
    split; [done|]. rewrite !length_app, L1, L2. simpl.
    split; [lia|]. split; [lia|].
    unfold dot_product. rewrite zip_with_app by congruence.
    rewrite fold_left_app. done.
Qed.

Lemma dot_loop_ok (forward_grad grad_values : list R) (width frow grow : Z) v :
  dot_loop zero add mul forward_grad grad_values (frow * width) (grow * width) width
  = Ok v ->
  v = dot_product zero add mul (row_of forward_grad width frow)
                  (row_of grad_values width grow).
Proof.
  unfold dot_loop, row_of. intros H.
  destruct (decide (0 <= width)) as [Hw|Hw].
  - replace (seqZ 0 width) with (seqZ 0 (Z.of_nat (Z.to_nat width))) in H
      by (by rewrite Z2Nat.id).
    apply dot_loop_prefix in H as (_ & _ & _ & ->). done.
  - rewrite seqZ_nil in H by lia. injection H as <-.
    replace (Z.to_nat width) with 0%nat by lia. by rewrite !take_0.
Qed.

Lemma fmap_bind_list {A B C} (f : B -> C) (g : A -> list B) (l : list A) :
  f <$> (l ≫= g) = l ≫= (fun x => f <$> g x).
Proof.
  induction l as [|x l IH]; [done|].
  rewrite !bind_cons, fmap_app, IH. done.
Qed.

Lemma read_entry (table : list Z) (i x : Z) :
  read table i = Ok x -> entry table i = x.
Proof.
  intros H. apply read_ok in H as [_ H]. unfold entry.
  by apply list_lookup_total_correct.
Qed.

(** *** The positions path *)

Lemma positions_row_ok offsets (jacobian : TensorBlock R) (adjoint : Tensor R) r g g' :
  positions_row zero add mul offsets (label_values (samples jacobian))
    (data (values jacobian)) (data adjoint) (dot_dimensions_of (sizes adjoint)) r g
  = Ok g' ->
  accumulated add g
    (flat2 <$> positions_row_contributions zero add mul offsets jacobian adjoint r) g'.
Proof.
  rewrite dot_dimensions_of_flattened.
  unfold positions_row, positions_row_contributions. intros H. cbv zeta.
  apply bind_ok in H as (sample_i & Hsample & H).
  apply bind_ok in H as (structure_i & Hstructure & H).
  apply bind_ok in H as (atom_i & Hatom & H).
  apply bind_ok in H as (start & Hstart & H).
  rewrite Z.add_0_r in Hsample.
  rewrite (read_entry _ _ _ Hsample), (read_entry _ _ _ Hstructure),
    (read_entry _ _ _ Hatom), (read_entry _ _ _ Hstart).
  rewrite fmap_bind_list.
  eapply for_each_accumulated; [|exact H].
  intros direction s s' _ Hbody. simpl.
  apply bind_ok in Hbody as (dA_dr & Hdot & Hadd).
  apply dot_loop_ok in Hdot as ->.
  by apply add_at_accumulated.
Qed.

Lemma positions_block_ok offsets (jacobian : TensorBlock R) grad_outputs block_i g g' :
  positions_block zero add mul offsets jacobian grad_outputs block_i g = Ok g' ->
  exists adjoint,
    read grad_outputs block_i = Ok adjoint
    /\ accumulated add g
         (flat2 <$> positions_contributions zero add mul offsets jacobian adjoint) g'.
Proof.
  unfold positions_block, positions_contributions. cbv zeta. intros H.
  do 5 (apply bind_ok in H as ([] & _ & H)).
  apply bind_ok in H as (adjoint & Hadjoint & H).
  apply bind_ok in H as ([] & _ & H).
  exists adjoint. split; [done|]. rewrite fmap_bind_list.
  eapply for_each_accumulated; [|exact H].
  intros r s s' _. apply positions_row_ok.
Qed.

Lemma positions_blocks_prefix offsets (jacobians : list (TensorBlock R)) adjoints
    (m : nat) g g' :
  positions_blocks zero add mul offsets (IBlock <$> jacobians) adjoints (Z.of_nat m) g
  = Ok g' ->
  (m <= length jacobians)%nat /\ (m <= length adjoints)%nat
  /\ accumulated add g
       (flat2 <$> mjoin (take m (zip_with (positions_contributions zero add mul offsets)
                                          jacobians adjoints))) g'.
Proof.
  unfold positions_blocks. revert g'. induction m as [|m IH]; intros g' H.
  - simpl in H. injection H as <-. rewrite take_0. simpl.
    split; [lia|]. split; [lia|]. apply accumulated_nil.
  - rewrite seqZ_S, for_each_app in H. apply bind_ok in H as (mid & Hmid & Hlast).
    apply IH in Hmid as (L1 & L2 & Hmid). clear IH.
    simpl in Hlast. rewrite Z.add_0_l in Hlast.
    rewrite read_nat, list_lookup_fmap in Hlast.
    destruct (jacobians !! m) as [jacobian|] eqn:Hj; [|discriminate].
    simpl in Hlast.
    destruct (positions_block zero add mul offsets jacobian adjoints (Z.of_nat m) mid)
      as [g''|e] eqn:Hblock; [|discriminate].
    injection Hlast as ->.
    apply positions_block_ok in Hblock as (adjoint & Hadjoint & Hblock).
    rewrite read_nat in Hadjoint.
    destruct (adjoints !! m) as [a|] eqn:Ha; [|discriminate].
    injection Hadjoint as ->.
    split; [apply lookup_lt_Some in Hj; lia|].
    split; [apply lookup_lt_Some in Ha; lia|].
    erewrite take_S_r.
    2: { rewrite lookup_zip_with, Hj. simpl. rewrite Ha. simpl. done. }
    rewrite join_app, fmap_app. simpl. rewrite app_nil_r.
    eapply accumulated_app; done.
Qed.

Lemma accumulated_from_zero (n : nat) updates (g : list R) (k : nat) :
  accumulated add (replicate n zero) updates g -> (k < n)%nat ->
  g !! k = Some (fold_left (fun sum u =>
                   if decide (u.1 = Z.of_nat k) then add sum u.2 else sum)
                 updates zero).
Proof. intros [_ H] Hk. apply H. by apply lookup_replicate_2. Qed.

Lemma accumulate_flat2 (cs : list (Z * Z * R)) (atom direction : Z) (k : nat) (x : R) :
  Forall (fun c => 0 <= c.1.2 < 3) cs ->
  0 <= direction < 3 -> Z.of_nat k = atom * 3 + direction ->
  fold_left (fun sum u => if decide (u.1 = Z.of_nat k) then add sum u.2 else sum)
            (flat2 <$> cs) x
  = fold_left (fun sum c => if decide (c.1 = (atom, direction)) then add sum c.2 else sum)
              cs x.
Proof.
  intros Hcs Hd Hk. revert x. induction Hcs as [|[[a d] v] cs Hc _ IH]; intros x; [done|].
  simpl in *.
  destruct (decide (a * 3 + d = Z.of_nat k)) as [Heq|Hne].
  - assert (a = atom /\ d = direction) as [-> ->] by lia.
    rewrite decide_True by done. apply IH.
  - rewrite decide_False by (intros [= -> ->]; lia). apply IH.
Qed.

Lemma positions_contributions_directions offsets (jacobians : list (TensorBlock R))
    (adjoints : list (Tensor R)) :
  Forall (fun c => 0 <= c.1.2 < 3)
    (mjoin (zip_with (positions_contributions zero add mul offsets) jacobians adjoints)).
Proof.
  apply Forall_join, Forall_forall. intros cs Hcs.
  apply elem_of_zip_with in Hcs as (jacobian & adjoint & -> & _ & _).
  unfold positions_contributions. apply Forall_bind, Forall_forall. intros r _.
  unfold compose, positions_row_contributions. cbv zeta.
  apply Forall_bind, Forall_forall. intros direction Hd.
  apply elem_of_seqZ in Hd. unfold compose. apply Forall_singleton. simpl. lia.
Qed.

Lemma backward_positions_gradient (ctx : AutogradContext R) grad_outputs
    all_positions all_cells structures_start jacobians res :
  saved_variables ctx !! 0%nat = Some all_positions ->
  saved_variables ctx !! 1%nat = Some all_cells ->
  saved ctx "structures_start" = IIntList structures_start ->
  saved ctx "positions_gradients" = IList (IBlock <$> jacobians) ->
  requires_grad all_positions = true ->
  is_cpu all_positions = true ->
  grad_outputs <> [] ->
  backward ndebug zero add mul ctx grad_outputs = Ok res ->
  exists positions_grad,
    res !! 0%nat = Some (Some positions_grad)
    /\ sizes positions_grad = sizes all_positions
    /\ strides positions_grad = strides all_positions
    /\ length (data positions_grad) = length (data all_positions)
    /\ forall atom direction,
         0 <= direction < 3 ->
         0 <= atom * 3 + direction < Z.of_nat (length (data all_positions)) ->
         data positions_grad !! Z.to_nat (atom * 3 + direction)
         = Some (positions_gradient_at zero add mul structures_start jacobians
                   (contiguous <$> grad_outputs) atom direction).
Proof.
  intros H0 H1 Hs Hsaved Hrg Hcpu Hne Hres.
  rewrite (backward_unfold ndebug zero add mul _ _ _ _ _ H0 H1 Hs) in Hres.
  rewrite decide_False in Hres by (destruct grad_outputs; [done | simpl; lia]).
  rewrite (positions_path_unfold ndebug zero add mul _ _ _ _ _ _ Hrg Hsaved) in Hres.
  rewrite (host_data_zeros_like zero _ Hcpu) in Hres.
  apply bind_ok in Hres as (pg & Hpg & Hres).
  apply bind_ok in Hres as (cg & _ & [= <-]).
  apply bind_ok in Hpg as ([] & Hsize & Hpg).
  apply always_assert_ok, bool_decide_eq_true in Hsize. rewrite length_fmap in Hsize.
  apply bind_ok in Hpg as ([] & _ & Hpg).
  apply bind_ok in Hpg as (buffer & Hloop & [= <-]).
  rewrite (written_zeros_like zero _ _ Hcpu).
  apply positions_blocks_prefix in Hloop as (_ & _ & Hacc).
  rewrite take_ge in Hacc.
  2: { rewrite length_zip_with, length_fmap. lia. }
  eexists. split; [done|]. simpl. split; [done|]. split; [done|].
  split; [destruct Hacc as [-> _]; by rewrite length_replicate|].
  intros atom direction Hd Hk.
  rewrite (accumulated_from_zero _ _ _ (Z.to_nat (atom * 3 + direction)) Hacc) by lia.
  f_equal. unfold positions_gradient_at, accumulate.
  apply accumulate_flat2; [|done|lia].
  apply positions_contributions_directions.
Qed.

(** *** The cell path *)

Lemma index_column_prefix (table : list Z) (width dimension : Z) (m : nat) acc column :
  for_each (seqZ 0 (Z.of_nat m)) (fun row column =>
    x ← read table (row * width + dimension);
    Ok (column ++ [x])) acc = Ok column ->
  column = acc ++ ((fun row => entry table (row * width + dimension))
                     <$> seqZ 0 (Z.of_nat m)).
Proof.
  revert column. induction m as [|m IH]; intros column H.
  - simpl in H. injection H as <-. by rewrite app_nil_r.
  - rewrite seqZ_S, for_each_app in H. apply bind_ok in H as (mid & Hmid & Hlast).
    apply IH in Hmid as ->. simpl in Hlast.
    destruct (read table ((0 + Z.of_nat m) * width + dimension)) as [x|e] eqn:Hx;
      [|discriminate].
    simpl in Hlast. injection Hlast as <-.
    apply read_entry in Hx as <-.
    rewrite seqZ_S, fmap_app, app_assoc. done.
Qed.

Lemma index_column_ok (labels : Labels) (dimension : Z) column :
  index_column labels dimension = Ok column ->
  column = structure_table labels dimension.
Proof.
  unfold index_column, structure_table. intros H.
  destruct (decide (0 <= dimension < Z.of_nat (length (names labels)))); [|discriminate].
  destruct (decide (0 <= count labels)) as [Hn|Hn].
  - rewrite <- (Z2Nat.id (count labels)) in H |- * by done.
    by apply index_column_prefix in H as ->.
  - rewrite seqZ_nil in H |- * by lia. by injection H as <-.
Qed.

Lemma select_ok (t : list Z) (index x : Z) :
  select t index = Ok x -> x = resolve t index.
Proof.
  unfold select, resolve. intros H.
  destruct (decide (- Z.of_nat (length t) <= index < Z.of_nat (length t)));
    [|discriminate].
  by apply read_entry in H.
Qed.

Lemma fmap_bind_bind {A B C D} (f : C -> D) (g : A -> B -> C) (l : list A)
    (l' : list B) :
  f <$> (l ≫= fun i => l' ≫= fun j => [g i j])
  = l ≫= fun i => l' ≫= fun j => [f (g i j)].
Proof.
  induction l as [|i l IH]; [done|].
  rewrite !bind_cons, fmap_app, IH. f_equal.
  clear IH. induction l' as [|j l' IH]; [done|].
  rewrite !bind_cons, fmap_app, IH. done.
Qed.

Lemma cell_row_ok structures (jacobian : TensorBlock R) (adjoint : Tensor R) r g g' :
  cell_row zero add mul structures (label_values (samples jacobian))
    (data (values jacobian)) (data adjoint) (dot_dimensions_of (sizes adjoint)) r g
  = Ok g' ->
  accumulated add g
    (flat3 <$> cell_row_contributions zero add mul structures jacobian adjoint r) g'.
Proof.
  rewrite dot_dimensions_of_flattened.
  unfold cell_row, cell_row_contributions. intros H. cbv zeta.
  apply bind_ok in H as (sample_i & Hsample & H).
  apply bind_ok in H as (structure_i & Hstructure & H).
  rewrite (read_entry _ _ _ Hsample). apply select_ok in Hstructure as <-.
  rewrite fmap_bind_bind.
  eapply for_each_accumulated; [|exact H].
  intros direction_1 s s' _ Hbody.
  eapply for_each_accumulated; [|exact Hbody].
  intros direction_2 t t' _ Hinner. simpl.
  apply bind_ok in Hinner as (dA_dH & Hdot & Hadd).
  apply dot_loop_ok in Hdot as ->.
  by apply add_at_accumulated.
Qed.

Lemma cell_block_ok first_sample_names structure_dimension (jacobian : TensorBlock R)
    block_samples grad_outputs block_i g g' :
  cell_block zero add mul first_sample_names structure_dimension jacobian block_samples
             grad_outputs block_i g = Ok g' ->
  exists adjoint,
    read grad_outputs block_i = Ok adjoint
    /\ accumulated add g
         (flat3 <$> cell_contributions zero add mul structure_dimension block_samples
                      jacobian adjoint) g'.
Proof.
  unfold cell_block, cell_contributions. cbv zeta. intros H.
  apply bind_ok in H as ([] & _ & H).
  apply bind_ok in H as (structures & Hstructures & H).
  apply index_column_ok in Hstructures as ->.
  do 3 (apply bind_ok in H as ([] & _ & H)).
  apply bind_ok in H as (adjoint & Hadjoint & H).
  apply bind_ok in H as ([] & _ & H).
  exists adjoint. split; [done|]. rewrite fmap_bind_list.
  eapply for_each_accumulated; [|exact H].
  intros r s s' _. apply cell_row_ok.
Qed.

Lemma cell_blocks_prefix first_sample_names structure_dimension
    (jacobians : list (TensorBlock R)) (all_samples : list Labels) adjoints
    (m : nat) g g' :
  cell_blocks zero add mul first_sample_names structure_dimension
    (IBlock <$> jacobians) (ILabels <$> all_samples) adjoints (Z.of_nat m) g = Ok g' ->
  accumulated add g
    (flat3 <$> mjoin (take m (zip_with (fun sj adjoint =>
                                cell_contributions zero add mul structure_dimension
                                                   sj.1 sj.2 adjoint)
                              (zip all_samples jacobians) adjoints))) g'.
Proof.
  unfold cell_blocks. revert g'. induction m as [|m IH]; intros g' H.
  - simpl in H. injection H as <-. rewrite take_0. simpl. apply accumulated_nil.
  - rewrite seqZ_S, for_each_app in H. apply bind_ok in H as (mid & Hmid & Hlast).
    apply IH in Hmid. clear IH.
    simpl in Hlast. rewrite Z.add_0_l in Hlast.
    rewrite !read_nat, !list_lookup_fmap in Hlast.
    destruct (jacobians !! m) as [jacobian|] eqn:Hj; [|discriminate].
    simpl in Hlast.
    destruct (all_samples !! m) as [block_samples|] eqn:Hb; [|discriminate].
    simpl in Hlast.
    destruct (cell_block zero add mul first_sample_names structure_dimension jacobian
                block_samples adjoints (Z.of_nat m) mid) as [g''|e] eqn:Hblock;
      [|discriminate].
    injection Hlast as ->.
    apply cell_block_ok in Hblock as (adjoint & Hadjoint & Hblock).
    rewrite read_nat in Hadjoint.
    destruct (adjoints !! m) as [a|] eqn:Ha; [|discriminate].
    injection Hadjoint as ->.
    erewrite take_S_r.
    2: { apply lookup_zip_with_Some. exists (block_samples, jacobian), adjoint.
         split; [reflexivity|]. split; [|exact Ha].
         apply lookup_zip_with_Some. exists block_samples, jacobian. done. }
    rewrite join_app, fmap_app. simpl. rewrite app_nil_r.
    eapply accumulated_app; done.
Qed.

Lemma accumulate_flat3 (cs : list (Z * Z * Z * R)) (structure i j : Z) (k : nat) (x : R) :
  Forall (fun c => 0 <= c.1.1.2 < 3 /\ 0 <= c.1.2 < 3) cs ->
  0 <= i < 3 -> 0 <= j < 3 -> Z.of_nat k = (structure * 3 + i) * 3 + j ->
  fold_left (fun sum u => if decide (u.1 = Z.of_nat k) then add sum u.2 else sum)
            (flat3 <$> cs) x
  = fold_left (fun sum c => if decide (c.1 = (structure, i, j)) then add sum c.2 else sum)
              cs x.
Proof.
  intros Hcs Hi Hj Hk. revert x.
  induction Hcs as [|[[[s a] b] v] cs Hc _ IH]; intros x; [done|].
  simpl in *.
  destruct (decide ((s * 3 + a) * 3 + b = Z.of_nat k)) as [Heq|Hne].
  - assert (s = structure /\ a = i /\ b = j) as (-> & -> & ->) by lia.
    rewrite decide_True by done. apply IH.
  - rewrite decide_False by (intros [= -> -> ->]; lia). apply IH.
Qed.

Lemma cell_contributions_directions structure_dimension (all_samples : list Labels)
    (jacobians : list (TensorBlock R)) (adjoints : list (Tensor R)) :
  Forall (fun c => 0 <= c.1.1.2 < 3 /\ 0 <= c.1.2 < 3)
    (mjoin (zip_with (fun sj adjoint =>
              cell_contributions zero add mul structure_dimension sj.1 sj.2 adjoint)
            (zip all_samples jacobians) adjoints)).
Proof.
  apply Forall_join, Forall_forall. intros cs Hcs.
  apply elem_of_zip_with in Hcs as (sj & adjoint & -> & _ & _).
  unfold cell_contributions. apply Forall_bind, Forall_forall. intros r _.
  unfold compose, cell_row_contributions. cbv zeta.
  apply Forall_bind, Forall_forall. intros i Hi. unfold compose.
  apply Forall_bind, Forall_forall. intros j Hj. unfold compose.
  apply elem_of_seqZ in Hi, Hj. apply Forall_singleton. simpl. lia.
Qed.

Lemma backward_cell_gradient (ctx : AutogradContext R) grad_outputs
    all_positions all_cells structures_start jacobians all_samples res :
  saved_variables ctx !! 0%nat = Some all_positions ->
  saved_variables ctx !! 1%nat = Some all_cells ->
  saved ctx "structures_start" = IIntList structures_start ->
  saved ctx "cell_gradients" = IList (IBlock <$> jacobians) ->
  saved ctx "samples" = IList (ILabels <$> all_samples) ->
  requires_grad all_cells = true ->
  grad_outputs <> [] ->
  backward ndebug zero add mul ctx grad_outputs = Ok res ->
  exists first cell_grad,
    all_samples !! 0%nat = Some first
    /\ "structure" ∈ names first
    /\ res !! 1%nat = Some (Some cell_grad)
    /\ sizes cell_grad = sizes all_cells
    /\ is_contiguous cell_grad = true
    /\ length (data cell_grad) = length (data all_cells)
    /\ forall structure i j,
         0 <= i < 3 -> 0 <= j < 3 ->
         0 <= (structure * 3 + i) * 3 + j < Z.of_nat (length (data all_cells)) ->
         data cell_grad !! Z.to_nat ((structure * 3 + i) * 3 + j)
         = Some (cell_gradient_at zero add mul
                   (Z.of_nat (find (names first) "structure")) all_samples jacobians
                   (contiguous <$> grad_outputs) structure i j).
Proof.
  intros H0 H1 Hs Hj Hsamples Hrg Hne Hres.
  rewrite (backward_unfold ndebug zero add mul _ _ _ _ _ H0 H1 Hs) in Hres.
  rewrite decide_False in Hres by (destruct grad_outputs; [done | simpl; lia]).
  apply bind_ok in Hres as (pg & _ & Hres).
  apply bind_ok in Hres as (cg & Hcg & [= <-]).
  unfold cell_path in Hcg. rewrite Hrg, Hj, Hsamples in Hcg.
  cbn [toListRef mbind result_bind] in Hcg.
  apply bind_ok in Hcg as ([] & Hsize1 & Hcg).
  apply always_assert_ok, bool_decide_eq_true in Hsize1.
  apply bind_ok in Hcg as ([] & Hsize2 & Hcg).
  apply always_assert_ok, bool_decide_eq_true in Hsize2.
  rewrite length_fmap in Hsize1. rewrite length_fmap in Hsize2.
  apply bind_ok in Hcg as ([] & Hlayout & Hcg).
  apply always_assert_ok, andb_true_iff in Hlayout as [Hlayout _].
  apply bind_ok in Hcg as (first & Hfirst & Hcg).
  rewrite (read_nat _ 0), list_lookup_fmap in Hfirst.
  destruct (all_samples !! 0%nat) as [first'|] eqn:Hfirst'; [|discriminate].
  simpl in Hfirst. injection Hfirst as <-.
  destruct (find (names first') "structure" =? length (names first'))%nat eqn:Hfind;
    [discriminate|].
  apply Nat.eqb_neq in Hfind.
  apply bind_ok in Hcg as (buffer & Hloop & [= <-]).
  apply cell_blocks_prefix in Hloop.
  change (data (zeros_like zero all_cells))
    with (replicate (length (data all_cells)) zero) in Hloop.
  rewrite take_ge in Hloop.
  2: { rewrite length_zip_with, length_fmap. lia. }
  exists first'. eexists. split; [done|].
  split.
  { destruct (decide ("structure" ∈ names first')) as [Hin|Hin]; [done|].
    by apply find_end in Hin. }
  split; [done|]. simpl. split; [done|]. split; [exact Hlayout|].
  split; [destruct Hloop as [-> _]; by rewrite length_replicate|].
  intros structure i j Hi Hj' Hk.
  rewrite (accumulated_from_zero _ _ _ (Z.to_nat ((structure * 3 + i) * 3 + j)) Hloop)
    by lia.
  f_equal. unfold cell_gradient_at, accumulate.
  apply accumulate_flat3; [|done|done|lia].
  apply cell_contributions_directions.
Qed.
End Accumulation.

(** ** Backward: data that fits goes through *)

Section Success.
Context (ndebug : bool) {R : Type} (zero : R) (add mul : R -> R -> R).

Lemma for_each_total {I S} (P : S -> Prop) (range : list I)
    (body : I -> S -> result S) :
  (forall i s, i ∈ range -> P s -> exists s', body i s = Ok s' /\ P s') ->
  forall s, P s -> exists s', for_each range body s = Ok s' /\ P s'.
Proof.
  induction range as [|i range IH]; intros Hbody s Hs; simpl.
  - by exists s.
  - destruct (Hbody i s) as (s1 & -> & Hs1); [left | done |].
    apply IH; [|done]. intros j t Hj. apply Hbody. by right.
Qed.

Lemma read_in_range {A} (buffer : list A) (i : Z) :
  0 <= i < Z.of_nat (length buffer) -> exists x, read buffer i = Ok x.
Proof.
  intros Hi. destruct (lookup_lt_is_Some_2 buffer (Z.to_nat i)) as [x Hx]; [lia|].
  exists x. apply read_ok. split; [lia | done].
Qed.

Lemma read_entry_in_range (table : list Z) (i : Z) :
  0 <= i < Z.of_nat (length table) -> read table i = Ok (entry table i).
Proof.
  intros Hi. destruct (read_in_range table i Hi) as [x Hx].
  by rewrite Hx, (read_entry _ _ _ Hx).
Qed.

Lemma add_at_in_range (g : list R) (i : Z) (v : R) :
  0 <= i < Z.of_nat (length g) ->
  exists g', add_at add g i v = Ok g' /\ length g' = length g.
Proof.
  intros Hi. unfold add_at. destruct (read_in_range g i Hi) as [x ->]. simpl.
  eexists. split; [done|]. by rewrite length_insert.
Qed.

Lemma dot_loop_in_range (forward_grad grad_values : list R) (fs gs width : Z) :
  (0 < width ->
   0 <= fs /\ fs + width <= Z.of_nat (length forward_grad)
   /\ 0 <= gs /\ gs + width <= Z.of_nat (length grad_values)) ->
  exists v, dot_loop zero add mul forward_grad grad_values fs gs width = Ok v.
Proof.
  intros H. unfold dot_loop.
  edestruct (for_each_total (fun _ : R => True) (seqZ 0 width)) as (v & Hv & _);
    [|done|by exists v].
  intros i s Hi _. apply elem_of_seqZ in Hi.
  destruct H as (H1 & H2 & H3 & H4); [lia|].
  destruct (read_in_range forward_grad (fs + i)) as [x ->]; [lia|].
  destruct (read_in_range grad_values (gs + i)) as [y ->]; [lia|].
  simpl. eauto.
Qed.

Lemma positions_row_in_range offsets (n : Z) (jacobian : TensorBlock R)
    (adjoint : Tensor R) (r : Z) (g : list R) :
  0 <= r -> positions_row_fits offsets n jacobian adjoint r ->
  Z.of_nat (length g) = n ->
  exists g',
    positions_row zero add mul offsets (label_values (samples jacobian))
      (data (values jacobian)) (data adjoint) (dot_dimensions_of (sizes adjoint)) r g
    = Ok g'
    /\ Z.of_nat (length g') = n.
Proof.
  rewrite dot_dimensions_of_flattened.
  intros Hr (Htable & Hstructure & Hatom0 & Hatom & Hdot) Hg. unfold positions_row.
  rewrite Z.add_0_r.
  rewrite !read_entry_in_range by lia. cbn [mbind result_bind].
  rewrite read_entry_in_range by lia. cbn [mbind result_bind].
  apply (for_each_total (fun g : list R => Z.of_nat (length g) = n)); [|done].
  intros direction s Hd Hs. apply elem_of_seqZ in Hd.
  destruct (dot_loop_in_range (data (values jacobian)) (data adjoint)
              ((r * 3 + direction) * flattened_width adjoint)
              (entry (label_values (samples jacobian)) (r * 3)
               * flattened_width adjoint)
              (flattened_width adjoint)) as [v ->].
  { intros Hw. destruct (Hdot Hw) as (H1 & H2 & H3). nia. }
  cbn [mbind result_bind].
  destruct (add_at_in_range s
              ((entry offsets (entry (label_values (samples jacobian)) (r * 3 + 1))
                + entry (label_values (samples jacobian)) (r * 3 + 2)) * 3 + direction) v)
    as (s' & -> & Hs'); [lia|].
  exists s'. split; [done | lia].
Qed.

Lemma positions_block_in_range offsets (n : Z) (jacobian : TensorBlock R)
    grad_outputs (block_i : nat) adjoint (g : list R) :
  grad_outputs !! block_i = Some adjoint ->
  positions_block_fits offsets n jacobian adjoint ->
  Z.of_nat (length g) = n ->
  exists g',
    positions_block zero add mul offsets jacobian grad_outputs (Z.of_nat block_i) g
    = Ok g'
    /\ Z.of_nat (length g') = n.
Proof.
  intros Hadjoint (Hnames & Hc1 & Hc2 & Hc3 & Hc4 & Hrows) Hg.
  unfold positions_block. cbv zeta. rewrite Hnames, Hc1, Hc2. simpl.
  rewrite read_nat, Hadjoint. simpl. rewrite Hc3, Hc4. simpl.
  apply (for_each_total (fun g : list R => Z.of_nat (length g) = n)); [|done].
  intros r s Hr Hs. apply elem_of_seqZ in Hr.
  apply positions_row_in_range; [lia | apply Hrows; lia | done].
Qed.

Lemma positions_blocks_in_range offsets (n : Z) (jacobians : list (TensorBlock R))
    adjoints (g : list R) :
  Forall2 (positions_block_fits offsets n) jacobians adjoints ->
  Z.of_nat (length g) = n ->
  exists g',
    positions_blocks zero add mul offsets (IBlock <$> jacobians) adjoints
      (Z.of_nat (length adjoints)) g = Ok g'.
Proof.
  intros Hfit Hg. unfold positions_blocks.
  edestruct (for_each_total (fun g : list R => Z.of_nat (length g) = n)
               (seqZ 0 (Z.of_nat (length adjoints)))) as (g' & Hg' & _);
    [|exact Hg|by exists g'].
  intros i s Hi Hs. apply elem_of_seqZ in Hi.
  destruct (lookup_lt_is_Some_2 adjoints (Z.to_nat i)) as [adjoint Ha]; [lia|].
  destruct (Forall2_lookup_r _ _ _ _ _ Hfit Ha) as (jacobian & Hj & Hblock).
  rewrite <- (Z2Nat.id i) by lia.
  rewrite (read_fmap_lookup _ _ _ _ Hj). simpl.
  by apply (positions_block_in_range offsets n jacobian adjoints _ adjoint).
Qed.

Lemma positions_path_in_range (ctx : AutogradContext R) all_positions offsets
    jacobians adjoints :
  (requires_grad all_positions = true ->
   saved ctx "positions_gradients" = IList (IBlock <$> jacobians)
   /\ positions_fit offsets all_positions jacobians adjoints) ->
  exists positions_grad,
    positions_path ndebug zero add mul ctx all_positions offsets adjoints
      (Z.of_nat (length adjoints)) = Ok positions_grad.
Proof.
  intros H. destruct (requires_grad all_positions) eqn:Hrg.
  2: { exists None. unfold positions_path. by rewrite Hrg. }
  destruct H as (Hsaved & Hc1 & Hc2 & Hfit); [done|].
  rewrite (positions_path_unfold ndebug zero add mul _ _ _ _ _ _ Hrg Hsaved).
  rewrite length_fmap, (Forall2_length _ _ _ Hfit).
  rewrite bool_decide_eq_true_2 by done.
  rewrite Hc1, Hc2, (host_data_zeros_like zero _ Hc2). simpl.
  rewrite (plain_assert_true ndebug). cbn [mbind result_bind].
  destruct (positions_blocks_in_range offsets _ jacobians adjoints
              (replicate (length (data all_positions)) zero) Hfit) as [g' ->].
  { by rewrite length_replicate. }
  simpl. eauto.
Qed.
Lemma index_column_in_range (labels : Labels) (dimension : Z) :
  0 <= dimension < Z.of_nat (length (names labels)) ->
  count labels * Z.of_nat (length (names labels))
  <= Z.of_nat (length (label_values labels)) ->
  index_column labels dimension = Ok (structure_table labels dimension).
Proof.
  intros Hd Hlen.
  destruct (index_column labels dimension) as [column|e] eqn:H.
  { by rewrite (index_column_ok _ _ _ H). }
  exfalso. unfold index_column in H. rewrite decide_True in H by done.
  edestruct (for_each_total (fun _ : list Z => True) (seqZ 0 (count labels)))
    as (column & Hcolumn & _); [|done|rewrite Hcolumn in H; discriminate].
  intros row s Hrow _. apply elem_of_seqZ in Hrow. cbv beta.
  rewrite read_entry_in_range by nia. simpl. eauto.
Qed.

Lemma select_in_range (t : list Z) (index : Z) :
  0 <= index < Z.of_nat (length t) ->
  select t index = Ok (entry t index) /\ resolve t index = entry t index.
Proof.
  intros Hi. unfold select, resolve.
  rewrite decide_True by lia. rewrite !decide_False by lia.
  by rewrite read_entry_in_range.
Qed.

Lemma cell_row_in_range (n : Z) (table : list Z) (jacobian : TensorBlock R)
    (adjoint : Tensor R) (r : Z) (g : list R) :
  0 <= r -> cell_row_fits n table jacobian adjoint r ->
  Z.of_nat (length g) = n ->
  exists g',
    cell_row zero add mul table (label_values (samples jacobian))
      (data (values jacobian)) (data adjoint) (dot_dimensions_of (sizes adjoint)) r g
    = Ok g'
    /\ Z.of_nat (length g') = n.
Proof.
  rewrite dot_dimensions_of_flattened.
  intros Hr (Htable & Hsample & Hs0 & Hs1 & Hdot) Hg. unfold cell_row.
  rewrite read_entry_in_range by lia. cbn [mbind result_bind].
  rewrite (proj1 (select_in_range _ _ Hsample)). cbn [mbind result_bind].
  apply (for_each_total (fun g : list R => Z.of_nat (length g) = n)); [|done].
  intros direction_1 s Hd1 Hs. apply elem_of_seqZ in Hd1.
  apply (for_each_total (fun g : list R => Z.of_nat (length g) = n)); [|done].
  intros direction_2 t Hd2 Ht. apply elem_of_seqZ in Hd2. cbv zeta.
  destruct (dot_loop_in_range (data (values jacobian)) (data adjoint)
              (((r * 3 + direction_2) * 3 + direction_1)
               * flattened_width adjoint)
              (entry (label_values (samples jacobian)) r
               * flattened_width adjoint)
              (flattened_width adjoint)) as [v ->].
  { intros Hw. destruct (Hdot Hw) as (H1 & H2). nia. }
  cbn [mbind result_bind].
  destruct (add_at_in_range t
              ((entry table (entry (label_values (samples jacobian)) r) * 3
                + direction_1) * 3 + direction_2) v)
    as (t' & -> & Ht'); [lia|].
  exists t'. split; [done | lia].
Qed.

Lemma cell_block_in_range first_sample_names structure_dimension (n : Z)
    block_samples (jacobian : TensorBlock R) grad_outputs (block_i : nat) adjoint
    (g : list R) :
  grad_outputs !! block_i = Some adjoint ->
  0 <= structure_dimension < Z.of_nat (length first_sample_names) ->
  cell_block_fits first_sample_names structure_dimension n block_samples jacobian
                  adjoint ->
  Z.of_nat (length g) = n ->
  exists g',
    cell_block zero add mul first_sample_names structure_dimension jacobian
      block_samples grad_outputs (Z.of_nat block_i) g = Ok g'
    /\ Z.of_nat (length g') = n.
Proof.
  intros Hadjoint Hd (<- & Hlen & Hnames & Hc1 & Hc2 & Hc3 & Hc4 & Hrows) Hg.
  unfold cell_block. cbv zeta.
  rewrite (bool_decide_eq_true_2 (names block_samples = names block_samples))
    by done.
  cbn [always_assert mbind result_bind].
  rewrite index_column_in_range by done.
  cbn [mbind result_bind]. rewrite Hnames, Hc1, Hc2. simpl.
  rewrite read_nat, Hadjoint. simpl. rewrite Hc3, Hc4. simpl.
  apply (for_each_total (fun g : list R => Z.of_nat (length g) = n)); [|done].
  intros r s Hr Hs. apply elem_of_seqZ in Hr.
  apply cell_row_in_range; [lia | apply Hrows; lia | done].
Qed.

Lemma cell_path_in_range (ctx : AutogradContext R) all_cells all_samples jacobians
    adjoints :
  (requires_grad all_cells = true ->
   saved ctx "cell_gradients" = IList (IBlock <$> jacobians)
   /\ saved ctx "samples" = IList (ILabels <$> all_samples)
   /\ cell_fit all_cells all_samples jacobians adjoints) ->
  exists cell_grad,
    cell_path zero add mul ctx all_cells adjoints (Z.of_nat (length adjoints))
    = Ok cell_grad.
Proof.
  intros H. destruct (requires_grad all_cells) eqn:Hrg.
  2: { exists None. unfold cell_path. by rewrite Hrg. }
  destruct H as (Hj & Hs & Hc1 & Hc2 & Hlen & first & Hfirst & Hin & Hfit); [done|].
  pose proof (Forall2_length _ _ _ Hfit) as Hzip.
  rewrite length_zip_with in Hzip.
  rewrite (cell_path_unfold zero add mul ctx all_cells adjoints jacobians all_samples
             first); [|done|done|done|lia|lia|done|done|done].
  assert (find (names first) "structure" <> length (names first)) as Hfound.
  { intros Hend. by apply find_end in Hend. }
  pose proof (find_le (names first) "structure") as Hle.
  apply Nat.eqb_neq in Hfound as Hneq. rewrite Hneq.
  unfold cell_blocks.
  edestruct (for_each_total
               (fun g : list R => Z.of_nat (length g) = Z.of_nat (length (data all_cells)))
               (seqZ 0 (Z.of_nat (length adjoints)))) as (g' & Hg' & _);
    [|by rewrite length_replicate|rewrite Hg'; simpl; eauto].
  intros i s Hi Hs'. apply elem_of_seqZ in Hi.
  destruct (lookup_lt_is_Some_2 adjoints (Z.to_nat i)) as [adjoint Ha]; [lia|].
  destruct (Forall2_lookup_r _ _ _ _ _ Hfit Ha) as ([block_samples jacobian] & Hsj & Hblock).
  apply lookup_zip_with_Some in Hsj as (bs & j & [= <- <-] & Hbs & Hjac).
  rewrite <- (Z2Nat.id i) by lia.
  rewrite (read_fmap_lookup _ _ _ _ Hjac). cbn [mbind result_bind toTensorBlock].
  rewrite (read_fmap_lookup _ _ _ _ Hbs). cbn [mbind result_bind toLabels].
  apply (cell_block_in_range (names first) _ _ block_samples jacobian adjoints _
           adjoint); [done | lia | done | done].
Qed.

(** With data that fits, [backward] returns. *)
Theorem backward_succeeds (ctx : AutogradContext R) grad_outputs all_positions all_cells
    structures_start positions_jacobians cell_jacobians all_samples :
  saved_variables ctx !! 0%nat = Some all_positions ->
  saved_variables ctx !! 1%nat = Some all_cells ->
  saved ctx "structures_start" = IIntList structures_start ->
  (requires_grad all_positions = true ->
   saved ctx "positions_gradients" = IList (IBlock <$> positions_jacobians)
   /\ positions_fit structures_start all_positions positions_jacobians
                    (contiguous <$> grad_outputs)) ->
  (requires_grad all_cells = true ->
   saved ctx "cell_gradients" = IList (IBlock <$> cell_jacobians)
   /\ saved ctx "samples" = IList (ILabels <$> all_samples)
   /\ cell_fit all_cells all_samples cell_jacobians (contiguous <$> grad_outputs)) ->
  exists res, backward ndebug zero add mul ctx grad_outputs = Ok res.
Proof.
  intros H0 H1 Hs Hp Hc.
  rewrite (backward_unfold ndebug zero add mul _ _ _ _ _ H0 H1 Hs).
  destruct (decide (Z.of_nat (length grad_outputs) = 0)); [eauto|].
  destruct (positions_path_in_range ctx all_positions structures_start
              positions_jacobians (contiguous <$> grad_outputs) Hp) as [pg Hpg].
  destruct (cell_path_in_range ctx all_cells all_samples cell_jacobians
              (contiguous <$> grad_outputs) Hc) as [cg Hcg].
  rewrite length_fmap in Hpg, Hcg. rewrite Hpg. simpl. rewrite Hcg. simpl. eauto.
Qed.
End Success.

(** ** Forward, then backward *)

Section ForwardBackward.
Context (ndebug : bool) {R : Type} (zero : R) (add mul : R -> R -> R).

Lemma forward_context (all_positions all_cells : Tensor R) calculator systems
    forward_gradients calls out :
  forward new_context all_positions all_cells calculator systems forward_gradients
  = (calls, Ok out) ->
  exists options descriptor positions_copies cell_copies,
    calls = [(systems, options)]
    /\ calculator systems options = Ok descriptor
    /\ saved_variables (context out) = [all_positions; all_cells]
    /\ saved (context out) "structures_start" = IIntList (int64_offsets systems)
    /\ (requires_grad all_positions = true ->
        copies_of "positions" (keyed_blocks descriptor) positions_copies
        /\ saved (context out) "positions_gradients" = IList (IBlock <$> positions_copies))
    /\ (requires_grad all_cells = true ->
        copies_of "cell" (keyed_blocks descriptor) cell_copies
        /\ saved (context out) "cell_gradients" = IList (IBlock <$> cell_copies)
        /\ saved (context out) "samples"
           = IList (ILabels <$> (samples <$> keyed_blocks descriptor))).
Proof.
  intros H. apply forward_ok in H as (native & descriptor & H); simpl in H.
  destruct H as (_ & _ & -> & Hcalc & _ & Hctx & _).
  apply save_context_ok in Hctx as (pgs & cgs & Hvars & Hdata & Hpgs & Hcgs).
  eexists _, descriptor, pgs, cgs. split; [done|]. split; [done|]. split; [done|].
  destruct (saved_after_forward_lookup all_positions all_cells
              (structures_start_of systems) pgs cgs (samples <$> keyed_blocks descriptor))
    as (L1 & L2 & L3 & L4 & _).
  rewrite <- Hdata in L1, L2, L3, L4. unfold saved.
  rewrite L1, L2, L3, L4, structures_start_of_offsets.
  split; [done|]. split.
  - intros Hrg. rewrite Hrg. split; [by apply Hpgs | done].
  - intros Hrg. rewrite Hrg. split; [by apply Hcgs | done].
Qed.

(** After a successful [forward] on positions that require gradients and
    are contiguous and on the CPU (what line 217 asserts), in a debug and in
    a release build: whenever [backward], given at least one adjoint,
    returns, its first element is a contiguous tensor of the shape of the
    positions whose entry [atom][direction] is the sum, in the order of the
    blocks and of their gradient samples and starting from zero, of the dot
    products of the saved Jacobian rows with the adjoint rows of their
    samples, over the gradient samples whose
    [structure_offsets[structure] + atom] is that atom; the saved Jacobians
    are the copies of the "positions" gradients of the calculator's output
    and the offsets are the prefix sums of the atom counts, as 64-bit
    integers.  And [backward] does return when these data fit their buffers
    (the cell path being idle). *)
Lemma positions_gradient_of_contiguous_positions
    (all_positions all_cells : Tensor R) calculator systems forward_gradients
    calls out grad_outputs :
  forward new_context all_positions all_cells calculator systems forward_gradients
  = (calls, Ok out) ->
  requires_grad all_positions = true ->
  is_contiguous all_positions = true ->
  is_cpu all_positions = true ->
  grad_outputs <> [] ->
  exists options descriptor jacobians,
    calls = [(systems, options)]
    /\ calculator systems options = Ok descriptor
    /\ copies_of "positions" (keyed_blocks descriptor) jacobians
    /\ (forall res,
          backward ndebug zero add mul (context out) grad_outputs = Ok res ->
          exists positions_grad,
            res !! 0%nat = Some (Some positions_grad)
            /\ sizes positions_grad = sizes all_positions
            /\ is_contiguous positions_grad = true
            /\ length (data positions_grad) = length (data all_positions)
            /\ forall atom direction,
                 0 <= direction < 3 ->
                 0 <= atom * 3 + direction < Z.of_nat (length (data all_positions)) ->
                 data positions_grad !! Z.to_nat (atom * 3 + direction)
                 = Some (positions_gradient_at zero add mul (int64_offsets systems)
                           jacobians (contiguous <$> grad_outputs) atom direction))
    /\ (positions_fit (int64_offsets systems) all_positions jacobians
                      (contiguous <$> grad_outputs) ->
        requires_grad all_cells = false ->
        exists res, backward ndebug zero add mul (context out) grad_outputs = Ok res).
Proof.
  intros Hforward Hrg Hcontiguous Hcpu Hne.
  apply forward_context in Hforward
    as (options & descriptor & pgs & cgs & Hcalls & Hcalc & Hvars & Hs & Hp & _).
  destruct (Hp Hrg) as [Hcopies Hsaved].
  exists options, descriptor, pgs. split; [done|]. split; [done|]. split; [done|].
  split.
  - intros res Hbackward.
    destruct (backward_positions_gradient ndebug zero add mul (context out) grad_outputs
                all_positions all_cells (int64_offsets systems) pgs res)
      as (positions_grad & Hfirst & Hsizes & Hstrides & Hlength & Hentries);
      try done; try (by rewrite Hvars).
    exists positions_grad. split; [done|]. split; [done|].
    split; [|by split].
    unfold is_contiguous in *. by rewrite Hsizes, Hstrides.
  - intros Hfit Hcells.
    apply (backward_succeeds ndebug zero add mul (context out) grad_outputs all_positions
             all_cells (int64_offsets systems) pgs [] []);
      try done; try (by rewrite Hvars).
    intros Hcells'. congruence.
Qed.

End ForwardBackward.

(** C1.  For positions that are contiguous and on the CPU, in a debug and
    in a release build: whenever [backward] returns, its first tensor is
    contiguous, has the shape of the positions, and its entry
    [atom][direction] is the sum from zero of the dot products, over the
    flattened component-times-property axis, of the saved Jacobian rows with
    the adjoint rows of their samples, over the gradient samples with
    [structure_offsets[structure] + atom] equal to [atom]; and [backward]
    does return when the saved data fit their buffers.  That the gradient
    tensor is contiguous and on the CPU is only checked by the plain
    [assert] of line 217, where the cell path has an [always_assert]
    (line 280): for the transposed positions of [Golden] a release build
    returns a tensor that holds the sums in row-major order in a storage
    with the strides of the positions, so that its entry [0][1] is 13209,
    the sum that belongs to [0][2], and not 8765; a debug build stops at the
    assertion. *)
Theorem positions_gradient_needs_contiguous_positions :
  (forall (ndebug : bool) (R : Type) (zero : R) (add mul : R -> R -> R)
          (all_positions all_cells : Tensor R) calculator systems forward_gradients
          calls out grad_outputs,
     forward new_context all_positions all_cells calculator systems forward_gradients
     = (calls, Ok out) ->
     requires_grad all_positions = true ->
     is_contiguous all_positions = true ->
     is_cpu all_positions = true ->
     grad_outputs <> [] ->
     exists options descriptor jacobians,
       calls = [(systems, options)]
       /\ calculator systems options = Ok descriptor
       /\ copies_of "positions" (keyed_blocks descriptor) jacobians
       /\ (forall res,
             backward ndebug zero add mul (context out) grad_outputs = Ok res ->
             exists positions_grad,
               res !! 0%nat = Some (Some positions_grad)
               /\ sizes positions_grad = sizes all_positions
               /\ is_contiguous positions_grad = true
               /\ length (data positions_grad) = length (data all_positions)
               /\ forall atom direction,
                    0 <= direction < 3 ->
                    0 <= atom * 3 + direction
                    < Z.of_nat (length (data all_positions)) ->
                    data positions_grad !! Z.to_nat (atom * 3 + direction)
                    = Some (positions_gradient_at zero add mul (int64_offsets systems)
                              jacobians (contiguous <$> grad_outputs) atom direction))
       /\ (positions_fit (int64_offsets systems) all_positions jacobians
                         (contiguous <$> grad_outputs) ->
           requires_grad all_cells = false ->
           exists res,
             backward ndebug zero add mul (context out) grad_outputs = Ok res))
  /\ (exists out positions_grad,
        Golden.run Golden.transposed_positions (Golden.all_cells false)
        = ([(Golden.systems, mkOptions ["positions"] false)], Ok out)
        /\ backward true 0 Z.add Z.mul (context out) [Golden.adjoint]
           = Ok [Some positions_grad; None; None; None; None; None]
        /\ sizes positions_grad = [2; 3]
        /\ strides positions_grad = [1; 2]
        /\ data positions_grad = Golden.positions_golden
        /\ element positions_grad [0; 1] = Some 13209
        /\ positions_gradient_at 0 Z.add Z.mul (structure_offsets Golden.systems)
             [standalone Golden.positions_gradient] [Golden.adjoint] 0 1 = 8765
        /\ backward false 0 Z.add Z.mul (context out) [Golden.adjoint]
           = Err (AssertFailed positions_grad_layout)).
Proof.
  split.
  - intros ndebug R zero add mul all_positions all_cells calculator systems
      forward_gradients calls out grad_outputs.
    apply positions_gradient_of_contiguous_positions.
  - exists (Example.output_of
              (Golden.run Golden.transposed_positions (Golden.all_cells false)).2),
           (mkTensor [2; 3] [1; 2] Golden.positions_golden false true).
    repeat split; vm_compute; reflexivity.
Qed.

(** ** The statements above, on the small calculator *)

Section Witnesses.
Import Example.

Lemma positions_gradient_needs_contiguous_positions_witness :
  exists res positions_grad,
    backward false 0 Z.add Z.mul
      (Golden.context_of (Golden.all_positions true) (Golden.all_cells false))
      [Golden.adjoint] = Ok res
    /\ res !! 0%nat = Some (Some positions_grad)
    /\ sizes positions_grad = [2; 3]
    /\ is_contiguous positions_grad = true
    /\ data positions_grad = [4321; 8765; 13209; 309867653; 354312097; 398756541].
Proof.
  destruct positions_gradient_needs_contiguous_positions as [Hclaim _].
  destruct (Hclaim false Z 0 Z.add Z.mul
              (Golden.all_positions true) (Golden.all_cells false) Golden.calculator
              Golden.systems []
              (Golden.run (Golden.all_positions true) (Golden.all_cells false)).1
              (output_of (Golden.run (Golden.all_positions true)
                                     (Golden.all_cells false)).2)
              [Golden.adjoint])
    as (options & descriptor & jacobians & Hcalls & Hcalc & Hcopies & Hgradient & Hreturns);
    [vm_compute; reflexivity | reflexivity | reflexivity | reflexivity | discriminate |].
  vm_compute in Hcalls. injection Hcalls as <-.
  vm_compute in Hcalc. injection Hcalc as <-.
  inversion Hcopies as [|b g l l' (gb & Hgb & Hg) Hrest]; subst.
  inversion Hrest; subst. vm_compute in Hgb. injection Hgb as <-.
  destruct Hreturns as [res Hres]; [|reflexivity|].
  { split; [reflexivity|]. split; [reflexivity|].
    constructor; [|constructor]. repeat (split; [reflexivity|]).
    intros r Hr. assert (r = 0 \/ r = 1 \/ r = 2) as [->|[->| ->]] by (simpl in Hr; lia);
      vm_compute; intuition (first [reflexivity | discriminate]). }
  destruct (Hgradient res Hres)
    as (positions_grad & H0 & Hsizes & Hcontiguous & Hlength & Hentries).
  exists res, positions_grad. split; [exact Hres|]. split; [exact H0|].
  split; [exact Hsizes|]. split; [exact Hcontiguous|].
  apply list_eq. intros k.
  destruct (decide (k < 6)%nat) as [Hk|Hk].
  - pose proof (Hentries 0 0 ltac:(lia) ltac:(simpl; lia)) as E0.
    pose proof (Hentries 0 1 ltac:(lia) ltac:(simpl; lia)) as E1.
    pose proof (Hentries 0 2 ltac:(lia) ltac:(simpl; lia)) as E2.
    pose proof (Hentries 1 0 ltac:(lia) ltac:(simpl; lia)) as E3.
    pose proof (Hentries 1 1 ltac:(lia) ltac:(simpl; lia)) as E4.
    pose proof (Hentries 1 2 ltac:(lia) ltac:(simpl; lia)) as E5.
    vm_compute in E0, E1, E2, E3, E4, E5.
    destruct k as [|[|[|[|[|[|k]]]]]];
      [exact E0 | exact E1 | exact E2 | exact E3 | exact E4 | exact E5 | lia].
  - rewrite !lookup_ge_None_2; [done | simpl; lia | rewrite Hlength; simpl; lia].
Defined.


Lemma forward_rejects_unrecognized_gradient_witness :
  exists p, p ∈ ["positions"; "energy"] /\ p <> "positions" /\ p <> "cell" /\
    run calculator true true ["positions"; "energy"]
    = ([], Err (ValueError ("invalid parameter in forward gradients: " +:+ p))).
Proof.
  apply (forward_rejects_unrecognized_gradient new_context (all_positions true)
           (all_cells true) calculator systems ["positions"; "energy"]).
  exists "energy". split; [right; left|]. split; discriminate.
Defined.

Lemma computed_gradients_are_requested_or_required_witness :
  let call := (systems, mkOptions ["positions"; "cell"] false) in
  (run calculator false true ["positions"]).1 = [call]
  /\ call.1 = systems
  /\ (forall p, p ∈ gradients call.2 <->
        p ∈ ["positions"]
        \/ (p = "positions" /\ requires_grad (all_positions false) = true)
        \/ (p = "cell" /\ requires_grad (all_cells true) = true))
  /\ ("positions" ∈ gradients call.2 <->
        "positions" ∈ ["positions"] \/ requires_grad (all_positions false) = true)
  /\ ("cell" ∈ gradients call.2 <->
        "cell" ∈ ["positions"] \/ requires_grad (all_cells true) = true).
Proof.
  apply (computed_gradients_are_requested_or_required new_context (all_positions false)
           (all_cells true) calculator systems ["positions"]
           (systems, mkOptions ["positions"; "cell"] false)).
  left.
Defined.

Lemma forward_returns_requested_gradients_witness :
  let out := output_of (run calculator false true ["positions"]).2 in
  exists options descriptor,
    (run calculator false true ["positions"]).1 = [(systems, options)]
    /\ calculator systems options = Ok descriptor
    /\ ((forall p, p ∈ gradients options -> p ∈ ["positions"]) ->
        tensor_map out = descriptor)
    /\ (~ (forall p, p ∈ gradients options -> p ∈ ["positions"]) ->
        keys (tensor_map out) = keys descriptor
        /\ Forall2 (filtered_block ["positions"])
                   (keyed_blocks descriptor) (blocks (tensor_map out))
        /\ forall p new_block,
             p ∈ gradients options -> p ∉ ["positions"] ->
             new_block ∈ blocks (tensor_map out) ->
             gradient new_block p = Err LibraryError).
Proof.
  apply (forward_returns_requested_gradients new_context (all_positions false)
           (all_cells true) calculator systems ["positions"]
           (run calculator false true ["positions"]).1
           (output_of (run calculator false true ["positions"]).2)).
  vm_compute. reflexivity.
Defined.

Lemma forward_saves_for_required_inputs_witness :
  let out := output_of (run calculator false true ["positions"]).2 in
  exists options descriptor,
    (run calculator false true ["positions"]).1 = [(systems, options)]
    /\ calculator systems options = Ok descriptor
    /\ saved_variables (context out) = [all_positions false; all_cells true]
    /\ saved_data (context out) !! "structures_start"
       = Some (IIntList (int64_offsets systems))
    /\ (if requires_grad (all_positions false)
        then exists copies,
               copies_of "positions" (keyed_blocks descriptor) copies
               /\ saved_data (context out) !! "positions_gradients"
                  = Some (IList (IBlock <$> copies))
        else saved_data (context out) !! "positions_gradients" = None)
    /\ (if requires_grad (all_cells true)
        then exists copies,
               copies_of "cell" (keyed_blocks descriptor) copies
               /\ saved_data (context out) !! "cell_gradients"
                  = Some (IList (IBlock <$> copies))
               /\ saved_data (context out) !! "samples"
                  = Some (IList (ILabels <$> (samples <$> keyed_blocks descriptor)))
        else saved_data (context out) !! "cell_gradients" = None
             /\ saved_data (context out) !! "samples" = None)
    /\ (forall key v, saved_data (context out) !! key = Some v ->
                      holds_tensor_map v = false).
Proof.
  apply (forward_saves_for_required_inputs (all_positions false) (all_cells true)
           calculator systems ["positions"]
           (run calculator false true ["positions"]).1
           (output_of (run calculator false true ["positions"]).2)).
  vm_compute. reflexivity.
Defined.

(** C6, as the specification words it, fails: the "positions" gradients
    are computed at the request of [forward_gradients], the positions do
    not require gradients, and the context does not hold them. *)
Lemma computed_positions_gradients_not_saved :
  exists calls out,
    run calculator false false ["positions"] = (calls, Ok out)
    /\ (exists call, call ∈ calls /\ "positions" ∈ gradients call.2)
    /\ saved_data (context out) !! "positions_gradients" = None
    /\ ~ saves_every_computed_gradient calls out.
Proof.
  exists (run calculator false false ["positions"]).1,
         (output_of (run calculator false false ["positions"]).2).
  split; [vm_compute; reflexivity|].
  split; [eexists; split; [left | left]|].
  split; [vm_compute; reflexivity|].
  intros H.
  destruct (H (systems, mkOptions ["positions"] false) "positions") as [v Hv].
  - left.
  - left.
  - vm_compute in Hv. discriminate.
Defined.

Lemma cell_samples_are_checked_witness :
  backward true 0 Z.add Z.mul (context_after anonymous_calculator false true []) [adjoint]
  = Err structure_missing
  /\ backward true 0 Z.add Z.mul (context_after two_block_calculator false true [])
       [adjoint; adjoint]
     = Err (AssertFailed cell_same_names).
Proof.
  split.
  - destruct (cell_samples_are_checked true 0 Z.add Z.mul
                (context_after anonymous_calculator false true []) [adjoint]
                (all_positions false) (all_cells true) [0] None
                [standalone cell_gradient] [mkLabels ["center"] 2 [0; 1]]
                (mkLabels ["center"] 2 [0; 1])) as [Hmissing _];
      [first [reflexivity | discriminate]..|].
    apply Hmissing. vm_compute. intros H.
    apply list_elem_of_singleton in H. discriminate.
  - destruct (cell_samples_are_checked true 0 Z.add Z.mul
                (context_after two_block_calculator false true []) [adjoint; adjoint]
                (all_positions false) (all_cells true) [0] None
                [standalone cell_gradient; standalone cell_gradient]
                [block_samples; other_samples] block_samples) as [_ Hdiffer];
      [first [reflexivity | discriminate]..|].
    destruct (Hdiffer 1%nat other_samples) as [_ Hstop];
      [reflexivity | discriminate |].
    eapply Hstop; [left | vm_compute; reflexivity].
Defined.

Lemma positions_sample_names_are_checked_witness :
  (forall res,
     backward true 0 Z.add Z.mul (context_after misnamed_calculator true false []) [adjoint]
     <> Ok res)
  /\ exists a, a ∈ positions_names_checks
       /\ backward true 0 Z.add Z.mul (context_after misnamed_calculator true false [])
            [adjoint] = Err (AssertFailed a).
Proof.
  destruct (positions_sample_names_are_checked true 0 Z.add Z.mul
              (context_after misnamed_calculator true false []) [adjoint]
              (all_positions true) (all_cells false) [0]
              [mkBlock (values positions_gradient)
                       (mkLabels ["sample"; "atom"; "structure"] 3
                                 [0; 0; 0; 0; 0; 1; 1; 0; 1])
                       [directions] block_properties []]
              0%nat
              (mkBlock (values positions_gradient)
                       (mkLabels ["sample"; "atom"; "structure"] 3
                                 [0; 0; 0; 0; 0; 1; 1; 0; 1])
                       [directions] block_properties [])) as [Hnever Hstop];
    [first [reflexivity | discriminate]..|].
  split; [exact Hnever|].
  eapply Hstop; reflexivity.
Defined.

Lemma backward_no_adjoints_no_gradients_witness :
  backward true 0 Z.add Z.mul (context_after calculator true true ["cell"]) []
  = Ok [None; None; None; None; None; None]
  /\ exists positions_grad cell_grad,
       returned (round_trip calculator true true [] [adjoint])
       = [positions_grad; cell_grad; None; None; None; None].
Proof.
  destruct (backward_no_adjoints_no_gradients true 0 Z.add Z.mul) as (_ & Hforward & Hshape).
  split.
  - apply (Hforward (all_positions true) (all_cells true) calculator systems ["cell"]
             (run calculator true true ["cell"]).1
             (output_of (run calculator true true ["cell"]).2)).
    vm_compute. reflexivity.
  - apply (Hshape (context_after calculator true true []) [adjoint]).
    vm_compute. reflexivity.
Defined.

Lemma all_systems_use_native_first_read_witness :
  all_systems_use_native [mkSystem true 2; mkSystem false 1] = Err native_mismatch
  /\ all_systems_use_native systems = Ok false
  /\ forward new_context (all_positions true) (all_cells true) calculator [] ["cell"]
     = ([], Err UndefinedBehavior).
Proof.
  destruct all_systems_use_native_first_read as (Hfirst & _ & Hforward).
  split; [|split].
  - destruct (Hfirst (mkSystem true 2) [mkSystem false 1]) as [[H _]|[H _]];
      [discriminate H | exact H].
  - destruct (Hfirst (mkSystem false 2) []) as [[H _]|[H _]];
      [exact H | discriminate H].
  - apply Hforward. reflexivity.
Defined.

(** The data of the small calculator fits, so [backward] returns on it. *)
Lemma backward_succeeds_witness :
  exists res,
    backward true 0 Z.add Z.mul (context_after calculator true true []) [adjoint] = Ok res.
Proof.
  apply (backward_succeeds true 0 Z.add Z.mul (context_after calculator true true [])
           [adjoint] (all_positions true) (all_cells true) [0]
           [standalone positions_gradient] [standalone cell_gradient] [block_samples]);
    try reflexivity.
  - intros _. split; [reflexivity|].
    split; [reflexivity|]. split; [reflexivity|].
    constructor; [|constructor].
    repeat (split; [reflexivity|]).
    intros r Hr. assert (r = 0 \/ r = 1 \/ r = 2) as [->|[->| ->]] by (simpl in Hr; lia);
      vm_compute; intuition (first [reflexivity | discriminate]).
  - intros _. split; [reflexivity|]. split; [reflexivity|].
    split; [reflexivity|]. split; [reflexivity|]. split; [reflexivity|].
    exists block_samples. split; [reflexivity|]. split; [left|].
    constructor; [|constructor].
    split; [reflexivity|]. split; [vm_compute; discriminate|].
    repeat (split; [reflexivity|]).
    intros r Hr. assert (r = 0 \/ r = 1) as [->| ->] by (simpl in Hr; lia);
      vm_compute; intuition (first [reflexivity | discriminate]).
Defined.
End Witnesses.


(** * Further properties of the code *)

(** ** [contains] and [std::find] (lines 30-32, 285-295) *)

(** X1. [contains] is membership, and the position [std::find] returns is
    that of the first occurrence of the needle, the length of the haystack
    when it does not occur. *)
Theorem contains_is_membership (haystack : list string) (needle : string) :
  (contains haystack needle = true <-> needle ∈ haystack)
  /\ (needle ∈ haystack ->
      haystack !! find haystack needle = Some needle
      /\ forall i, (i < find haystack needle)%nat -> haystack !! i <> Some needle)
  /\ (needle ∉ haystack -> find haystack needle = length haystack).
Proof.
  split; [apply contains_spec|]. split; [|apply find_end].
  intros Hin. split; [by apply find_lookup|].
  clear Hin. induction haystack as [|x l IH]; intros i Hi; simpl in *; [lia|].
  destruct (decide (x = needle)) as [->|Hne]; [lia|].
  destruct i as [|i]; simpl; [intros [= ?]; contradiction|]. apply IH. lia.
Qed.

(** ** The structure offsets (lines 96-101) *)

Lemma sum_sizes_snoc (l : list Z) (x : Z) :
  foldr Z.add 0 (l ++ [x]) = foldr Z.add 0 l + x.
Proof. induction l as [|y l IH]; simpl; lia. Qed.

Lemma structures_start_lookup (systems : list TorchSystem) (i : nat) :
  (i < length systems)%nat ->
  structures_start_of systems !! i
  = Some (to_int64 (foldr Z.add 0 (system_size <$> take i systems))).
Proof.
  intros Hi. rewrite structures_start_of_offsets. unfold int64_offsets, structure_offsets.
  rewrite !list_lookup_fmap, lookup_seq_lt by done. done.
Qed.

Lemma sum_sizes_take (l : list Z) (i : nat) :
  (forall x, x ∈ l -> 0 <= x) ->
  0 <= foldr Z.add 0 (take i l) <= foldr Z.add 0 l.
Proof.
  revert i. induction l as [|x l IH]; intros i Hl; [by destruct i; simpl|].
  assert (0 <= x) by (apply Hl; left).
  assert (forall y, y ∈ l -> 0 <= y) as Hl' by (intros y Hy; apply Hl; by right).
  destruct i as [|i]; simpl.
  - pose proof (IH 0%nat Hl'). rewrite take_0 in *. simpl in *. lia.
  - pose proof (IH i Hl'). lia.
Qed.

(** X2. [structures_start] has one entry per system; the first is 0, and
    each next one is the one before it plus the size of its system, as the
    64-bit integer this sum is stored in.  When no size is negative and all
    the atoms together are fewer than 2^63, nothing wraps: the entries are
    the prefix sums of the sizes, each next one adds the size of the system
    before it, and they never decrease. *)
Theorem structures_start_is_a_running_sum (systems : list TorchSystem) :
  length (structures_start_of systems) = length systems
  /\ (systems <> [] -> structures_start_of systems !! 0%nat = Some 0)
  /\ (forall i system start,
        systems !! i = Some system ->
        structures_start_of systems !! i = Some start ->
        (S i < length systems)%nat ->
        structures_start_of systems !! S i
        = Some (to_int64 (start + system_size system)))
  /\ ((forall system, system ∈ systems -> 0 <= system_size system) ->
      foldr Z.add 0 (system_size <$> systems) < 2 ^ 63 ->
      structures_start_of systems = structure_offsets systems
      /\ (forall i system start,
            systems !! i = Some system ->
            structures_start_of systems !! i = Some start ->
            (S i < length systems)%nat ->
            structures_start_of systems !! S i = Some (start + system_size system))
      /\ (forall i j a b,
            (i <= j)%nat ->
            structures_start_of systems !! i = Some a ->
            structures_start_of systems !! j = Some b ->
            a <= b)).
Proof.
  assert (length (structures_start_of systems) = length systems) as Hlen.
  { rewrite structures_start_of_offsets. unfold int64_offsets, structure_offsets.
    by rewrite !length_fmap, length_seq. }
  split; [done|]. split; [|split].
  - intros Hne. rewrite structures_start_lookup; [done|].
    destruct systems; [done | simpl; lia].
  - intros i system start Hsystem Hstart Hnext.
    rewrite structures_start_lookup in Hstart by (apply lookup_lt_Some in Hsystem; lia).
    injection Hstart as <-. rewrite structures_start_lookup by done.
    rewrite (take_S_r _ _ _ Hsystem), fmap_app. simpl.
    by rewrite sum_sizes_snoc, to_int64_add_l.
  - intros Hsizes Htotal.
    assert (forall x, x ∈ system_size <$> systems -> 0 <= x) as Hsizes'.
    { intros x Hx. apply list_elem_of_fmap in Hx as (system & -> & Hsystem).
      by apply Hsizes. }
    assert (forall i, (i < length systems)%nat ->
              structures_start_of systems !! i
              = Some (foldr Z.add 0 (system_size <$> take i systems))) as Hexact.
    { intros i Hi. rewrite structures_start_lookup by done. f_equal.
      apply to_int64_small. rewrite fmap_take.
      pose proof (sum_sizes_take (system_size <$> systems) i Hsizes'). lia. }
    assert (forall i system start,
              systems !! i = Some system ->
              structures_start_of systems !! i = Some start ->
              (S i < length systems)%nat ->
              structures_start_of systems !! S i = Some (start + system_size system))
      as Hstep.
    { intros i system start Hsystem Hstart Hnext.
      rewrite Hexact in Hstart by (apply lookup_lt_Some in Hsystem; lia).
      injection Hstart as <-. rewrite Hexact by done.
      rewrite (take_S_r _ _ _ Hsystem), fmap_app. simpl. by rewrite sum_sizes_snoc. }
    split; [|split; [done|]].
    + apply list_eq. intros i. destruct (decide (i < length systems)%nat) as [Hi|Hi].
      * rewrite Hexact by done. unfold structure_offsets.
        by rewrite list_lookup_fmap, lookup_seq_lt.
      * rewrite !lookup_ge_None_2; [done| |lia].
        unfold structure_offsets. rewrite length_fmap, length_seq. lia.
    + intros i j a b Hij. revert b.
      induction Hij as [|j Hij IH]; intros b Ha Hb;
        [assert (a = b) by congruence; lia|].
      assert (S j < length systems)%nat as Hj.
      { apply lookup_lt_Some in Hb. lia. }
      destruct (lookup_lt_is_Some_2 systems j) as [system Hsystem]; [lia|].
      destruct (lookup_lt_is_Some_2 (structures_start_of systems) j) as [c Hc]; [lia|].
      rewrite (Hstep _ _ _ Hsystem Hc Hj) in Hb. injection Hb as <-.
      pose proof (IH c Ha Hc).
      pose proof (Hsizes system (list_elem_of_lookup_2 _ _ _ Hsystem)).
      lia.
Qed.

(** ** [extract_gradient_blocks] (lines 34-52) *)

Lemma for_each_err {I S} (P : error -> Prop) (range : list I)
    (body : I -> S -> result S) :
  (forall i s e, i ∈ range -> body i s = Err e -> P e) ->
  forall s e, for_each range body s = Err e -> P e.
Proof.
  induction range as [|i range IH]; intros Hbody s e H; simpl in H; [discriminate|].
  destruct (body i s) as [s'|e'] eqn:Hs.
  - eapply IH; [|exact H]. intros j t e0 Hj. apply Hbody. by right.
  - injection H as <-. eapply Hbody; [left | exact Hs].
Qed.

Lemma block_by_id_err {R} (tensor : TensorMap R) (i : Z) e :
  block_by_id tensor i = Err e -> e = LibraryError.
Proof.
  unfold block_by_id. destruct (decide (0 <= i)); [|by intros [= <-]].
  destruct (blocks tensor !! Z.to_nat i); [discriminate | by intros [= <-]].
Qed.

Lemma gradient_err {R} (block : TensorBlock R) parameter e :
  gradient block parameter = Err e -> e = LibraryError.
Proof.
  unfold gradient. induction (block_gradients block) as [|[name g] l IH]; simpl.
  - by intros [= <-].
  - destruct (decide (name = parameter)); [discriminate | done].
Qed.

Lemma keyed_block_lookup {R} (tensor : TensorMap R) (i : Z) :
  0 <= i < count (keys tensor) ->
  count (keys tensor) <= Z.of_nat (length (blocks tensor)) ->
  exists b, block_by_id tensor i = Ok b /\ b ∈ keyed_blocks tensor.
Proof.
  intros Hi Hlen.
  destruct (lookup_lt_is_Some_2 (blocks tensor) (Z.to_nat i)) as [b Hb]; [lia|].
  exists b. split; [apply block_by_id_ok; split; [lia | done]|].
  unfold keyed_blocks. apply (list_elem_of_lookup_2 _ (Z.to_nat i)).
  rewrite lookup_take_lt by lia. done.
Qed.

Lemma collect_blocks_total {R B} (tensor : TensorMap R) (f : TensorBlock R -> result B)
    (body : Z -> list B -> result (list B)) :
  (forall i acc, body i acc = b ← block_by_id tensor i; y ← f b; Ok (acc ++ [y])) ->
  count (keys tensor) <= Z.of_nat (length (blocks tensor)) ->
  (forall b, b ∈ keyed_blocks tensor -> is_ok (f b)) ->
  is_ok (for_each (seqZ 0 (count (keys tensor))) body []).
Proof.
  intros Hbody Hlen Hf.
  edestruct (for_each_total (fun _ : list B => True) (seqZ 0 (count (keys tensor))) body)
    as (res & Hres & _); [|done|by exists res].
  intros i s Hi _. apply elem_of_seqZ in Hi. rewrite Hbody.
  destruct (keyed_block_lookup tensor i) as (b & -> & Hb); [lia | done |].
  destruct (Hf b Hb) as [y Hy]. simpl. rewrite Hy. simpl. eauto.
Qed.

Lemma collect_blocks_count {R B} (tensor : TensorMap R) (f : TensorBlock R -> result B)
    (body : Z -> list B -> result (list B)) (res : list B) :
  (forall i acc, body i acc = b ← block_by_id tensor i; y ← f b; Ok (acc ++ [y])) ->
  for_each (seqZ 0 (count (keys tensor))) body [] = Ok res ->
  count (keys tensor) <= Z.of_nat (length (blocks tensor)).
Proof.
  intros Hbody Hrun.
  destruct (decide (0 <= count (keys tensor))) as [Hn|Hn]; [|lia].
  rewrite <- (Z2Nat.id (count (keys tensor))) in Hrun by done.
  destruct (collect_blocks_nat tensor f body Hbody _ _ _ Hrun) as (_ & _ & _ & H).
  lia.
Qed.

Lemma extract_gradient_blocks_body {R} (tensor : TensorMap R) parameter i acc :
  (block ← block_by_id tensor i;
   gradient ← gradient block parameter;
   Ok (acc ++ [mkBlock (values gradient) (samples gradient)
                      (components gradient) (properties gradient) []]))
  = b ← block_by_id tensor i;
    y ← (gb ← gradient b parameter; Ok (standalone gb));
    Ok (acc ++ [y]).
Proof.
  destruct (block_by_id tensor i) as [b|e]; simpl; [|done].
  destruct (gradient b parameter) as [gb|e]; done.
Qed.

Lemma extract_gradient_blocks_ok_iff {R} (tensor : TensorMap R) parameter :
  is_ok (extract_gradient_blocks tensor parameter) <->
  count (keys tensor) <= Z.of_nat (length (blocks tensor))
  /\ forall b, b ∈ keyed_blocks tensor -> is_ok (gradient b parameter).
Proof.
  split.
  - intros [copies H]. split.
    + unfold extract_gradient_blocks in H.
      eapply collect_blocks_count; [|exact H].
      intros i acc. apply extract_gradient_blocks_body.
    + apply extract_gradient_blocks_ok in H. intros b Hb.
      apply list_elem_of_lookup in Hb as [i Hi].
      destruct (Forall2_lookup_l _ _ _ _ _ H Hi) as (g & _ & gb & Hgb & _).
      by exists gb.
  - intros [Hlen Hgradients]. unfold extract_gradient_blocks.
    eapply collect_blocks_total; [| exact Hlen |].
    + intros i acc. apply extract_gradient_blocks_body.
    + intros b Hb. destruct (Hgradients b Hb) as [gb ->]. by eexists.
Qed.

(** X3. [extract_gradient_blocks] returns all or nothing: it succeeds exactly
    when the tensor map has a block for each key and each of these blocks has
    the gradient asked for; it then gives, block by block, a copy of that
    gradient that carries no gradient of its own; and when it fails it is
    with an exception of the tensor-map library. *)
Theorem extract_gradient_blocks_all_or_nothing {R} (tensor : TensorMap R)
    (parameter : string) :
  (forall copies,
     extract_gradient_blocks tensor parameter = Ok copies ->
     copies_of parameter (keyed_blocks tensor) copies
     /\ Forall (fun g => block_gradients g = []) copies)
  /\ (forall e, extract_gradient_blocks tensor parameter = Err e -> e = LibraryError)
  /\ (is_ok (extract_gradient_blocks tensor parameter) <->
      count (keys tensor) <= Z.of_nat (length (blocks tensor))
      /\ forall b, b ∈ keyed_blocks tensor -> is_ok (gradient b parameter)).
Proof.
  split; [|split].
  - intros copies H. pose proof (extract_gradient_blocks_ok _ _ _ H) as Hcopies.
    split; [done|]. clear H.
    induction Hcopies as [|b g l l' (gb & _ & ->) _ IH]; constructor; done.
  - intros e H. unfold extract_gradient_blocks in H.
    eapply (for_each_err (fun e => e = LibraryError)); [|exact H].
    intros i s e0 _ Hbody. cbv beta in Hbody.
    destruct (block_by_id tensor i) as [b|e1] eqn:Hb; simpl in Hbody.
    + destruct (gradient b parameter) as [gb|e2] eqn:Hg; simpl in Hbody; [discriminate|].
      injection Hbody as <-. by eapply gradient_err.
    + injection Hbody as <-. by eapply block_by_id_err.
  - apply extract_gradient_blocks_ok_iff.
Qed.

(** ** [forward] up to the calculator (lines 69-103) *)

Lemma all_systems_use_native_shared (first : TorchSystem) (rest : list TorchSystem) :
  (forall s, s ∈ first :: rest -> use_native_system s = use_native_system first) ->
  all_systems_use_native (first :: rest) = Ok (use_native_system first).
Proof.
  intros Hshared. unfold all_systems_use_native.
  change (read (first :: rest) 0) with (Ok first). cbn [mbind result_bind].
  pose proof (native_loop_spec (use_native_system first) (first :: rest)) as H.
  unfold native_mismatch in *.
  destruct H as [[H _]|[_ (s & Hs & Hdiff)]]; [by rewrite H|].
  by specialize (Hshared s Hs).
Qed.

Lemma all_systems_use_native_differ (systems : list TorchSystem) (s t : TorchSystem) :
  s ∈ systems -> t ∈ systems -> use_native_system s <> use_native_system t ->
  all_systems_use_native systems = Err native_mismatch.
Proof.
  intros Hs Ht Hdiff. destruct systems as [|first rest]; [inversion Hs|].
  unfold all_systems_use_native.
  change (read (first :: rest) 0) with (Ok first). cbn [mbind result_bind].
  pose proof (native_loop_spec (use_native_system first) (first :: rest)) as H.
  unfold native_mismatch in *.
  destruct H as [[_ H]|[H _]]; [|by rewrite H].
  rewrite (H s Hs), (H t Ht) in Hdiff. done.
Qed.

(** X4. When two of the systems disagree on [use_native_system], [forward]
    throws the invalid-argument error about pre-defined neighbor lists
    without having invoked the calculator, whatever the tensors require. *)
Theorem forward_rejects_mixed_systems {R} (ctx : AutogradContext R)
    all_positions all_cells calculator systems forward_gradients s t :
  (forall p, p ∈ forward_gradients -> p = "positions" \/ p = "cell") ->
  s ∈ systems -> t ∈ systems -> use_native_system s <> use_native_system t ->
  forward ctx all_positions all_cells calculator systems forward_gradients
  = ([], Err (ValueError
       "either all or none of the systems should have pre-defined neighbor lists")).
Proof.
  intros Hnames Hs Ht Hdiff. unfold forward.
  rewrite (proj2 (check_forward_gradients_ok forward_gradients)) by exact Hnames.
  by rewrite (all_systems_use_native_differ systems s t).
Qed.

Lemma computed_gradients_cases {R} (all_positions all_cells : Tensor R) forward_gradients :
  computed_gradients all_positions all_cells forward_gradients
  ∈ [[]; ["positions"]; ["cell"]; ["positions"; "cell"]].
Proof.
  unfold computed_gradients.
  destruct (contains forward_gradients "positions" || requires_grad all_positions),
    (contains forward_gradients "cell" || requires_grad all_cells); simpl.
  - do 3 right. left.
  - right. left.
  - do 2 right. left.
  - left.
Qed.

(** X5. With recognized names and systems that share their
    [use_native_system] flag, [forward] invokes the calculator exactly once,
    on the systems it was given; the options carry that flag and the
    channels "positions" and "cell" at most once each and in that order,
    however often [forward_gradients] repeats them; and an exception of the
    calculator is the outcome of [forward]. *)
Theorem forward_invokes_the_calculator_once {R} (ctx : AutogradContext R)
    all_positions all_cells calculator first rest forward_gradients :
  (forall p, p ∈ forward_gradients -> p = "positions" \/ p = "cell") ->
  (forall s, s ∈ first :: rest -> use_native_system s = use_native_system first) ->
  exists options,
    (forward ctx all_positions all_cells calculator (first :: rest) forward_gradients).1
    = [(first :: rest, options)]
    /\ options_use_native_system options = use_native_system first
    /\ gradients options ∈ [[]; ["positions"]; ["cell"]; ["positions"; "cell"]]
    /\ (forall e, calculator (first :: rest) options = Err e ->
                  (forward ctx all_positions all_cells calculator (first :: rest)
                           forward_gradients).2 = Err e).
Proof.
  intros Hnames Hshared. unfold forward.
  rewrite (proj2 (check_forward_gradients_ok forward_gradients)) by exact Hnames.
  rewrite (all_systems_use_native_shared first rest Hshared).
  eexists. split; [reflexivity|]. simpl. split; [done|].
  split; [apply computed_gradients_cases|].
  intros e He. by rewrite He.
Qed.

(** ** [forward] after the calculator (lines 105-177) *)

Lemma filtered_blocks_values {R} forward_gradients (l l' : list (TensorBlock R)) :
  Forall2 (filtered_block forward_gradients) l l' -> values <$> l' = values <$> l.
Proof.
  induction 1 as [|b nb l l' (Hv & _) _ IH]; [done|].
  rewrite !fmap_cons. by rewrite Hv, IH.
Qed.

(** X6. The tensors a successful [forward] returns are the values of the
    blocks of the calculator's output, one per key and in key order, and
    they are also the values of the blocks of the tensor map it writes
    through [tensor_map], whether that is the calculator's output or the
    filtered copy. *)
Theorem forward_returns_the_block_values {R} (ctx : AutogradContext R)
    all_positions all_cells calculator systems forward_gradients calls out :
  forward ctx all_positions all_cells calculator systems forward_gradients
  = (calls, Ok out) ->
  exists options descriptor,
    calls = [(systems, options)]
    /\ calculator systems options = Ok descriptor
    /\ values_by_block out = values <$> keyed_blocks descriptor
    /\ values_by_block out = values <$> keyed_blocks (tensor_map out).
Proof.
  intros H. apply forward_ok in H as (native & descriptor & H); simpl in H.
  destruct H as (_ & _ & -> & Hcalc & Hvalues & _ & Htm).
  eexists _, descriptor. split; [done|]. split; [done|].
  apply values_by_block_of_ok in Hvalues. split; [done|].
  rewrite Hvalues. apply returned_tensor_map_ok in Htm.
  destruct (all_forward_gradients _ _); [by rewrite Htm|].
  destruct Htm as [Hkeys Hblocks]. unfold keyed_blocks at 2. rewrite Hkeys.
  rewrite take_ge.
  - symmetry. by eapply filtered_blocks_values.
  - rewrite <- (Forall2_length _ _ _ Hblocks). unfold keyed_blocks.
    rewrite length_take. lia.
Qed.

Lemma emplace_lookup {R} (ctx : AutogradContext R) (key k : string) (v : IValue R) :
  saved_data (emplace ctx k v) !! key
  = match saved_data ctx !! key with
    | Some x => Some x
    | None => if decide (k = key) then Some v else None
    end.
Proof.
  unfold emplace. destruct (saved_data ctx !! k) as [x|] eqn:Hk; simpl.
  - destruct (saved_data ctx !! key) eqn:Hkey; [done|].
    destruct (decide (k = key)) as [->|]; [congruence | done].
  - destruct (decide (k = key)) as [->|Hne].
    + by rewrite lookup_insert_eq, Hk.
    + rewrite lookup_insert_ne by done. by destruct (saved_data ctx !! key).
Qed.

Lemma emplace_saved_variables {R} (ctx : AutogradContext R) (k : string) (v : IValue R) :
  saved_variables (emplace ctx k v) = saved_variables ctx.
Proof. unfold emplace. by destruct (saved_data ctx !! k). Qed.

Lemma only_adds_refl {R} (ctx ctx' : AutogradContext R) :
  saved_data ctx' = saved_data ctx -> only_adds ctx ctx'.
Proof. intros H. split; intros key; rewrite H; auto. Qed.

Lemma only_adds_emplace {R} (before ctx : AutogradContext R) (k : string) (v : IValue R) :
  k ∈ saved_keys -> only_adds before ctx -> only_adds before (emplace ctx k v).
Proof.
  intros Hk [Hkeep Hnew]. split; intros key.
  - intros x Hx. rewrite emplace_lookup, (Hkeep _ _ Hx). done.
  - rewrite emplace_lookup. destruct (saved_data ctx !! key) as [x|] eqn:Hkey.
    + intros _. apply Hnew. by rewrite Hkey.
    + destruct (decide (k = key)) as [<-|]; [by right | by intros [? [=]]].
Qed.

(** X7. [forward] replaces the saved variables by the two input tensors, and
    it only adds to [saved_data]: an entry that the context already held,
    under any key, is still there with the value it had ([emplace] does not
    overwrite), and the keys that appear are among "structures_start",
    "positions_gradients", "cell_gradients" and "samples". *)
Theorem forward_only_adds_to_saved_data {R} (ctx : AutogradContext R)
    all_positions all_cells calculator systems forward_gradients calls out :
  forward ctx all_positions all_cells calculator systems forward_gradients
  = (calls, Ok out) ->
  saved_variables (context out) = [all_positions; all_cells]
  /\ only_adds ctx (context out).
Proof.
  intros H. apply forward_ok in H as (native & descriptor & H); simpl in H.
  destruct H as (_ & _ & _ & _ & _ & Hctx & _). revert Hctx.
  generalize (context out) as ctx'. intros ctx'. unfold save_context.
  assert (forall k, k ∈ saved_keys ->
            forall c v, saved_variables c = [all_positions; all_cells] /\ only_adds ctx c ->
                        saved_variables (emplace c k v) = [all_positions; all_cells]
                        /\ only_adds ctx (emplace c k v)) as Hstep.
  { intros k Hk c v [Hv Ha]. split; [by rewrite emplace_saved_variables|].
    by apply only_adds_emplace. }
  assert (saved_variables (save_for_backward ctx [all_positions; all_cells])
          = [all_positions; all_cells]
          /\ only_adds ctx (save_for_backward ctx [all_positions; all_cells])) as H0.
  { split; [done | by apply only_adds_refl]. }
  apply (Hstep "structures_start") with (v := IIntList (structures_start_of systems))
    in H0; [|apply list_elem_of_In; simpl; auto 6].
  revert H0.
  generalize (emplace (save_for_backward ctx [all_positions; all_cells])
                "structures_start" (IIntList (structures_start_of systems))).
  intros c0 H0 H.
  apply bind_ok in H as (c1 & Hc1 & H).
  assert (saved_variables c1 = [all_positions; all_cells] /\ only_adds ctx c1) as H1.
  { destruct (requires_grad all_positions).
    - apply bind_ok in Hc1 as (gs & _ & [= <-]).
      apply Hstep; [apply list_elem_of_In; simpl; auto 6 | done].
    - by injection Hc1 as <-. }
  destruct (requires_grad all_cells); [|by injection H as <-].
  apply bind_ok in H as (gs & _ & H). apply bind_ok in H as (ss & _ & [= <-]).
  apply Hstep; [apply list_elem_of_In; simpl; auto 6|].
  apply Hstep; [apply list_elem_of_In; simpl; auto 6 | done].
Qed.

Lemma values_by_block_of_total {R} (descriptor : TensorMap R) :
  count (keys descriptor) <= Z.of_nat (length (blocks descriptor)) ->
  values_by_block_of descriptor = Ok (values <$> keyed_blocks descriptor).
Proof.
  intros Hlen.
  destruct (collect_blocks_total descriptor (fun b => Ok (values b))
              (fun i values_by_block =>
                 block ← block_by_id descriptor i;
                 Ok (values_by_block ++ [values block]))) as [vs Hvs];
    [|done| |].
  - intros i acc. destruct (block_by_id descriptor i); done.
  - intros b _. by eexists.
  - unfold values_by_block_of. rewrite Hvs. f_equal.
    by apply values_by_block_of_ok.
Qed.

Lemma all_samples_of_total {R} (descriptor : TensorMap R) :
  count (keys descriptor) <= Z.of_nat (length (blocks descriptor)) ->
  all_samples_of descriptor = Ok (samples <$> keyed_blocks descriptor).
Proof.
  intros Hlen.
  destruct (collect_blocks_total descriptor (fun b => Ok (samples b))
              (fun i all_samples =>
                 block ← block_by_id descriptor i;
                 Ok (all_samples ++ [samples block]))) as [vs Hvs];
    [|done| |].
  - intros i acc. destruct (block_by_id descriptor i); done.
  - intros b _. by eexists.
  - unfold all_samples_of. rewrite Hvs. f_equal.
    by apply all_samples_of_ok.
Qed.

Lemma computed_without_requires_grad {R} (all_positions all_cells : Tensor R)
    forward_gradients :
  requires_grad all_positions = false -> requires_grad all_cells = false ->
  all_forward_gradients forward_gradients
    (computed_gradients all_positions all_cells forward_gradients) = true.
Proof.
  intros Hp Hc. apply all_forward_gradients_spec. intros p Hin.
  apply elem_of_computed_gradients in Hin. rewrite Hp, Hc in Hin.
  destruct Hin as [[-> [H|H]]|[-> [H|H]]]; done.
Qed.

(** X8. When neither input tensor requires gradients, [forward] on the
    context of a new node does nothing but pass the calculator's output on:
    it returns the values of its blocks, saves the two tensors and the
    structure offsets and nothing else, and hands the calculator's output
    over unmodified.  It does not look into the output for the gradients it
    asked for. *)
Theorem forward_without_requires_grad {R} (all_positions all_cells : Tensor R)
    calculator systems forward_gradients native descriptor :
  (forall p, p ∈ forward_gradients -> p = "positions" \/ p = "cell") ->
  all_systems_use_native systems = Ok native ->
  requires_grad all_positions = false ->
  requires_grad all_cells = false ->
  calculator systems
    (mkOptions (computed_gradients all_positions all_cells forward_gradients) native)
  = Ok descriptor ->
  count (keys descriptor) <= Z.of_nat (length (blocks descriptor)) ->
  forward new_context all_positions all_cells calculator systems forward_gradients
  = ([(systems,
       mkOptions (computed_gradients all_positions all_cells forward_gradients) native)],
     Ok (mkForwardOutput
           (values <$> keyed_blocks descriptor)
           (mkContext [all_positions; all_cells]
                      (<["structures_start" := IIntList (int64_offsets systems)]> ∅))
           descriptor)).
Proof.
  intros Hnames Hnative Hp Hc Hcalc Hlen. unfold forward.
  rewrite (proj2 (check_forward_gradients_ok forward_gradients)) by exact Hnames.
  rewrite Hnative, Hcalc. cbn [mbind result_bind]. unfold after_compute.
  rewrite values_by_block_of_total by done. cbn [mbind result_bind].
  unfold save_context. rewrite Hp, Hc. cbn [mbind result_bind].
  unfold returned_tensor_map. rewrite computed_without_requires_grad by done.
  cbn [mbind result_bind]. by rewrite structures_start_of_offsets.
Qed.

Lemma new_block_of_total {R} (block : TensorBlock R) forward_gradients :
  (forall p, p ∈ forward_gradients -> is_ok (gradient block p)) ->
  is_ok (new_block_of block forward_gradients).
Proof.
  intros H. unfold new_block_of.
  edestruct (for_each_total (fun _ : TensorBlock R => True) forward_gradients)
    as (nb & Hnb & _); [|done|by exists nb].
  intros p s Hp _. destruct (H p Hp) as [g ->]. simpl. eauto.
Qed.

(** X9. [forward] returns whenever the calculator returns a tensor map that
    has a block for each of its keys, each with the gradients that the
    options asked for. *)
Theorem forward_returns_on_honoured_options {R} (ctx : AutogradContext R)
    all_positions all_cells calculator systems forward_gradients native descriptor :
  (forall p, p ∈ forward_gradients -> p = "positions" \/ p = "cell") ->
  all_systems_use_native systems = Ok native ->
  calculator systems
    (mkOptions (computed_gradients all_positions all_cells forward_gradients) native)
  = Ok descriptor ->
  count (keys descriptor) <= Z.of_nat (length (blocks descriptor)) ->
  (forall b p,
     b ∈ keyed_blocks descriptor ->
     p ∈ computed_gradients all_positions all_cells forward_gradients ->
     is_ok (gradient b p)) ->
  exists out,
    forward ctx all_positions all_cells calculator systems forward_gradients
    = ([(systems,
         mkOptions (computed_gradients all_positions all_cells forward_gradients)
                   native)],
       Ok out).
Proof.
  intros Hnames Hnative Hcalc Hlen Hgradients. unfold forward.
  rewrite (proj2 (check_forward_gradients_ok forward_gradients)) by exact Hnames.
  rewrite Hnative, Hcalc. cbn [mbind result_bind]. unfold after_compute.
  rewrite values_by_block_of_total by done. cbn [mbind result_bind].
  assert (forall p, p ∈ computed_gradients all_positions all_cells forward_gradients ->
                    is_ok (extract_gradient_blocks descriptor p)) as Hextract.
  { intros p Hp. apply extract_gradient_blocks_ok_iff. split; [done|].
    intros b Hb. by apply Hgradients. }
  assert (is_ok (save_context ctx all_positions all_cells (structures_start_of systems)
                              descriptor)) as [ctx' Hctx].
  { unfold save_context.
    destruct (requires_grad all_positions) eqn:Hp.
    - destruct (Hextract "positions") as [pgs ->].
      { apply elem_of_computed_gradients. left. auto. }
      cbn [mbind result_bind].
      destruct (requires_grad all_cells) eqn:Hc; [|by eexists].
      destruct (Hextract "cell") as [cgs ->].
      { apply elem_of_computed_gradients. right. auto. }
      cbn [mbind result_bind]. rewrite all_samples_of_total by done. by eexists.
    - cbn [mbind result_bind].
      destruct (requires_grad all_cells) eqn:Hc; [|by eexists].
      destruct (Hextract "cell") as [cgs ->].
      { apply elem_of_computed_gradients. right. auto. }
      cbn [mbind result_bind]. rewrite all_samples_of_total by done. by eexists. }
  rewrite Hctx. cbn [mbind result_bind].
  assert (is_ok (returned_tensor_map descriptor forward_gradients
                   (all_forward_gradients forward_gradients
                      (computed_gradients all_positions all_cells forward_gradients))))
    as [tm Htm].
  { unfold returned_tensor_map. destruct (all_forward_gradients _ _); [by eexists|].
    destruct (collect_blocks_total descriptor
                (fun b => new_block_of b forward_gradients)
                (fun i new_blocks =>
                   block ← block_by_id descriptor i;
                   new_block ← new_block_of block forward_gradients;
                   Ok (new_blocks ++ [new_block]))) as [nbs Hnbs]; [|done| |].
    - intros i acc. destruct (block_by_id descriptor i); done.
    - intros b Hb. apply new_block_of_total. intros p Hp. apply Hgradients; [done|].
      apply elem_of_computed_gradients.
      destruct (Hnames p Hp) as [-> | ->]; [left | right]; auto.
    - rewrite Hnbs. by eexists. }
  rewrite Htm. by eexists.
Qed.

(** ** [backward]: the frame (lines 185-209, 351-358) *)

Section BackwardFurther.
Context (ndebug : bool) {R : Type} (zero : R) (add mul : R -> R -> R).

(** X10. When neither saved tensor requires gradients, [backward] returns six
    undefined tensors for any adjoints, without reading the saved gradient
    blocks: they need not even be there. *)
Theorem backward_without_requires_grad (ctx : AutogradContext R) grad_outputs
    all_positions all_cells structures_start :
  saved_variables ctx !! 0%nat = Some all_positions ->
  saved_variables ctx !! 1%nat = Some all_cells ->
  saved ctx "structures_start" = IIntList structures_start ->
  requires_grad all_positions = false ->
  requires_grad all_cells = false ->
  backward ndebug zero add mul ctx grad_outputs = Ok [None; None; None; None; None; None].
Proof.
  intros H0 H1 Hs Hp Hc. rewrite (backward_unfold ndebug zero add mul _ _ _ _ _ H0 H1 Hs).
  destruct (decide (Z.of_nat (length grad_outputs) = 0)); [done|].
  unfold positions_path, cell_path. by rewrite Hp, Hc.
Qed.

(** X11. Given at least one adjoint, a gradient that [backward] returns is
    defined exactly when the corresponding saved tensor requires gradients:
    the positions gradient in the first place, the cell gradient in the
    second. *)
Theorem backward_defines_the_required_gradients (ctx : AutogradContext R) grad_outputs
    all_positions all_cells res :
  saved_variables ctx !! 0%nat = Some all_positions ->
  saved_variables ctx !! 1%nat = Some all_cells ->
  grad_outputs <> [] ->
  backward ndebug zero add mul ctx grad_outputs = Ok res ->
  exists positions_grad cell_grad,
    res = [positions_grad; cell_grad; None; None; None; None]
    /\ (is_Some positions_grad <-> requires_grad all_positions = true)
    /\ (is_Some cell_grad <-> requires_grad all_cells = true).
Proof.
  intros H0 H1 Hne Hres.
  destruct (backward_ok_inv ndebug zero add mul _ _ _ Hres) as (p & c & s & H0' & H1' & Hs).
  rewrite H0 in H0'. rewrite H1 in H1'. injection H0' as <-. injection H1' as <-.
  rewrite (backward_unfold ndebug zero add mul _ _ _ _ _ H0 H1 Hs) in Hres.
  rewrite decide_False in Hres by (destruct grad_outputs; [done | simpl; lia]).
  apply bind_ok in Hres as (pg & Hpg & Hres). apply bind_ok in Hres as (cg & Hcg & [= <-]).
  exists pg, cg. split; [done|]. split.
  - unfold positions_path in Hpg. destruct (requires_grad all_positions).
    + apply bind_ok in Hpg as (? & _ & Hpg). apply bind_ok in Hpg as (? & _ & Hpg).
      apply bind_ok in Hpg as (? & _ & Hpg). apply bind_ok in Hpg as (? & _ & [= <-]).
      split; [done | by eexists].
    + injection Hpg as <-. split; [intros [? [=]] | done].
  - unfold cell_path in Hcg. destruct (requires_grad all_cells).
    + split; [done|]. intros _.
      apply bind_ok in Hcg as (? & _ & Hcg). apply bind_ok in Hcg as (? & _ & Hcg).
      apply bind_ok in Hcg as (? & _ & Hcg). apply bind_ok in Hcg as (? & _ & Hcg).
      apply bind_ok in Hcg as (? & _ & Hcg). apply bind_ok in Hcg as (? & _ & Hcg).
      destruct (_ =? _)%nat; [discriminate|].
      apply bind_ok in Hcg as (? & _ & [= <-]). by eexists.
    + injection Hcg as <-. split; [intros [? [=]] | done].
Qed.

(** X12. [backward] reads the context before anything else: with fewer than
    two saved variables the read of [saved_variables[0]] or [[1]] is outside
    the vector, and with them but without a list of integers under
    "structures_start" the conversion of that entry throws, whatever the
    adjoints are. *)
Theorem backward_needs_the_saved_context (ctx : AutogradContext R) grad_outputs :
  ((length (saved_variables ctx) < 2)%nat ->
   backward ndebug zero add mul ctx grad_outputs = Err UndefinedBehavior)
  /\ ((2 <= length (saved_variables ctx))%nat ->
      (forall l, saved ctx "structures_start" <> IIntList l) ->
      backward ndebug zero add mul ctx grad_outputs = Err TypeError).
Proof.
  unfold backward. cbv zeta. split.
  - intros Hlen. destruct (saved_variables ctx) as [|p [|c l]]; simpl in *;
      [done | done | lia].
  - intros Hlen Hmissing. destruct (saved_variables ctx) as [|p [|c l]]; simpl in *;
      [lia | lia |].
    change (read (p :: c :: l) 0) with (Ok p).
    change (read (p :: c :: l) 1) with (Ok c). cbn [mbind result_bind].
    destruct (saved ctx "structures_start") as [|l'| | | |]; try done.
    by destruct (Hmissing l').
Qed.

(** X13. The number of saved blocks is checked against the number of
    adjoints: in the positions path a list of another length stops
    [backward] on [positions_gradients.size() == n_blocks], and in the cell
    path, reached with the positions path done, on
    [cell_gradients.size() == n_blocks] or, that one holding, on
    [all_samples.size() == n_blocks]. *)
Theorem backward_checks_the_number_of_saved_blocks (ctx : AutogradContext R)
    grad_outputs all_positions all_cells structures_start :
  saved_variables ctx !! 0%nat = Some all_positions ->
  saved_variables ctx !! 1%nat = Some all_cells ->
  saved ctx "structures_start" = IIntList structures_start ->
  grad_outputs <> [] ->
  (forall positions_gradients,
     requires_grad all_positions = true ->
     saved ctx "positions_gradients" = IList positions_gradients ->
     length positions_gradients <> length grad_outputs ->
     backward ndebug zero add mul ctx grad_outputs = Err (AssertFailed positions_gradients_size))
  /\ (forall positions_grad cell_gradients,
        positions_path ndebug zero add mul ctx all_positions structures_start
          (contiguous <$> grad_outputs) (Z.of_nat (length grad_outputs))
        = Ok positions_grad ->
        requires_grad all_cells = true ->
        saved ctx "cell_gradients" = IList cell_gradients ->
        (length cell_gradients <> length grad_outputs ->
         backward ndebug zero add mul ctx grad_outputs = Err (AssertFailed cell_gradients_size))
        /\ (forall all_samples,
              length cell_gradients = length grad_outputs ->
              saved ctx "samples" = IList all_samples ->
              length all_samples <> length grad_outputs ->
              backward ndebug zero add mul ctx grad_outputs
              = Err (AssertFailed all_samples_size))).
Proof.
  intros H0 H1 Hs Hne. rewrite (backward_unfold ndebug zero add mul _ _ _ _ _ H0 H1 Hs).
  rewrite decide_False by (destruct grad_outputs; [done | simpl; lia]).
  split.
  - intros l Hrg Hsaved Hlen. unfold positions_path. rewrite Hrg, Hsaved.
    cbn [toListRef mbind result_bind].
    rewrite (bool_decide_eq_false_2 (Z.of_nat (length l) = Z.of_nat (length grad_outputs)))
      by lia.
    done.
  - intros pg l Hpg Hrg Hsaved. rewrite Hpg. cbn [mbind result_bind].
    unfold cell_path. rewrite Hrg, Hsaved. cbn [toListRef mbind result_bind]. split.
    + intros Hlen.
      rewrite (bool_decide_eq_false_2
                 (Z.of_nat (length l) = Z.of_nat (length grad_outputs))) by lia.
      done.
    + intros l' Hlen Hsamples Hlen'.
      rewrite (bool_decide_eq_true_2
                 (Z.of_nat (length l) = Z.of_nat (length grad_outputs))) by lia.
      cbn [always_assert mbind result_bind]. rewrite Hsamples.
      cbn [toListRef mbind result_bind].
      rewrite (bool_decide_eq_false_2
                 (Z.of_nat (length l') = Z.of_nat (length grad_outputs))) by lia.
      done.
Qed.
End BackwardFurther.

(** ** [backward]: what it can raise *)

Section BackwardErrors.
Context (ndebug : bool) {R : Type} (zero : R) (add mul : R -> R -> R).

Lemma bind_err {A B} (m : result A) (f : A -> result B) (e : error) :
  m ≫= f = Err e -> m = Err e \/ exists a, m = Ok a /\ f a = Err e.
Proof. destruct m as [a|e']; simpl; [right; by exists a | left; congruence]. Qed.

Lemma read_err {A} (buffer : list A) (i : Z) e :
  read buffer i = Err e -> e = UndefinedBehavior.
Proof.
  unfold read. destruct (decide (0 <= i)); [|by intros [= <-]].
  destruct (buffer !! Z.to_nat i); [discriminate | by intros [= <-]].
Qed.

Lemma always_assert_err c a e : always_assert c a = Err e -> e = AssertFailed a.
Proof. destruct c; simpl; [discriminate | by intros [= <-]]. Qed.

Lemma plain_assert_err c a e : plain_assert ndebug c a = Err e -> e = AssertFailed a.
Proof. unfold plain_assert. destruct ndebug; [discriminate | apply always_assert_err]. Qed.

Lemma add_at_err (g : list R) i v e : add_at add g i v = Err e -> e = UndefinedBehavior.
Proof.
  unfold add_at. intros H. apply bind_err in H as [H|(x & _ & H)]; [|discriminate].
  by eapply read_err.
Qed.

Lemma dot_loop_err (forward_grad grad_values : list R) fs gs width e :
  dot_loop zero add mul forward_grad grad_values fs gs width = Err e ->
  e = UndefinedBehavior.
Proof.
  unfold dot_loop. apply (for_each_err (fun e => e = UndefinedBehavior)).
  intros i s e0 _ H. apply bind_err in H as [H|(x & _ & H)]; [by eapply read_err|].
  apply bind_err in H as [H|(y & _ & H)]; [by eapply read_err | discriminate].
Qed.

Lemma positions_row_err structures_start samples_values (forward_grad grad_values : list R)
    width r g e :
  positions_row zero add mul structures_start samples_values forward_grad grad_values
                width r g = Err e ->
  e = UndefinedBehavior.
Proof.
  unfold positions_row. intros H.
  do 4 (apply bind_err in H as [H|(? & _ & H)]; [by eapply read_err|]).
  revert H. apply (for_each_err (fun e => e = UndefinedBehavior)).
  intros d s e0 _ H. apply bind_err in H as [H|(v & _ & H)].
  - by eapply dot_loop_err.
  - by eapply add_at_err.
Qed.

Lemma positions_block_err structures_start (gradient : TensorBlock R) grad_outputs
    block_i g e :
  positions_block zero add mul structures_start gradient grad_outputs block_i g = Err e ->
  e = UndefinedBehavior
  \/ exists a, a ∈ positions_block_checks /\ e = AssertFailed a.
Proof.
  unfold positions_block, positions_block_checks, positions_names_checks. cbv zeta.
  intros H.
  apply bind_err in H as [H|(? & _ & H)].
  { right. eexists. split; [|by eapply always_assert_err]. set_solver. }
  apply bind_err in H as [H|(? & _ & H)].
  { right. eexists. split; [|by eapply always_assert_err]. set_solver. }
  apply bind_err in H as [H|(? & _ & H)].
  { right. eexists. split; [|by eapply always_assert_err]. set_solver. }
  apply bind_err in H as [H|(? & _ & H)].
  { right. eexists. split; [|by eapply always_assert_err]. set_solver. }
  apply bind_err in H as [H|(? & _ & H)].
  { right. eexists. split; [|by eapply always_assert_err]. set_solver. }
  apply bind_err in H as [H|(adjoint & _ & H)]; [left; by eapply read_err|].
  apply bind_err in H as [H|(? & _ & H)].
  { right. eexists. split; [|by eapply always_assert_err]. set_solver. }
  left. revert H. apply (for_each_err (fun e => e = UndefinedBehavior)).
  intros r s e0 _. apply positions_row_err.
Qed.

Lemma positions_blocks_err structures_start (positions_gradients : list (IValue R))
    grad_outputs n g e :
  positions_blocks zero add mul structures_start positions_gradients grad_outputs n g
  = Err e ->
  e = UndefinedBehavior
  \/ (exists a, a ∈ positions_block_checks /\ e = AssertFailed a)
  \/ (e = TypeError /\ exists iv, iv ∈ positions_gradients /\ forall b, iv <> IBlock b).
Proof.
  unfold positions_blocks.
  apply (for_each_err (fun e =>
    e = UndefinedBehavior
    \/ (exists a, a ∈ positions_block_checks /\ e = AssertFailed a)
    \/ (e = TypeError /\ exists iv, iv ∈ positions_gradients /\ forall b, iv <> IBlock b))).
  intros i s e0 _ H. apply bind_err in H as [H|(gradient & _ & H)].
  - apply bind_err in H as [H|(iv & Hiv & H)]; [left; by eapply read_err|].
    right. right. apply read_ok in Hiv as [_ Hiv].
    destruct iv; try (injection H as <-; split; [done|]; eexists;
      split; [by eapply list_elem_of_lookup_2 | done]). discriminate.
  - apply positions_block_err in H as [H|H]; auto.
Qed.

Lemma index_column_err (labels : Labels) dimension e :
  index_column labels dimension = Err e -> e = IndexError \/ e = UndefinedBehavior.
Proof.
  unfold index_column. destruct (decide _); [|intros [= <-]; by left].
  intros H. right. revert H. apply (for_each_err (fun e => e = UndefinedBehavior)).
  intros row s e0 _ H. apply bind_err in H as [H|(x & _ & H)]; [|discriminate].
  by eapply read_err.
Qed.

Lemma select_err (t : list Z) index e :
  select t index = Err e -> e = IndexError \/ e = UndefinedBehavior.
Proof.
  unfold select. destruct (decide _); [|intros [= <-]; by left].
  intros H. right. by eapply read_err.
Qed.

Lemma cell_row_err structures samples_values (forward_grad grad_values : list R)
    width r g e :
  cell_row zero add mul structures samples_values forward_grad grad_values width r g
  = Err e ->
  e = IndexError \/ e = UndefinedBehavior.
Proof.
  unfold cell_row. intros H.
  apply bind_err in H as [H|(sample_i & _ & H)]; [right; by eapply read_err|].
  apply bind_err in H as [H|(structure_i & _ & H)]; [by eapply select_err|].
  right. revert H. apply (for_each_err (fun e => e = UndefinedBehavior)).
  intros d1 s e0 _. apply (for_each_err (fun e => e = UndefinedBehavior)).
  intros d2 t e1 _ H. cbv zeta in H. apply bind_err in H as [H|(v & _ & H)].
  - by eapply dot_loop_err.
  - by eapply add_at_err.
Qed.

Lemma cell_block_err first_sample_names structure_dimension (gradient : TensorBlock R)
    block_samples grad_outputs block_i g e :
  cell_block zero add mul first_sample_names structure_dimension gradient block_samples
             grad_outputs block_i g = Err e ->
  e = IndexError \/ e = UndefinedBehavior
  \/ exists a, a ∈ cell_block_checks /\ e = AssertFailed a.
Proof.
  unfold cell_block, cell_block_checks. cbv zeta. intros H.
  apply bind_err in H as [H|(? & _ & H)].
  { do 2 right. eexists. split; [|by eapply always_assert_err]. set_solver. }
  apply bind_err in H as [H|(structures & _ & H)].
  { apply index_column_err in H as [H|H]; auto. }
  apply bind_err in H as [H|(? & _ & H)].
  { do 2 right. eexists. split; [|by eapply always_assert_err]. set_solver. }
  apply bind_err in H as [H|(? & _ & H)].
  { do 2 right. eexists. split; [|by eapply always_assert_err]. set_solver. }
  apply bind_err in H as [H|(? & _ & H)].
  { do 2 right. eexists. split; [|by eapply always_assert_err]. set_solver. }
  apply bind_err in H as [H|(adjoint & _ & H)]; [right; left; by eapply read_err|].
  apply bind_err in H as [H|(? & _ & H)].
  { do 2 right. eexists. split; [|by eapply always_assert_err]. set_solver. }
  assert (e = IndexError \/ e = UndefinedBehavior) as [?|?]; [|by auto..].
  revert H. apply (for_each_err (fun e => e = IndexError \/ e = UndefinedBehavior)).
  intros r s e0 _. apply cell_row_err.
Qed.

Lemma cell_blocks_err first_sample_names structure_dimension
    (cell_gradients all_samples : list (IValue R)) grad_outputs n g e :
  cell_blocks zero add mul first_sample_names structure_dimension cell_gradients
              all_samples grad_outputs n g = Err e ->
  e = IndexError \/ e = UndefinedBehavior
  \/ (exists a, a ∈ cell_block_checks /\ e = AssertFailed a)
  \/ (e = TypeError
      /\ ((exists iv, iv ∈ cell_gradients /\ forall b, iv <> IBlock b)
          \/ (exists iv, iv ∈ all_samples /\ forall l, iv <> ILabels l))).
Proof.
  unfold cell_blocks.
  apply (for_each_err (fun e =>
    e = IndexError \/ e = UndefinedBehavior
    \/ (exists a, a ∈ cell_block_checks /\ e = AssertFailed a)
    \/ (e = TypeError
        /\ ((exists iv, iv ∈ cell_gradients /\ forall b, iv <> IBlock b)
            \/ (exists iv, iv ∈ all_samples /\ forall l, iv <> ILabels l))))).
  intros i s e0 _ H. apply bind_err in H as [H|(gradient & _ & H)].
  { apply bind_err in H as [H|(iv & Hiv & H)]; [right; left; by eapply read_err|].
    do 3 right. apply read_ok in Hiv as [_ Hiv].
    destruct iv; try (injection H as <-; split; [done|]; left; eexists;
      split; [by eapply list_elem_of_lookup_2 | done]). discriminate. }
  apply bind_err in H as [H|(block_samples & _ & H)].
  { apply bind_err in H as [H|(iv & Hiv & H)]; [right; left; by eapply read_err|].
    do 3 right. apply read_ok in Hiv as [_ Hiv].
    destruct iv; try (injection H as <-; split; [done|]; right; eexists;
      split; [by eapply list_elem_of_lookup_2 | done]). discriminate. }
  apply cell_block_err in H as [H|[H|H]]; auto.
Qed.
End BackwardErrors.

Section BackwardRaises.
Context (ndebug : bool) {R : Type} (zero : R) (add mul : R -> R -> R).

Lemma positions_path_err (ctx : AutogradContext R) all_positions structures_start
    grad_outputs n e :
  positions_path ndebug zero add mul ctx all_positions structures_start grad_outputs n = Err e ->
  e = UndefinedBehavior \/ e = TypeError \/ exists a, e = AssertFailed a.
Proof.
  unfold positions_path. destruct (requires_grad all_positions); [|discriminate].
  cbv zeta. intros H.
  apply bind_err in H as [H|(positions_gradients & _ & H)].
  { destruct (saved ctx "positions_gradients"); try (injection H as <-; auto).
    discriminate. }
  apply bind_err in H as [H|(? & _ & H)].
  { apply always_assert_err in H. eauto. }
  apply bind_err in H as [H|(? & _ & H)].
  { apply (plain_assert_err ndebug) in H. eauto. }
  apply bind_err in H as [H|(? & _ & H)]; [|discriminate].
  apply positions_blocks_err in H as [H|[(a & _ & H)|[H _]]]; eauto.
Qed.

Lemma cell_path_err (ctx : AutogradContext R) all_cells grad_outputs n e :
  cell_path zero add mul ctx all_cells grad_outputs n = Err e ->
  requires_grad all_cells = true
  /\ (e = UndefinedBehavior \/ e = TypeError \/ e = IndexError
      \/ e = structure_missing \/ exists a, e = AssertFailed a).
Proof.
  unfold cell_path. destruct (requires_grad all_cells); [|discriminate].
  cbv zeta. intros H. split; [done|].
  apply bind_err in H as [H|(cell_gradients & _ & H)].
  { destruct (saved ctx "cell_gradients"); try (injection H as <-; auto).
    discriminate. }
  apply bind_err in H as [H|(? & _ & H)].
  { apply always_assert_err in H. eauto 6. }
  apply bind_err in H as [H|(all_samples & _ & H)].
  { destruct (saved ctx "samples"); try (injection H as <-; auto). discriminate. }
  apply bind_err in H as [H|(? & _ & H)].
  { apply always_assert_err in H. eauto 6. }
  apply bind_err in H as [H|(? & _ & H)].
  { apply always_assert_err in H. eauto 6. }
  apply bind_err in H as [H|(first_samples & _ & H)].
  { apply bind_err in H as [H|(iv & _ & H)]; [left; by eapply read_err|].
    destruct iv; try (injection H as <-; auto). discriminate. }
  destruct (_ =? _)%nat; [injection H as <-; auto|].
  apply bind_err in H as [H|(? & _ & H)]; [|discriminate].
  apply cell_blocks_err in H as [H|[H|[(a & _ & H)|[H _]]]]; eauto 6.
Qed.

(** X14. What [backward] can raise (lines 180-359): never an exception of the
    tensor-map library, and of the invalid-argument errors only the one about
    the missing "structure" column; an index out of range or that missing
    column is only met in the cell path, so only when the saved cell requires
    a gradient. *)
Theorem backward_raises_only_its_own_errors (ctx : AutogradContext R) grad_outputs e :
  backward ndebug zero add mul ctx grad_outputs = Err e ->
  raised_by_backward e
  /\ (e = IndexError \/ e = structure_missing ->
      exists all_cells,
        saved_variables ctx !! 1%nat = Some all_cells
        /\ requires_grad all_cells = true).
Proof.
  unfold backward. cbv zeta. intros H.
  apply bind_err in H as [H|(all_positions & _ & H)].
  { apply read_err in H as ->. split; [done|]. by intros [|]. }
  apply bind_err in H as [H|(all_cells & Hcells & H)].
  { apply read_err in H as ->. split; [done|]. by intros [|]. }
  apply read_ok in Hcells as [_ Hcells]. simpl in Hcells.
  apply bind_err in H as [H|(structures_start & _ & H)].
  { destruct (saved ctx "structures_start");
      try (injection H as <-; split; [done|]; by intros [|]). discriminate. }
  destruct (decide _); [discriminate|].
  apply bind_err in H as [H|(positions_grad & _ & H)].
  { apply positions_path_err in H as [->|[->|[a ->]]];
      (split; [done|]); by intros [|]. }
  apply bind_err in H as [H|(cell_grad & _ & H)]; [|discriminate].
  apply cell_path_err in H as [Hrg H]. split.
  - destruct H as [->|[->|[->|[->|[a ->]]]]]; done.
  - intros _. by exists all_cells.
Qed.

Lemma read_fmap_ok {A B} (f : A -> B) (l : list A) (i : Z) (y : B) :
  read (f <$> l) i = Ok y -> exists x, y = f x.
Proof.
  intros H. apply read_ok in H as [_ H]. rewrite list_lookup_fmap in H.
  destruct (l !! Z.to_nat i) as [x|]; [|discriminate]. exists x. simpl in H. congruence.
Qed.

Lemma not_a_block (l : list (TensorBlock R)) (iv : IValue R) :
  iv ∈ (IBlock <$> l) -> (forall b, iv <> IBlock b) -> False.
Proof.
  intros Hin Hno. apply list_elem_of_fmap in Hin as (b & -> & _). by apply (Hno b).
Qed.

Lemma not_labels (l : list Labels) (iv : IValue R) :
  iv ∈ (@ILabels R <$> l) -> (forall b, iv <> ILabels b) -> False.
Proof.
  intros Hin Hno. apply list_elem_of_fmap in Hin as (b & -> & _). by apply (Hno b).
Qed.

Lemma size_checks_apart :
  Forall (fun a => a ∉ size_checks)
         (positions_block_checks ++ cell_block_checks
          ++ [positions_grad_layout; cell_grad_layout]).
Proof.
  repeat constructor; intros Hin; apply list_elem_of_In in Hin; simpl in Hin;
    intuition discriminate.
Qed.

(** X15. [forward], then [backward] (lines 113-147 and 185-299): with one adjoint
    for each tensor of values that [forward] returned, [backward] finds in the
    context what it reads there: it does not fail on the type of a saved
    entry, nor on one of its three checks of the number of saved blocks. *)
Theorem backward_reads_what_forward_saved (all_positions all_cells : Tensor R)
    calculator systems forward_gradients calls out grad_outputs e :
  forward new_context all_positions all_cells calculator systems forward_gradients
  = (calls, Ok out) ->
  length grad_outputs = length (values_by_block out) ->
  backward ndebug zero add mul (context out) grad_outputs = Err e ->
  e <> TypeError /\ forall a, a ∈ size_checks -> e <> AssertFailed a.
Proof.
  intros Hf Hlen H. apply forward_ok in Hf as (native & descriptor & Hf); simpl in Hf.
  destruct Hf as (_ & _ & _ & _ & Hvalues & Hctx & _).
  apply values_by_block_of_ok in Hvalues. rewrite Hvalues, length_fmap in Hlen.
  apply save_context_ok in Hctx as (pgs & cgs & Hvars & Hdata & Hpgs & Hcgs).
  destruct (saved_after_forward_lookup all_positions all_cells
              (structures_start_of systems) pgs cgs (samples <$> keyed_blocks descriptor))
    as (L1 & L2 & L3 & L4 & _).
  rewrite <- Hdata in L1, L2, L3, L4.
  rewrite (backward_unfold ndebug zero add mul (context out) grad_outputs all_positions
             all_cells (structures_start_of systems)) in H;
    [|by rewrite Hvars|by rewrite Hvars|by unfold saved; rewrite L1].
  destruct (decide _); [discriminate|].
  assert (forall a, a ∈ positions_block_checks \/ a ∈ cell_block_checks
                    \/ a = positions_grad_layout \/ a = cell_grad_layout ->
                    a ∉ size_checks) as Hchecks.
  { intros a Ha. apply (proj1 (Forall_forall _ _) size_checks_apart a).
    rewrite !elem_of_app. destruct Ha as [Ha|[Ha|[->| ->]]]; auto.
    - right. right. left.
    - right. right. right. left. }
  assert (forall a, a ∈ positions_block_checks \/ a ∈ cell_block_checks
                    \/ a = positions_grad_layout \/ a = cell_grad_layout ->
                    AssertFailed a <> TypeError
                    /\ forall a', a' ∈ size_checks -> AssertFailed a <> AssertFailed a')
    as Hassert.
  { intros a Ha. split; [done|]. intros a' Ha' [= <-]. by apply (Hchecks a). }
  assert (forall e', e' = UndefinedBehavior \/ e' = IndexError \/ e' = structure_missing ->
                     e' <> TypeError
                     /\ forall a', a' ∈ size_checks -> e' <> AssertFailed a') as Hdata'.
  { intros e' [->|[->| ->]]; split; done. }
  apply bind_err in H as [H|(positions_grad & _ & H)].
  { unfold positions_path in H.
    destruct (requires_grad all_positions) eqn:Hrg; [|discriminate].
    specialize (Hpgs eq_refl). apply Forall2_length in Hpgs.
    unfold saved in H. rewrite L2 in H. simpl in H. rewrite length_fmap in H.
    rewrite (bool_decide_eq_true_2
               (Z.of_nat (length pgs) = Z.of_nat (length grad_outputs))) in H
      by (f_equal; congruence).
    simpl in H.
    apply bind_err in H as [H|(? & _ & H)].
    { apply (plain_assert_err ndebug) in H as ->. apply Hassert. auto. }
    apply bind_err in H as [H|(? & _ & H)]; [|discriminate].
    apply positions_blocks_err in H as [->|[(a & Ha & ->)|[_ (iv & Hiv & Hno)]]].
    - apply Hdata'. auto.
    - apply Hassert. auto.
    - destruct (not_a_block _ _ Hiv Hno). }
  apply bind_err in H as [H|(cell_grad & _ & H)]; [|discriminate].
  unfold cell_path in H.
  destruct (requires_grad all_cells) eqn:Hrg; [|discriminate].
  specialize (Hcgs eq_refl). apply Forall2_length in Hcgs.
  unfold saved in H. rewrite L3, L4 in H. simpl in H. rewrite !length_fmap in H.
  rewrite (bool_decide_eq_true_2
             (Z.of_nat (length cgs) = Z.of_nat (length grad_outputs))) in H
    by (f_equal; congruence).
  rewrite (bool_decide_eq_true_2
             (Z.of_nat (length (keyed_blocks descriptor))
              = Z.of_nat (length grad_outputs))) in H
    by (f_equal; congruence).
  simpl in H.
  apply bind_err in H as [H|(? & _ & H)].
  { apply always_assert_err in H as ->. apply Hassert. auto. }
  apply bind_err in H as [H|(first_samples & Hfirst & H)].
  { apply bind_err in H as [H|(iv & Hiv & H)].
    - apply read_err in H as ->. apply Hdata'. auto.
    - rewrite <- list_fmap_compose in Hiv.
      apply read_fmap_ok in Hiv as (b & ->). discriminate. }
  destruct (_ =? _)%nat; [injection H as <-; apply Hdata'; auto|].
  apply bind_err in H as [H|(? & _ & H)]; [|discriminate].
  rewrite <- list_fmap_compose in H.
  apply cell_blocks_err in H
    as [->|[->|[(a & Ha & ->)|[_ [(iv & Hiv & Hno)|(iv & Hiv & Hno)]]]]].
  - apply Hdata'. auto.
  - apply Hdata'. auto.
  - apply Hassert. auto.
  - destruct (not_a_block _ _ Hiv Hno).
  - rewrite list_fmap_compose in Hiv. destruct (not_labels _ _ Hiv Hno).
Qed.
End BackwardRaises.

Section BackwardLayout.
Context (ndebug : bool) {R : Type} (zero : R) (add mul : R -> R -> R).

Lemma always_assert_false c a e : always_assert c a = Err e -> c = false.
Proof. destruct c; [discriminate | done]. Qed.

Lemma positions_block_layout structures_start (gradient : TensorBlock R) grad_outputs
    block_i g :
  positions_block zero add mul structures_start gradient grad_outputs block_i g
  = Err (AssertFailed positions_output_layout) ->
  exists adjoint,
    adjoint ∈ grad_outputs /\ is_contiguous adjoint && is_cpu adjoint = false.
Proof.
  unfold positions_block. cbv zeta. intros H.
  do 5 (apply bind_err in H as [H|(? & _ & H)];
        [by apply always_assert_err in H|]).
  apply bind_err in H as [H|(adjoint & Hadjoint & H)]; [by apply read_err in H|].
  apply bind_err in H as [H|(? & _ & H)].
  - apply always_assert_false in H. apply read_ok in Hadjoint as [_ Hadjoint].
    exists adjoint. split; [by eapply list_elem_of_lookup_2 | done].
  - exfalso.
    refine (for_each_err (fun e => e = AssertFailed positions_output_layout -> False)
              _ _ _ _ _ H eq_refl).
    intros r s e _ Hr ->. by apply positions_row_err in Hr.
Qed.

Lemma cell_block_layout first_sample_names structure_dimension (gradient : TensorBlock R)
    block_samples grad_outputs block_i g :
  cell_block zero add mul first_sample_names structure_dimension gradient block_samples
             grad_outputs block_i g = Err (AssertFailed cell_output_layout) ->
  exists adjoint,
    adjoint ∈ grad_outputs /\ is_contiguous adjoint && is_cpu adjoint = false.
Proof.
  unfold cell_block. cbv zeta. intros H.
  apply bind_err in H as [H|(? & _ & H)]; [by apply always_assert_err in H|].
  apply bind_err in H as [H|(? & _ & H)]; [by apply index_column_err in H as [|]|].
  do 3 (apply bind_err in H as [H|(? & _ & H)];
        [by apply always_assert_err in H|]).
  apply bind_err in H as [H|(adjoint & Hadjoint & H)]; [by apply read_err in H|].
  apply bind_err in H as [H|(? & _ & H)].
  - apply always_assert_false in H. apply read_ok in Hadjoint as [_ Hadjoint].
    exists adjoint. split; [by eapply list_elem_of_lookup_2 | done].
  - exfalso.
    refine (for_each_err (fun e => e = AssertFailed cell_output_layout -> False)
              _ _ _ _ _ H eq_refl).
    intros r s e _ Hr ->. by apply cell_row_err in Hr as [|].
Qed.

Lemma on_another_device (grad_outputs : list (Tensor R)) :
  (exists adjoint,
     adjoint ∈ (contiguous <$> grad_outputs)
     /\ is_contiguous adjoint && is_cpu adjoint = false) ->
  exists adjoint, adjoint ∈ grad_outputs /\ is_cpu adjoint = false.
Proof.
  intros (adjoint & Hin & Hlayout).
  apply list_elem_of_fmap in Hin as (t & -> & Hin). exists t. split; [done|].
  by rewrite is_contiguous_contiguous, is_cpu_contiguous in Hlayout.
Qed.

(** X16. The checks of the layout of an adjoint (lines 240 and 319) come after
    [contiguous()] (line 195), so they never fail on its strides: when
    [backward] stops on one of them, some adjoint is not on the CPU. *)
Theorem backward_output_layout_is_the_device (ctx : AutogradContext R) grad_outputs a :
  backward ndebug zero add mul ctx grad_outputs = Err (AssertFailed a) ->
  a = positions_output_layout \/ a = cell_output_layout ->
  exists adjoint, adjoint ∈ grad_outputs /\ is_cpu adjoint = false.
Proof.
  unfold backward. cbv zeta. intros H Ha.
  apply bind_err in H as [H|(all_positions & _ & H)]; [by apply read_err in H|].
  apply bind_err in H as [H|(all_cells & _ & H)]; [by apply read_err in H|].
  apply bind_err in H as [H|(structures_start & _ & H)].
  { by destruct (saved ctx "structures_start"). }
  destruct (decide _); [discriminate|].
  apply bind_err in H as [H|(positions_grad & _ & H)].
  { unfold positions_path in H. destruct (requires_grad all_positions); [|discriminate].
    cbv zeta in H.
    apply bind_err in H as [H|(positions_gradients & _ & H)].
    { by destruct (saved ctx "positions_gradients"). }
    apply bind_err in H as [H|(? & _ & H)];
      [apply always_assert_err in H; injection H as ->; by destruct Ha|].
    apply bind_err in H as [H|(? & _ & H)];
      [apply (plain_assert_err ndebug) in H; injection H as ->; by destruct Ha|].
    apply bind_err in H as [H|(? & _ & H)]; [|discriminate].
    apply on_another_device. unfold positions_blocks in H.
    refine (for_each_err
              (fun e => e = AssertFailed a ->
                        exists adjoint,
                          adjoint ∈ (contiguous <$> grad_outputs)
                          /\ is_contiguous adjoint && is_cpu adjoint = false)
              _ _ _ _ _ H eq_refl).
    clear H. intros i s e _ H ->.
    apply bind_err in H as [H|(gradient & _ & H)].
    { apply bind_err in H as [H|(iv & _ & H)]; [by apply read_err in H|].
      by destruct iv. }
    destruct Ha as [->| ->]; [by eapply positions_block_layout|].
    apply positions_block_err in H as [H|(a' & Ha' & [= <-])]; [done|].
    unfold positions_block_checks, positions_names_checks in Ha'.
    apply list_elem_of_In in Ha'. simpl in Ha'. intuition discriminate. }
  apply bind_err in H as [H|(cell_grad & _ & H)]; [|discriminate].
  unfold cell_path in H. destruct (requires_grad all_cells); [|discriminate].
  cbv zeta in H.
  apply bind_err in H as [H|(cell_gradients & _ & H)].
  { by destruct (saved ctx "cell_gradients"). }
  apply bind_err in H as [H|(? & _ & H)];
    [apply always_assert_err in H; injection H as ->; by destruct Ha|].
  apply bind_err in H as [H|(all_samples & _ & H)].
  { by destruct (saved ctx "samples"). }
  do 2 (apply bind_err in H as [H|(? & _ & H)];
        [apply always_assert_err in H; injection H as ->; by destruct Ha|]).
  apply bind_err in H as [H|(first_samples & _ & H)].
  { apply bind_err in H as [H|(iv & _ & H)]; [by apply read_err in H|].
    by destruct iv. }
  destruct (_ =? _)%nat; [discriminate|].
  apply bind_err in H as [H|(? & _ & H)]; [|discriminate].
  apply on_another_device. unfold cell_blocks in H.
  refine (for_each_err
            (fun e => e = AssertFailed a ->
                      exists adjoint,
                        adjoint ∈ (contiguous <$> grad_outputs)
                        /\ is_contiguous adjoint && is_cpu adjoint = false)
            _ _ _ _ _ H eq_refl).
  clear H. intros i s e _ H ->.
  apply bind_err in H as [H|(gradient & _ & H)].
  { apply bind_err in H as [H|(iv & _ & H)]; [by apply read_err in H|].
    by destruct iv. }
  apply bind_err in H as [H|(block_samples & _ & H)].
  { apply bind_err in H as [H|(iv & _ & H)]; [by apply read_err in H|].
    by destruct iv. }
  destruct Ha as [->| ->]; [|by eapply cell_block_layout].
  apply cell_block_err in H as [H|[H|(a' & Ha' & [= <-])]]; [done|done|].
  unfold cell_block_checks in Ha'.
  apply list_elem_of_In in Ha'. simpl in Ha'. intuition discriminate.
Qed.
End BackwardLayout.

(** ** [backward]: the entries no gradient sample writes to *)

Section BackwardUntouched.
Context (ndebug : bool) {R : Type} (zero : R) (add mul : R -> R -> R).

Lemma accumulate_untouched {K : Type} `{EqDecision K} (key : K)
    (contributions : list (K * R)) :
  (forall c, c ∈ contributions -> c.1 <> key) ->
  accumulate zero add key contributions = zero.
Proof.
  unfold accumulate. generalize zero as start.
  induction contributions as [|c l IH]; intros start Hl; [done|]. simpl.
  destruct (decide (c.1 = key)) as [Heq|_].
  - destruct (Hl c); [left | done].
  - apply IH. intros c' Hc'. apply Hl. by right.
Qed.

Lemma positions_contributions_target offsets (jacobian : TensorBlock R) adjoint c :
  c ∈ positions_contributions zero add mul offsets jacobian adjoint ->
  exists r, 0 <= r < count (samples jacobian)
            /\ c.1.1 = positions_target offsets jacobian r.
Proof.
  unfold positions_contributions, positions_row_contributions. cbv zeta.
  intros Hc. apply list_elem_of_bind in Hc as (r & Hc & Hr).
  apply elem_of_seqZ in Hr. exists r. split; [lia|].
  apply list_elem_of_bind in Hc as (d & Hc & _).
  apply list_elem_of_singleton in Hc as ->. done.
Qed.

Lemma cell_contributions_target structure_dimension block_samples
    (jacobian : TensorBlock R) adjoint c :
  c ∈ cell_contributions zero add mul structure_dimension block_samples jacobian adjoint ->
  exists r, 0 <= r < count (samples jacobian)
            /\ c.1.1.1 = cell_target structure_dimension block_samples jacobian r.
Proof.
  unfold cell_contributions, cell_row_contributions. cbv zeta.
  intros Hc. apply list_elem_of_bind in Hc as (r & Hc & Hr).
  apply elem_of_seqZ in Hr. exists r. split; [lia|].
  apply list_elem_of_bind in Hc as (i & Hc & _).
  apply list_elem_of_bind in Hc as (j & Hc & _).
  apply list_elem_of_singleton in Hc as ->. done.
Qed.

(** X17. Positions path (lines 216-268), in a debug and in a release build:
    for positions that are contiguous and on the CPU, the gradient returned
    is contiguous, and an atom that no gradient sample of any saved block
    refers to keeps a zero gradient in every direction. *)
Theorem backward_leaves_other_atoms_at_zero (ctx : AutogradContext R) grad_outputs
    all_positions all_cells structures_start jacobians res atom direction :
  saved_variables ctx !! 0%nat = Some all_positions ->
  saved_variables ctx !! 1%nat = Some all_cells ->
  saved ctx "structures_start" = IIntList structures_start ->
  saved ctx "positions_gradients" = IList (IBlock <$> jacobians) ->
  requires_grad all_positions = true ->
  is_contiguous all_positions = true ->
  is_cpu all_positions = true ->
  grad_outputs <> [] ->
  backward ndebug zero add mul ctx grad_outputs = Ok res ->
  0 <= direction < 3 ->
  0 <= atom * 3 + direction < Z.of_nat (length (data all_positions)) ->
  (forall jacobian r,
     jacobian ∈ jacobians -> 0 <= r < count (samples jacobian) ->
     positions_target structures_start jacobian r <> atom) ->
  exists positions_grad,
    res !! 0%nat = Some (Some positions_grad)
    /\ is_contiguous positions_grad = true
    /\ data positions_grad !! Z.to_nat (atom * 3 + direction) = Some zero.
Proof.
  intros H0 H1 Hs Hj Hrg Hcontiguous Hcpu Hne Hres Hd Hin Hother.
  destruct (backward_positions_gradient ndebug zero add mul ctx grad_outputs
              all_positions all_cells structures_start jacobians res
              H0 H1 Hs Hj Hrg Hcpu Hne Hres)
    as (positions_grad & Hfirst & Hsizes & Hstrides & _ & Hat).
  exists positions_grad. split; [done|]. split.
  { unfold is_contiguous in *. by rewrite Hsizes, Hstrides. }
  rewrite (Hat atom direction Hd Hin).
  f_equal. unfold positions_gradient_at. apply accumulate_untouched.
  intros c Hc Hkey. apply list_elem_of_join in Hc as (l & Hc & Hl).
  apply elem_of_zip_with in Hl as (jacobian & adjoint & -> & Hjacobian & _).
  apply positions_contributions_target in Hc as (r & Hr & Htarget).
  apply (Hother jacobian r Hjacobian Hr). rewrite Hkey in Htarget. done.
Qed.

(** X18. Cell path (lines 297-348): a structure that no gradient sample of any
    saved block resolves to keeps a zero cell gradient. *)
Theorem backward_leaves_other_cells_at_zero (ctx : AutogradContext R) grad_outputs
    all_positions all_cells structures_start jacobians all_samples res structure i j :
  saved_variables ctx !! 0%nat = Some all_positions ->
  saved_variables ctx !! 1%nat = Some all_cells ->
  saved ctx "structures_start" = IIntList structures_start ->
  saved ctx "cell_gradients" = IList (IBlock <$> jacobians) ->
  saved ctx "samples" = IList (ILabels <$> all_samples) ->
  requires_grad all_cells = true ->
  grad_outputs <> [] ->
  backward ndebug zero add mul ctx grad_outputs = Ok res ->
  0 <= i < 3 -> 0 <= j < 3 ->
  0 <= (structure * 3 + i) * 3 + j < Z.of_nat (length (data all_cells)) ->
  (forall first block_samples jacobian r,
     all_samples !! 0%nat = Some first ->
     (block_samples, jacobian) ∈ zip all_samples jacobians ->
     0 <= r < count (samples jacobian) ->
     cell_target (Z.of_nat (find (names first) "structure")) block_samples jacobian r
     <> structure) ->
  exists cell_grad,
    res !! 1%nat = Some (Some cell_grad)
    /\ data cell_grad !! Z.to_nat ((structure * 3 + i) * 3 + j) = Some zero.
Proof.
  intros H0 H1 Hs Hj Hsamples Hrg Hne Hres Hi Hj' Hin Hother.
  destruct (backward_cell_gradient ndebug zero add mul ctx grad_outputs all_positions
              all_cells structures_start jacobians all_samples res
              H0 H1 Hs Hj Hsamples Hrg Hne Hres)
    as (first & cell_grad & Hfirst & _ & Hsecond & _ & _ & _ & Hat).
  exists cell_grad. split; [done|]. rewrite (Hat structure i j Hi Hj' Hin).
  f_equal. unfold cell_gradient_at. apply accumulate_untouched.
  intros c Hc Hkey. apply list_elem_of_join in Hc as (l & Hc & Hl).
  apply elem_of_zip_with in Hl as ([block_samples jacobian] & adjoint & -> & Hpair & _).
  apply cell_contributions_target in Hc as (r & Hr & Htarget).
  apply (Hother first block_samples jacobian r Hfirst Hpair Hr).
  rewrite Hkey in Htarget. done.
Qed.
End BackwardUntouched.

(** ** The further properties on the small calculator *)

Section FurtherWitnesses.
Import Example.

Lemma contains_is_membership_witness :
  contains ["positions"; "cell"] "cell" = true
  /\ ["positions"; "cell"] !! find ["positions"; "cell"] "cell" = Some "cell"
  /\ find ["positions"; "cell"] "energy" = 2%nat.
Proof.
  destruct (contains_is_membership ["positions"; "cell"] "cell") as (Hc & Hfound & _).
  destruct (contains_is_membership ["positions"; "cell"] "energy") as (_ & _ & Hmissing).
  assert ("cell" ∈ ["positions"; "cell"]) as Hin by (right; left).
  split; [by apply Hc|]. split; [by apply Hfound|].
  apply Hmissing. intros H. apply list_elem_of_In in H. simpl in H.
  intuition discriminate.
Defined.

Lemma structures_start_is_a_running_sum_witness :
  structures_start_of [mkSystem false (2 ^ 63); mkSystem false 1; mkSystem false 1]
  !! 1%nat = Some (to_int64 (0 + 2 ^ 63))
  /\ to_int64 (0 + 2 ^ 63) = - 2 ^ 63
  /\ structures_start_of TwoStructures.systems = [0; 2]
  /\ structures_start_of TwoStructures.systems !! 1%nat = Some (0 + 2).
Proof.
  destruct (structures_start_is_a_running_sum
              [mkSystem false (2 ^ 63); mkSystem false 1; mkSystem false 1])
    as (_ & _ & Hwraps & _).
  destruct (structures_start_is_a_running_sum TwoStructures.systems)
    as (_ & _ & _ & Hexact).
  destruct Hexact as (Hoffsets & Hstep & _).
  { intros system Hsystem. apply list_elem_of_In in Hsystem. simpl in Hsystem.
    destruct Hsystem as [<-|[<-|[]]]; simpl; lia. }
  { simpl. lia. }
  split; [|split; [reflexivity|split]].
  - apply (Hwraps 0%nat (mkSystem false (2 ^ 63)) 0);
      [reflexivity | reflexivity | simpl; lia].
  - rewrite Hoffsets. reflexivity.
  - apply (Hstep 0%nat (mkSystem false 2) 0); [reflexivity | reflexivity | simpl; lia].
Defined.

Lemma extract_gradient_blocks_all_or_nothing_witness :
  is_ok (extract_gradient_blocks
           (mkTensorMap (mkLabels ["key"] 1 [0]) [block (mkOptions ["positions"] false)])
           "positions")
  /\ extract_gradient_blocks
       (mkTensorMap (mkLabels ["key"] 1 [0]) [block (mkOptions ["positions"] false)])
       "cell" = Err LibraryError.
Proof.
  destruct (extract_gradient_blocks_all_or_nothing
              (mkTensorMap (mkLabels ["key"] 1 [0])
                           [block (mkOptions ["positions"] false)]) "positions")
    as (_ & _ & Hok).
  destruct (extract_gradient_blocks_all_or_nothing
              (mkTensorMap (mkLabels ["key"] 1 [0])
                           [block (mkOptions ["positions"] false)]) "cell")
    as (_ & Herr & _).
  split.
  - apply Hok. split; [simpl; lia|]. intros b Hb.
    apply list_elem_of_singleton in Hb as ->. by eexists.
  - destruct (extract_gradient_blocks _ "cell") as [copies|e] eqn:H.
    + vm_compute in H. discriminate.
    + by rewrite (Herr e eq_refl).
Defined.

Lemma forward_rejects_mixed_systems_witness :
  forward new_context (all_positions true) (all_cells true) calculator
          [mkSystem true 2; mkSystem false 1] ["cell"]
  = ([], Err native_mismatch).
Proof.
  apply (forward_rejects_mixed_systems new_context (all_positions true) (all_cells true)
           calculator [mkSystem true 2; mkSystem false 1] ["cell"]
           (mkSystem true 2) (mkSystem false 1)).
  - intros p Hp. apply list_elem_of_singleton in Hp as ->. by right.
  - left.
  - right. left.
  - discriminate.
Defined.

Lemma forward_invokes_the_calculator_once_witness :
  exists options,
    (run calculator true false ["cell"; "cell"]).1 = [(systems, options)]
    /\ gradients options ∈ [[]; ["positions"]; ["cell"]; ["positions"; "cell"]].
Proof.
  destruct (forward_invokes_the_calculator_once new_context (all_positions true)
              (all_cells false) calculator (mkSystem false 2) [] ["cell"; "cell"])
    as (options & Hcalls & _ & Hgradients & _).
  - intros p Hp. apply list_elem_of_In in Hp. simpl in Hp.
    destruct Hp as [<-|[<-|[]]]; by right.
  - intros s Hs. by apply list_elem_of_singleton in Hs as ->.
  - exists options. by split.
Defined.

Lemma forward_returns_the_block_values_witness :
  values_by_block (output_of (run calculator true true []).2)
  = values <$> keyed_blocks (tensor_map (output_of (run calculator true true []).2)).
Proof.
  destruct (forward_returns_the_block_values new_context (all_positions true)
              (all_cells true) calculator systems []
              (run calculator true true []).1
              (output_of (run calculator true true []).2))
    as (options & descriptor & _ & _ & _ & H); [vm_compute; reflexivity|].
  exact H.
Defined.

Lemma forward_only_adds_to_saved_data_witness :
  saved_data
    (context (output_of (forward TwoStructures.used_context (all_positions false)
                                 (all_cells true) calculator systems []).2))
  !! "samples" = Some (IIntList [7]).
Proof.
  destruct (forward_only_adds_to_saved_data TwoStructures.used_context
              (all_positions false) (all_cells true) calculator systems []
              (forward TwoStructures.used_context (all_positions false)
                       (all_cells true) calculator systems []).1
              (output_of (forward TwoStructures.used_context (all_positions false)
                                  (all_cells true) calculator systems []).2))
    as (_ & Hkept & _); [vm_compute; reflexivity|].
  apply Hkept. reflexivity.
Defined.

Lemma forward_without_requires_grad_witness :
  run calculator false false ["positions"]
  = ([(systems, mkOptions ["positions"] false)],
     Ok (mkForwardOutput
           [dense [2; 2] [1; 2; 3; 4] false]
           (mkContext [all_positions false; all_cells false]
                      (<["structures_start" := IIntList [0]]> ∅))
           (mkTensorMap (mkLabels ["key"] 1 [0])
                        [block (mkOptions ["positions"] false)]))).
Proof.
  apply (forward_without_requires_grad (all_positions false) (all_cells false)
           calculator systems ["positions"] false
           (mkTensorMap (mkLabels ["key"] 1 [0])
                        [block (mkOptions ["positions"] false)])).
  - intros p Hp. apply list_elem_of_singleton in Hp as ->. by left.
  - reflexivity.
  - reflexivity.
  - reflexivity.
  - reflexivity.
  - simpl. lia.
Defined.

Lemma forward_returns_on_honoured_options_witness :
  exists out,
    run calculator true true []
    = ([(systems, mkOptions ["positions"; "cell"] false)], Ok out).
Proof.
  apply (forward_returns_on_honoured_options new_context (all_positions true)
           (all_cells true) calculator systems [] false
           (mkTensorMap (mkLabels ["key"] 1 [0])
                        [block (mkOptions ["positions"; "cell"] false)])).
  - intros p Hp. by apply elem_of_nil in Hp.
  - reflexivity.
  - reflexivity.
  - simpl. lia.
  - intros b p Hb Hp. apply list_elem_of_singleton in Hb as ->.
    apply list_elem_of_In in Hp. simpl in Hp.
    destruct Hp as [<-|[<-|[]]]; by eexists.
Defined.

Lemma backward_without_requires_grad_witness :
  backward true 0 Z.add Z.mul (context_after calculator false false []) [adjoint]
  = Ok [None; None; None; None; None; None].
Proof.
  apply (backward_without_requires_grad true 0 Z.add Z.mul
           (context_after calculator false false []) [adjoint]
           (all_positions false) (all_cells false) [0]); reflexivity.
Defined.

Lemma backward_defines_the_required_gradients_witness :
  exists positions_grad cell_grad,
    returned (backward true 0 Z.add Z.mul (context_after calculator true false []) [adjoint])
    = [positions_grad; cell_grad; None; None; None; None]
    /\ (is_Some positions_grad <-> requires_grad (all_positions true) = true)
    /\ (is_Some cell_grad <-> requires_grad (all_cells false) = true).
Proof.
  apply (backward_defines_the_required_gradients true 0 Z.add Z.mul
           (context_after calculator true false []) [adjoint]).
  - reflexivity.
  - reflexivity.
  - discriminate.
  - vm_compute. reflexivity.
Defined.

Lemma backward_needs_the_saved_context_witness :
  backward true 0 Z.add Z.mul new_context [adjoint] = Err UndefinedBehavior
  /\ backward true 0 Z.add Z.mul
       (mkContext [all_positions true; all_cells true] ∅) [adjoint]
     = Err TypeError.
Proof.
  split.
  - apply (backward_needs_the_saved_context true 0 Z.add Z.mul new_context [adjoint]).
    simpl. lia.
  - apply (backward_needs_the_saved_context true 0 Z.add Z.mul
             (mkContext [all_positions true; all_cells true] ∅) [adjoint]).
    + simpl. lia.
    + intros l. discriminate.
Defined.

Lemma backward_checks_the_number_of_saved_blocks_witness :
  backward true 0 Z.add Z.mul (context_after calculator true false []) [adjoint; adjoint]
  = Err (AssertFailed positions_gradients_size).
Proof.
  destruct (backward_checks_the_number_of_saved_blocks true 0 Z.add Z.mul
              (context_after calculator true false []) [adjoint; adjoint]
              (all_positions true) (all_cells false) [0]) as [Hpositions _];
    [first [reflexivity | discriminate]..|].
  apply (Hpositions [IBlock (standalone positions_gradient)]);
    first [reflexivity | discriminate].
Defined.

Lemma backward_raises_only_its_own_errors_witness :
  exists all_cells,
    saved_variables (context_after anonymous_calculator false true []) !! 1%nat
    = Some all_cells
    /\ requires_grad all_cells = true.
Proof.
  destruct (backward_raises_only_its_own_errors true 0 Z.add Z.mul
              (context_after anonymous_calculator false true []) [adjoint]
              structure_missing) as [_ Hcell]; [vm_compute; reflexivity|].
  apply Hcell. by right.
Defined.

Lemma backward_reads_what_forward_saved_witness :
  AssertFailed positions_names_1 <> TypeError
  /\ forall a, a ∈ size_checks -> AssertFailed positions_names_1 <> AssertFailed a.
Proof.
  apply (backward_reads_what_forward_saved true 0 Z.add Z.mul (all_positions true)
           (all_cells false) misnamed_calculator systems []
           (run misnamed_calculator true false []).1
           (output_of (run misnamed_calculator true false []).2) [adjoint]).
  - vm_compute. reflexivity.
  - reflexivity.
  - vm_compute. reflexivity.
Defined.

Lemma backward_output_layout_is_the_device_witness :
  exists adjoint, adjoint ∈ [TwoStructures.elsewhere] /\ is_cpu adjoint = false.
Proof.
  apply (backward_output_layout_is_the_device true 0 Z.add Z.mul
           (context_after calculator true false []) [TwoStructures.elsewhere]
           positions_output_layout).
  - vm_compute. reflexivity.
  - by left.
Defined.

Lemma backward_leaves_other_atoms_at_zero_witness :
  exists positions_grad,
    returned (backward true 0 Z.add Z.mul TwoStructures.context [adjoint]) !! 0%nat
    = Some (Some positions_grad)
    /\ is_contiguous positions_grad = true
    /\ data positions_grad !! Z.to_nat (2 * 3 + 1) = Some 0.
Proof.
  apply (backward_leaves_other_atoms_at_zero true 0 Z.add Z.mul TwoStructures.context
           [adjoint] TwoStructures.all_positions TwoStructures.all_cells [0; 2]
           [standalone positions_gradient]).
  - reflexivity.
  - reflexivity.
  - reflexivity.
  - reflexivity.
  - reflexivity.
  - reflexivity.
  - reflexivity.
  - discriminate.
  - vm_compute. reflexivity.
  - lia.
  - simpl. lia.
  - intros jacobian r Hjacobian Hr. apply list_elem_of_singleton in Hjacobian as ->.
    assert (r = 0 \/ r = 1 \/ r = 2) as [->|[->| ->]] by (simpl in Hr; lia);
      vm_compute; discriminate.
Defined.

Lemma backward_leaves_other_cells_at_zero_witness :
  exists cell_grad,
    returned (backward true 0 Z.add Z.mul TwoStructures.context [adjoint]) !! 1%nat
    = Some (Some cell_grad)
    /\ data cell_grad !! Z.to_nat ((1 * 3 + 2) * 3 + 0) = Some 0.
Proof.
  apply (backward_leaves_other_cells_at_zero true 0 Z.add Z.mul TwoStructures.context
           [adjoint] TwoStructures.all_positions TwoStructures.all_cells [0; 2]
           [standalone cell_gradient] [block_samples]).
  - reflexivity.
  - reflexivity.
  - reflexivity.
  - reflexivity.
  - reflexivity.
  - reflexivity.
  - discriminate.
  - vm_compute. reflexivity.
  - lia.
  - lia.
  - simpl. lia.
  - intros first samples jacobian r Hfirst Hpair Hr. injection Hfirst as <-.
    apply list_elem_of_singleton in Hpair. injection Hpair as -> ->.
    assert (r = 0 \/ r = 1) as [->| ->] by (simpl in Hr; lia);
      vm_compute; discriminate.
Defined.
End FurtherWitnesses.
